(** * rpc_gds_export: a shallow embedding of the fab digital-twin generator

    The definitions follow [rpc_gds_export.py] top to bottom:

    - [Py]         exceptions and the state-and-exception monad in which the
                   mutating helpers of the script run;
    - [F64]        Python's [float] (IEEE-754 binary64) on the Standard
                   Library's [spec_float], with [int()], [%], [repr] and
                   the byte image used by [struct.pack];
    - [Struct]     the big-endian [struct.pack] formats the encoder uses;
    - [GDSWriter]  the binary layout encoder class;
    - [Arith]      the arithmetic interface of the geometry builder, with a
                   binary64 instance (what the interpreter runs, over any
                   C library) and an instance on the real numbers (the
                   exact geometry the floats approximate);
    - the layout parameters, the geometry helpers and the 8-channel
      layout loop, the fidelity ramp, the metadata mapping with Python's
      [json] text of it, and the self-test.

    The properties follow, numbered as in the specification: the
    encoder's records and coordinate scaling (C1, C3), the closed-polygon
    invariant and the polygon-count floor on every arithmetic (C9, C4),
    the exact count, the channel hues and the degenerate strip in
    binary64 (C10, C6, C7), the fidelity ramp in exact arithmetic (C2),
    and the metadata round trip (C8).

    Further properties of the same code come after them (X1 to X9 and
    X15): the framing of the record stream and what the encoder leaves
    in the file when a method raises, read through the [Reader]
    vocabulary, and the guard of the strip in binary64.  The ring
    geometry (C5) closes the development, after the bounds on the
    rounding of a binary64 product and sum that it rests on. *)

From Stdlib Require Import ZArith List Bool String Ascii Lia SpecFloat.
From Stdlib Require Import DecimalString.
From Stdlib Require Import Reals Lra.
From Stdlib Require Import Strings.Byte.
Import ListNotations.

Local Open Scope Z_scope.

(* ================================================================== *)
(** * Python exceptions, results, and stateful computations            *)
(* ================================================================== *)

Module Py.

(** The exceptions the script can raise. *)
Inductive exn : Type :=
| ZeroDivisionError
| OverflowError
| ValueError
| IndexError
| StructError
| UnicodeEncodeError
| AssertionError (msg : string).

Inductive result (A : Type) : Type :=
| Ok (a : A)
| Raise (e : exn).
Arguments Ok {A} a.
Arguments Raise {A} e.

Definition rbind {A B} (r : result A) (k : A -> result B) : result B :=
  match r with
  | Ok a => k a
  | Raise e => Raise e
  end.

(** Evaluate [f] on every element, left to right, stopping at the
    first exception. *)
Fixpoint rmap {A B} (f : A -> result B) (l : list A) : result (list B) :=
  match l with
  | [] => Ok []
  | a :: l' => rbind (f a) (fun b => rbind (rmap f l') (fun bs => Ok (b :: bs)))
  end.

(** A computation over a mutable object of type [S]: it returns or
    raises, and in both cases leaves the object in some state (what was
    written before an exception stays written). *)
Definition M (S A : Type) : Type := S -> result A * S.

Definition ret {S A} (a : A) : M S A := fun s => (Ok a, s).
Definition raise {S A} (e : exn) : M S A := fun s => (Raise e, s).
Definition bind {S A B} (c : M S A) (k : A -> M S B) : M S B :=
  fun s => match c s with
           | (Ok a, s') => k a s'
           | (Raise e, s') => (Raise e, s')
           end.
Definition lift {S A} (r : result A) : M S A := fun s => (r, s).

Fixpoint for_each {S A} (body : A -> M S unit) (l : list A) : M S unit :=
  match l with
  | [] => ret tt
  | a :: l' => bind (body a) (fun _ => for_each body l')
  end.

(** [range(n)] *)
Definition range (n : Z) : list Z := map Z.of_nat (seq 0 (Z.to_nat n)).

End Py.
Import Py.

Declare Scope py_scope.
Delimit Scope py_scope with py.
Notation "x <- c ;; k" := (bind c (fun x => k))
  (at level 61, c at next level, right associativity) : py_scope.
Notation "c ;;; k" := (bind c (fun _ => k))
  (at level 61, right associativity) : py_scope.

(* ================================================================== *)
(** * Python floats: IEEE-754 binary64                                 *)
(* ================================================================== *)

Module F64.

Definition prec : Z := 53.
Definition emax : Z := 1024.

(** A Python [float].  Values built by the operations below are valid
    binary64 numbers ([valid] holds). *)
Definition float : Type := spec_float.

Definition valid (x : float) : bool := valid_binary prec emax x.

Definition is_finite (x : float) : bool :=
  match x with
  | S754_zero _ | S754_finite _ _ _ => true
  | S754_infinity _ | S754_nan => false
  end.

Definition zero : float := S754_zero false.
Definition nan : float := S754_nan.

Definition add : float -> float -> float := SFadd prec emax.
Definition sub : float -> float -> float := SFsub prec emax.
Definition mul : float -> float -> float := SFmul prec emax.
(** IEEE division; Python's [/] is [truediv] below. *)
Definition div : float -> float -> float := SFdiv prec emax.
Definition neg : float -> float := SFopp.
Definition abs : float -> float := SFabs.
Definition eqb : float -> float -> bool := SFeqb.
Definition ltb : float -> float -> bool := SFltb.

(** [float(z)] for a Python [int], rounded to nearest-even; exact for
    [|z| <= 2^53], which covers every integer of the script.  (Beyond
    the largest float Python raises [OverflowError]; this function
    returns an infinity.) *)
Definition of_int (z : Z) : float := binary_normalize prec emax z 0 false.

(** The float nearest to [m * 10^e] for [0 <= m] (ties to even), with
    sign [s]: what Python reads from a decimal numeral, in the source
    text and in [float(str)]. *)
Definition of_decimal (s : bool) (m : Z) (e : Z) : float :=
  match m with
  | Zpos p =>
      let '(mz, ez, lz) :=
        SFdiv_core_binary prec emax (Z.pos p * 10 ^ Z.max e 0) 0
                          (10 ^ Z.max (- e) 0) 0 in
      binary_round_aux prec emax s mz ez lz
  | _ => S754_zero s
  end.

(** The float literal [m * 10^(-k)] of the source text: [1e-6] is
    [lit 1 6], [0.45] is [lit 45 2], [25.0] is [lit 250 1]. *)
Definition lit (m : Z) (k : Z) : float := of_decimal (m <? 0) (Z.abs m) (- k).

(** [x / y] on floats: [ZeroDivisionError] on a zero divisor. *)
Definition truediv (x y : float) : result float :=
  if eqb y zero then Raise ZeroDivisionError else Ok (div x y).

(** [int(x)]: truncation toward zero; [ValueError] on NaN,
    [OverflowError] on an infinity. *)
Definition to_int (x : float) : result Z :=
  match x with
  | S754_zero _ => Ok 0
  | S754_nan => Raise ValueError
  | S754_infinity _ => Raise OverflowError
  | S754_finite s m e =>
      let v := if s then Z.neg m else Z.pos m in
      Ok (if 0 <=? e then v * 2 ^ e else Z.quot v (2 ^ (- e)))
  end.

(** C's [fmod]: the exact remainder [x - trunc(x/y) * y], with the sign
    of [x]. *)
Definition c_fmod (x y : float) : float :=
  match x, y with
  | S754_nan, _ | _, S754_nan => S754_nan
  | S754_infinity _, _ => S754_nan
  | _, S754_zero _ => S754_nan
  | S754_zero _, _ => x
  | S754_finite _ _ _, S754_infinity _ => x
  | S754_finite sx mx ex, S754_finite _ my ey =>
      let e := Z.min ex ey in
      let r := Z.rem (Z.pos mx * 2 ^ (ex - e)) (Z.pos my * 2 ^ (ey - e)) in
      binary_normalize prec emax (if sx then - r else r) e sx
  end.

(** [x % y] on floats ([float_rem] of CPython): the remainder takes the
    sign of the divisor.  The divisor of the script is the literal [1];
    on a zero divisor Python raises and this function returns NaN. *)
Definition pymod (x y : float) : float :=
  let m := c_fmod x y in
  match m with
  | S754_zero _ =>
      match y with
      | S754_zero s | S754_infinity s | S754_finite s _ _ => S754_zero s
      | S754_nan => m
      end
  | _ => if xorb (ltb y zero) (ltb m zero) then add m y else m
  end.

(** The 64-bit image of a float (sign, 11-bit biased exponent, 52-bit
    fraction); NaN is the quiet NaN [0x7ff8000000000000]. *)
Definition bits (x : float) : Z :=
  let sign (s : bool) := if s then 2 ^ 63 else 0 in
  match x with
  | S754_zero s => sign s
  | S754_infinity s => sign s + 2047 * 2 ^ 52
  | S754_nan => 2047 * 2 ^ 52 + 2 ^ 51
  | S754_finite s m e =>
      if Z.pos (digits2_pos m) =? prec
      then sign s + (e + 1075) * 2 ^ 52 + (Z.pos m - 2 ^ 52)
      else sign s + Z.pos m
  end.

(** ** Decimal text: [repr(float)] *)

(** The number of decimal digits of [n > 0] ([fuel] bounds it). *)
Fixpoint ndigits10 (fuel : nat) (n : Z) : Z :=
  match fuel with
  | O => 0
  | S fuel' => if n <? 10 then 1 else 1 + ndigits10 fuel' (n / 10)
  end.

(** The least [j >= 0] with [num * 10^j >= den], for [0 < num]. *)
Fixpoint lead_zeros (fuel : nat) (num den : Z) : Z :=
  match fuel with
  | O => 0
  | S fuel' => if den <=? num then 0 else 1 + lead_zeros fuel' (num * 10) den
  end.

(** The position of the decimal point of [num/den > 0]: the [k] with
    [10^(k-1) <= num/den < 10^k]. *)
Definition decpt (num den : Z) : Z :=
  if den <=? num then ndigits10 400 (num / den)
  else 1 - lead_zeros 400 num den.

(** The search of [repr]: the shortest decimal [d * 10^(k-n)], [d] of
    [n <= 17] digits, that [float()] reads back as [x > 0]; of the two
    [n]-digit neighbours of [x = num/den] the nearer is tried first.
    The result is the pair of [d] and its power of ten. *)
Fixpoint shortest (fuel : nat) (n : Z) (x : float) (num den k : Z) : Z * Z :=
  let sn := num * 10 ^ Z.max (n - k) 0 in
  let sd := den * 10 ^ Z.max (k - n) 0 in
  let lo := sn / sd in
  let r2 := 2 * (sn mod sd) in
  let up_first := (sd <? r2) || ((sd =? r2) && Z.odd lo) in
  let c1 := if up_first then lo + 1 else lo in
  let c2 := if up_first then lo else lo + 1 in
  let reads_back d := eqb (of_decimal false d (k - n)) x in
  match fuel with
  | O => (c1, k - n)
  | S fuel' =>
      if reads_back c1 then (c1, k - n)
      else if reads_back c2 then (c2, k - n)
      else shortest fuel' (n + 1) x num den k
  end.

(** Drop the trailing zeros of [d], raising its power of ten. *)
Fixpoint strip_zeros (fuel : nat) (d e : Z) : Z * Z :=
  match fuel with
  | O => (d, e)
  | S fuel' =>
      if (0 <? d) && (d mod 10 =? 0) then strip_zeros fuel' (d / 10) (e + 1)
      else (d, e)
  end.

(** The digits of [repr(x)] as an integer, and the position of the
    decimal point counted from the left of its first digit. *)
Definition repr_digits (x : float) : Z * Z :=
  match x with
  | S754_finite _ m e =>
      let num := Z.pos m * 2 ^ Z.max e 0 in
      let den := 2 ^ Z.max (- e) 0 in
      let '(d, e10) := shortest 16 1 (abs x) num den (decpt num den) in
      let '(d, e10) := strip_zeros 20 d e10 in
      (d, ndigits10 400 d + e10)
  | _ => (0, 1)
  end.

Definition digits_string (n : Z) : string :=
  DecimalString.NilZero.string_of_uint (N.to_uint (Z.to_N n)).

Definition zeros (n : Z) : string :=
  string_of_list_ascii (repeat "0"%char (Z.to_nat n)).

(** [repr(x)], the ['r'] format of CPython: scientific notation when
    the decimal point falls more than three places left of the digits
    or more than sixteen places into them, positional notation with at
    least one fractional digit otherwise. *)
Definition repr (x : float) : string :=
  (let sign (s : bool) : string := if s then "-" else EmptyString in
   match x with
   | S754_nan => "nan"
   | S754_infinity s => sign s ++ "inf"
   | S754_zero s => sign s ++ "0.0"
   | S754_finite s _ _ =>
       let '(d, k) := repr_digits x in
       let ds := digits_string d in
       let n := Z.of_nat (String.length ds) in
       sign s ++
       (if ((k <=? -4) || (16 <? k))%Z then
          let e := k - 1 in
          substring 0 1 ds
            ++ (if (1 <? n)%Z then "." ++ substring 1 (String.length ds - 1) ds
                else EmptyString)
            ++ "e" ++ (if (e <? 0)%Z then "-" else "+")
            ++ (if (Z.abs e <? 10)%Z then "0" else EmptyString)
            ++ digits_string (Z.abs e)
        else if (k <=? 0)%Z then "0." ++ zeros (- k) ++ ds
        else if (n <=? k)%Z then ds ++ zeros (k - n) ++ ".0"
        else substring 0 (Z.to_nat k) ds ++ "."
               ++ substring (Z.to_nat k) (String.length ds - Z.to_nat k) ds)
   end)%string.

(** [math.pi] *)
Definition pi : float := S754_finite false 7074237752028440 (-51).

End F64.

(* ================================================================== *)
(** * [struct.pack], big-endian formats                                *)
(* ================================================================== *)

Module Struct.

Definition byte_of_Z (z : Z) : byte :=
  match Byte.of_N (Z.to_N (z mod 256)) with
  | Some b => b
  | None => x00
  end.

(** The [n] low-order bytes of [z], most significant first (two's
    complement for a negative [z]). *)
Fixpoint big_endian (n : nat) (z : Z) : list byte :=
  match n with
  | O => []
  | S n' => big_endian n' (z / 256) ++ [byte_of_Z z]
  end.

(** An integer format of [n] bytes accepting [lo <= v <= hi];
    [struct.error] outside that range. *)
Definition pack_int (n : nat) (lo hi : Z) (v : Z) : result (list byte) :=
  if (lo <=? v) && (v <=? hi) then Ok (big_endian n v) else Raise StructError.

(** [struct.pack(">B", v)] *)
Definition pack_B : Z -> result (list byte) := pack_int 1 0 255.
(** [struct.pack(">H", v)] *)
Definition pack_H : Z -> result (list byte) := pack_int 2 0 65535.
(** [struct.pack(">i", v)] *)
Definition pack_i : Z -> result (list byte) :=
  pack_int 4 (- 2 ^ 31) (2 ^ 31 - 1).
(** [struct.pack(">d", x)] *)
Definition pack_d (x : F64.float) : list byte := big_endian 8 (F64.bits x).

(** A format that repeats one integer code, as [">12H"] or
    [">" + "i"*len(coords)]: the values are packed in order. *)
Definition pack_all (p : Z -> result (list byte)) (vs : list Z)
  : result (list byte) :=
  rbind (rmap p vs) (fun bs => Ok (List.concat bs)).

End Struct.

(* ================================================================== *)
(** * The binary layout encoder ([class GDSWriter])                    *)
(* ================================================================== *)

(** What [datetime.datetime.now()] returned. *)
Record datetime : Type := mk_datetime {
  year : Z; month : Z; day : Z; hour : Z; minute : Z; second : Z
}.

(** The ranges the [datetime] type guarantees. *)
Definition datetime_ok (d : datetime) : bool :=
  (1 <=? year d) && (year d <=? 9999) &&
  (1 <=? month d) && (month d <=? 12) &&
  (1 <=? day d) && (day d <=? 31) &&
  (0 <=? hour d) && (hour d <=? 23) &&
  (0 <=? minute d) && (minute d <=? 59) &&
  (0 <=? second d) && (second d <=? 59).

Module GDSWriter.

Local Open Scope py_scope.

(** The binary file object behind [self.file]. *)
Record File : Type := mk_File {
  closed : bool;
  contents : list byte
}.

(** An encoder instance. *)
Record t : Type := mk {
  filename : string;
  file : File;
  unit : F64.float;
  precision : F64.float
}.

(** [GDSWriter(filename)]: the file is opened for writing (created or
    truncated); an [open] that fails builds no instance. *)
Definition init (fname : string) : t :=
  {| filename := fname;
     file := {| closed := false; contents := [] |};
     unit := F64.lit 1 6;
     precision := F64.lit 1 9 |}.

(** [self.file.write(data)] *)
Definition file_write (data : list byte) : M t Datatypes.unit :=
  fun w =>
    if closed (file w) then (Raise ValueError, w)
    else (Ok tt,
          {| filename := filename w;
             file := {| closed := false;
                        contents := contents (file w) ++ data |};
             unit := unit w;
             precision := precision w |}).

(** [self.file.close()] *)
Definition file_close : M t Datatypes.unit :=
  fun w =>
    (Ok tt,
     {| filename := filename w;
        file := {| closed := true; contents := contents (file w) |};
        unit := unit w;
        precision := precision w |}).

Definition write_record (rectype datatype : Z) (data : list byte) : M t Datatypes.unit :=
  let length := 4 + Z.of_nat (List.length data) in
  hdr <- lift (Struct.pack_H length) ;;
  file_write hdr ;;;
  tag <- lift (rbind (Struct.pack_B rectype) (fun a =>
               rbind (Struct.pack_B datatype) (fun b => Ok (a ++ b)))) ;;
  file_write tag ;;;
  file_write data.

(** The twelve fields of a timestamp pair, as both [write_header] and
    [begin_structure] pack them. *)
Definition timestamp_pair (now : datetime) : list Z :=
  let stamp := [year now; month now; day now; hour now; minute now; second now] in
  stamp ++ stamp.

Definition libname : list byte := list_byte_of_string "RPC_INTERFACE" ++ [x00].

Definition write_header (now : datetime) : M t Datatypes.unit :=
  version <- lift (Struct.pack_H 600) ;;
  write_record 0x00 0x02 version ;;;
  time_data <- lift (Struct.pack_all Struct.pack_H (timestamp_pair now)) ;;
  write_record 0x01 0x02 time_data ;;;
  write_record 0x02 0x06 libname ;;;
  fun w =>
    let units_data := Struct.pack_d (precision w) ++ Struct.pack_d (unit w) in
    write_record 0x03 0x05 units_data w.

(** [(name + "\x00").encode("ascii")] *)
Definition encode_ascii (s : string) : result (list byte) :=
  if forallb (fun b => Byte.to_N b <? 128)%N (list_byte_of_string s)
  then Ok (list_byte_of_string s)
  else Raise UnicodeEncodeError.

Definition begin_structure (now : datetime) (name : string) : M t Datatypes.unit :=
  time_data <- lift (Struct.pack_all Struct.pack_H (timestamp_pair now)) ;;
  write_record 0x05 0x02 time_data ;;;
  name_data <- lift (encode_ascii (name ++ String (ascii_of_byte x00) EmptyString)%string) ;;
  write_record 0x06 0x06 name_data.

Definition end_structure : M t Datatypes.unit :=
  write_record 0x07 0x00 [].

(** The loop of [write_boundary]: every point contributes
    [int(x / self.unit)] and [int(y / self.unit)], in that order. *)
Definition scale (u : F64.float) (v : F64.float) : result Z :=
  rbind (F64.truediv v u) F64.to_int.

Fixpoint scale_points (u : F64.float) (points : list (F64.float * F64.float))
  : result (list Z) :=
  match points with
  | [] => Ok []
  | (x, y) :: rest =>
      rbind (scale u x) (fun cx =>
      rbind (scale u y) (fun cy =>
      rbind (scale_points u rest) (fun cs => Ok (cx :: cy :: cs))))
  end.

Definition write_boundary (layer datatype : Z)
    (points : list (F64.float * F64.float)) : M t Datatypes.unit :=
  write_record 0x08 0x00 [] ;;;
  layer_data <- lift (Struct.pack_H layer) ;;
  write_record 0x0D 0x02 layer_data ;;;
  datatype_data <- lift (Struct.pack_H datatype) ;;
  write_record 0x0E 0x02 datatype_data ;;;
  fun w =>
    (coords <- lift (scale_points (unit w) points) ;;
     xy_data <- lift (Struct.pack_all Struct.pack_i coords) ;;
     write_record 0x10 0x03 xy_data ;;;
     write_record 0x11 0x00 []) w.

Definition close : M t Datatypes.unit :=
  write_record 0x04 0x00 [] ;;;
  file_close.

(** One record of the stream as it lies in the file: a 2-byte length
    (header included), the record-kind and sub-kind tags, the payload. *)
Definition record_bytes (rectype datatype : Z) (data : list byte) : list byte :=
  Struct.big_endian 2 (4 + Z.of_nat (List.length data))
    ++ [Struct.byte_of_Z rectype; Struct.byte_of_Z datatype] ++ data.

(** The encoder [w] after [bytes] more were written to its file. *)
Definition appended (w : t) (bytes : list byte) : t :=
  {| filename := filename w;
     file := {| closed := false; contents := contents (file w) ++ bytes |};
     unit := unit w;
     precision := precision w |}.

End GDSWriter.

(* ================================================================== *)
(** * The arithmetic of the geometry builder                           *)
(* ================================================================== *)

(** The operations on numbers the geometry code performs.  Python
    integers that meet a float are converted first ([of_int]); [fdiv] and
    [fmod] are [/] and [%], which raise [ZeroDivisionError] on a zero
    divisor: every divisor of the geometry code is a non-zero literal or
    the segment length after the [length == 0] test. *)
Class Arith (F : Type) : Type := {
  fadd : F -> F -> F;
  fsub : F -> F -> F;
  fmul : F -> F -> F;
  fdiv : F -> F -> F;
  fneg : F -> F;
  fmod : F -> F -> F;
  (** [==] and [<] *)
  feqb : F -> F -> bool;
  fltb : F -> F -> bool;
  (** an [int] operand *)
  of_int : Z -> F;
  (** the float literal [m * 10^(-k)] *)
  lit : Z -> Z -> F;
  math_pi : F;
  math_cos : F -> F;
  math_sin : F -> F;
  math_hypot : F -> F -> F;
  np_sin : F -> F
}.

Declare Scope arith_scope.
Delimit Scope arith_scope with A.
Notation "x + y" := (fadd x y) : arith_scope.
Notation "x - y" := (fsub x y) : arith_scope.
Notation "x * y" := (fmul x y) : arith_scope.
Notation "x / y" := (fdiv x y) : arith_scope.
Notation "- x" := (fneg x) : arith_scope.
Notation "x == y" := (feqb x y) (at level 70, no associativity) : arith_scope.
Notation "x <? y" := (fltb x y) : arith_scope.
Notation "x % y" := (fmod x y) (at level 40, left associativity) : arith_scope.
Notation "# n" := (of_int n) (at level 5, n at level 0, format "# n") : arith_scope.

(** The transcendental functions come from the platform's C library and
    from numpy; the script fixes none of their bits. *)
Record Libm : Type := mk_Libm {
  libm_cos : F64.float -> F64.float;
  libm_sin : F64.float -> F64.float;
  libm_hypot : F64.float -> F64.float -> F64.float;
  numpy_sin : F64.float -> F64.float
}.

(** What every implementation of [math.hypot] guarantees and the control
    flow of [waveguide_path] relies on: the result compares equal to zero
    exactly when both arguments do. *)
Definition hypot_zero_law (L : Libm) : Prop :=
  forall dx dy,
    F64.eqb (libm_hypot L dx dy) F64.zero
    = F64.eqb dx F64.zero && F64.eqb dy F64.zero.

(** What the interpreter computes: binary64. *)
#[export] Instance F64_Arith (L : Libm) : Arith F64.float := {
  fadd := F64.add;
  fsub := F64.sub;
  fmul := F64.mul;
  fdiv := F64.div;
  fneg := F64.neg;
  fmod := F64.pymod;
  feqb := F64.eqb;
  fltb := F64.ltb;
  of_int := F64.of_int;
  lit := F64.lit;
  math_pi := F64.pi;
  math_cos := libm_cos L;
  math_sin := libm_sin L;
  math_hypot := libm_hypot L;
  np_sin := numpy_sin L
}.

(** The exact arithmetic the floats approximate: the real numbers. *)
#[export] Instance R_Arith : Arith R := {
  fadd := Rplus;
  fsub := Rminus;
  fmul := Rmult;
  fdiv := Rdiv;
  fneg := Ropp;
  fmod := fun x y => (x - IZR (Int_part (x / y)) * y)%R;
  feqb := fun x y => if Req_dec_T x y then true else false;
  fltb := fun x y => if Rlt_dec x y then true else false;
  of_int := IZR;
  lit := fun m k => (IZR m / IZR (10 ^ k))%R;
  math_pi := PI;
  math_cos := cos;
  math_sin := sin;
  math_hypot := fun x y => sqrt (x * x + y * y);
  np_sin := sin
}.

(** A runnable C library for the binary64 instance.  [hypot] is the
    correctly rounded Euclidean norm, never below the larger magnitude;
    sine and cosine are Taylor polynomials about zero. *)
Module RefLibm.

Import F64.

Definition fmax (x y : float) : float := if ltb x y then y else x.

Definition hypot (x y : float) : float :=
  match x, y with
  | S754_infinity _, _ | _, S754_infinity _ => S754_infinity false
  | S754_nan, _ | _, S754_nan => S754_nan
  | S754_zero _, _ => abs y
  | _, S754_zero _ => abs x
  | S754_finite _ mx ex, S754_finite _ my ey =>
      let e := Z.min ex ey in
      let sq := (Z.pos mx * 2 ^ (ex - e)) ^ 2 + (Z.pos my * 2 ^ (ey - e)) ^ 2 in
      let '(mz, ez, lz) := SFsqrt_core_binary prec emax sq (2 * e) in
      fmax (binary_round_aux prec emax false mz ez lz) (fmax (abs x) (abs y))
  end.

(** [1 - x2/(j(j+1)) * (1 - x2/((j+2)(j+3)) * (...))], [n] factors deep:
    the alternating series of cosine ([j = 1]) and of [sin x / x]
    ([j = 2]) in [x2 = x*x], by Horner's rule. *)
Fixpoint taylor (n : nat) (j : Z) (x2 : float) : float :=
  match n with
  | O => of_int 1
  | S n' =>
      sub (of_int 1)
          (mul (div x2 (of_int (j * (j + 1)))) (taylor n' (j + 2) x2))
  end.

Definition cos (x : float) : float := taylor 20 1 (mul x x).
Definition sin (x : float) : float := mul x (taylor 20 2 (mul x x)).

Definition libm : Libm :=
  {| libm_cos := cos; libm_sin := sin; libm_hypot := hypot; numpy_sin := sin |}.

End RefLibm.

(* ================================================================== *)
(** * Layout parameters and geometry helpers                          *)
(* ================================================================== *)

Section Geometry.

Context {F : Type} {ar : Arith F}.
Local Open Scope arith_scope.
Local Open Scope py_scope.

(** A point is a 2-tuple, a fill colour a 3-tuple. *)
Definition point : Type := F * F.
Definition color : Type := F * F * F.

(** An element of [all_polygons]: the point list and its colour. *)
Definition polygon : Type := list point * color.

(** The state of the geometry builder is the module-level list
    [all_polygons]. *)
Definition polygons : Type := list polygon.

Definition bus_x_start : F := lit 1000 1.
Definition core_x : F := lit 3000 1.
Definition core_y : F := lit 0 1.
Definition core_size : F := lit 1200 1.
Definition mod_size : F := lit 250 1.
Definition wg_width : F := lit 45 2.

(** [p == q] on two points whose coordinates are four separate float
    objects: float [==] on the abscissas and on the ordinates. *)
Definition point_eqb (p q : point) : bool :=
  (fst p == fst q) && (snd p == snd q).

(** A Python list holds objects, and CPython compares two tuples item by
    item, taking two items that are one object as equal without calling
    [==] on them.  Of the objects of a point list this is all that
    [add_polygon] depends on: whether the first and the last point hold
    one float object as their abscissa ([same_x]) and as their ordinate
    ([same_y]).  A shared object has one value; the sharing shows in the
    comparison only when that value is a NaN. *)
Record sharing : Type := mk_sharing { same_x : bool; same_y : bool }.

(** The coordinates of the first and of the last point are separate
    objects, as when every coordinate is the result of an arithmetic
    operation of its own. *)
Definition fresh : sharing := {| same_x := false; same_y := false |}.

(** The first and the last point are one tuple. *)
Definition same_point : sharing := {| same_x := true; same_y := true |}.

(** [p != q] on 2-tuples of floats. *)
Definition tuple_ne (s : sharing) (p q : point) : bool :=
  negb ((same_x s || (fst p == fst q)) && (same_y s || (snd p == snd q))).

(** [add_polygon(points, color)], for a list whose first and last point
    share their coordinate objects as [s] says.  In a list of one point
    [points[0]] and [points[-1]] are that one tuple.  The list passed in
    is mutated and then stored, so the caller's list and the registered
    one are the same object: the function returns that list as it is
    stored.  [points[0]] raises [IndexError] on an empty list. *)
Definition add_polygon (points : list point) (s : sharing) (c : color)
  : M polygons (list point) :=
  match points with
  | [] => raise IndexError
  | first :: rest =>
      let s := match rest with [] => same_point | _ :: _ => s end in
      let points' :=
        if tuple_ne s first (last points first)
        then points ++ [first]
        else points in
      fun all_polygons => (Ok points', all_polygons ++ [(points', c)])
  end.

(** The default of [add_polygon]'s [color], [(0.8, 0.8, 0.8)]. *)
Definition light_grey : color := (lit 8 1, lit 8 1, lit 8 1).

Definition hue2rgb (p q t : F) : F :=
  let t := t % #1 in
  if t <? #1 / #6 then p + (q - p) * #6 * t
  else if t <? #1 / #2 then q
  else if t <? #2 / #3 then p + (q - p) * (#2 / #3 - t) * #6
  else p.

Definition hsl_to_rgb (h_deg s l : F) : color :=
  let h := h_deg / lit 3600 1 in
  let s := s / lit 1000 1 in
  let l := l / lit 1000 1 in
  if s == #0 then (l, l, l)
  else
    let q := if l <? lit 5 1 then l * (#1 + s) else l + s - l * s in
    let p := #2 * l - q in
    let r := hue2rgb p q (h + #1 / #3) in
    let g := hue2rgb p q h in
    let b := hue2rgb p q (h - #1 / #3) in
    (r, g, b).

(** The test [length == 0] of [waveguide_path] on the segment from
    [(x0, y0)] to [(x1, y1)]. *)
Definition zero_length (x0 y0 x1 y1 : F) : bool :=
  math_hypot (x1 - x0) (y1 - y0) == #0.

(** [waveguide_path(x0, y0, x1, y1, width, color)]: [None] on the bare
    [return], otherwise the registered point list.  Each of the eight
    coordinates is the result of an addition or a subtraction of its
    own, so the corners share no object. *)
Definition waveguide_path (x0 y0 x1 y1 width : F) (c : color)
  : M polygons (option (list point)) :=
  let dx := x1 - x0 in
  let dy := y1 - y0 in
  let length := math_hypot dx dy in
  if length == #0 then ret None
  else
    let ux := dx / length in
    let uy := dy / length in
    let px := - uy in
    let py := ux in
    let half := width / #2 in
    let pts := [ (x0 + px * half, y0 + py * half);
                 (x1 + px * half, y1 + py * half);
                 (x1 - px * half, y1 - py * half);
                 (x0 - px * half, y0 - py * half) ] in
    pts <- add_polygon pts fresh c ;;
    ret (Some pts).

(** The default of [waveguide_path]'s [color], [(0.7, 0.7, 0.7)]. *)
Definition wg_grey : color := (lit 7 1, lit 7 1, lit 7 1).

(** The angle of vertex [i] of an [n]-gon, [2*math.pi*i/n]. *)
Definition vertex_angle (n i : Z) : F := #2 * math_pi * #i / #n.

(** One comprehension of [ring_resonator_placeholder]: the points at
    signed radius [rho] about [(xc, yc)], for [i] in [range(n+1)]. *)
Definition circle_points (xc yc rho : F) (n : Z) : list point :=
  map (fun i => (xc + rho * math_cos (vertex_angle n i),
                 yc + rho * math_sin (vertex_angle n i)))
      (range (n + 1)).

(** The white of the inner boundary, [(1, 1, 1)]. *)
Definition white : color := (#1, #1, #1).

(** [ring_resonator_placeholder(xc, yc, radius, width, color)].  Every
    coordinate of the two comprehensions is the result of an addition
    of its own. *)
Definition ring_resonator_placeholder (xc yc radius width : F) (c : color)
  : M polygons (list point) :=
  let n := 64%Z in
  let outer := circle_points xc yc (radius + width / #2) n in
  let inner := circle_points xc yc (radius - width / #2) n in
  outer <- add_polygon outer fresh c ;;
  _ <- add_polygon inner fresh white ;;
  ret outer.

(** The corners of a placeholder square: the first one, [(x, y)], and
    the last one, [(x, y+size)], hold the argument [x] itself as their
    abscissa; the ordinate [y+size] is a new object. *)
Definition square_sharing : sharing := {| same_x := true; same_y := false |}.

Definition iq_mod_placeholder (x y size : F) (c : color)
  : M polygons (list point) :=
  let pts := [ (x, y); (x + size, y); (x + size, y + size); (x, y + size) ] in
  add_polygon pts square_sharing c.

Definition detector_placeholder (x y size : F) (c : color)
  : M polygons (list point) :=
  let pts := [ (x, y); (x + size, y); (x + size, y + size); (x, y + size) ] in
  add_polygon pts square_sharing c.

(** ** The 8-channel layout *)

(** [y = i*15.0 - 52.5] and [hue = i*45.0] of channel [i]. *)
Definition channel_y (i : Z) : F := #i * lit 150 1 - lit 525 1.
Definition hue (i : Z) : F := #i * lit 450 1.

(** The channel's tint, [rgb = hsl_to_rgb(hue)] with [s=70, l=70]. *)
Definition channel_rgb (i : Z) : color := hsl_to_rgb (hue i) #70 #70.

(** The body of [for i in range(8)]. *)
Definition channel (i : Z) : M polygons unit :=
  let y := channel_y i in
  let rgb := channel_rgb i in
  _ <- ring_resonator_placeholder
         (bus_x_start + #50 + #(i * 20)) y (lit 100 1) (lit 45 2) rgb ;;
  _ <- waveguide_path (bus_x_start + #20) y (bus_x_start + #80) y
         wg_width wg_grey ;;
  _ <- waveguide_path (bus_x_start + #80) y (bus_x_start + #80) (y + #10)
         wg_width rgb ;;
  _ <- waveguide_path (bus_x_start + #80) (y + #10) (bus_x_start - #20) y
         wg_width rgb ;;
  _ <- iq_mod_placeholder (bus_x_start - #50) (y - mod_size / #2)
         (lit 250 1) rgb ;;
  _ <- detector_placeholder (core_x + core_size + #50) (y - mod_size / #2)
         (lit 250 1) rgb ;;
  ret tt.

(** The colour of the central bus, [(0.6, 0.6, 0.6)]. *)
Definition bus_grey : color := (lit 6 1, lit 6 1, lit 6 1).

(** The central bus, [waveguide_path(0,0,core_x+core_size+100,0,...)]. *)
Definition central_bus : M polygons (option (list point)) :=
  waveguide_path #0 #0 (core_x + core_size + #100) #0 wg_width bus_grey.

(** Geometry generation as the script runs it. *)
Definition generate_layout : M polygons unit :=
  for_each channel (range 8) ;;;
  _ <- central_bus ;;
  ret tt.

(** [all_polygons] when the self-test looks at it: the list starts
    empty and only geometry generation touches it. *)
Definition all_polygons : polygons := snd (generate_layout []).

(** ** The fidelity ramp *)

(** [np.linspace(start, stop, num)] for [num > 1]: [num] samples
    [k*step + start], the last one set to [stop]. *)
Definition linspace (start stop : F) (num : Z) : list F :=
  let step := (stop - start) / #(num - 1) in
  map (fun k => if (k =? num - 1)%Z then stop else #k * step + start)
      (range num).

Definition ramp_t : list F := linspace #0 #8 500.

(** One sample of [phase = 0.98 + (0.995-0.98)*np.sin(2*math.pi*t/8)]. *)
Definition phase_at (t : F) : F :=
  lit 98 2 + (lit 995 3 - lit 98 2) * np_sin (#2 * math_pi * t / #8).

Definition phase : list F := map phase_at ramp_t.

End Geometry.

(* ================================================================== *)
(** * The metadata document and its JSON text                          *)
(* ================================================================== *)

(** Python's [json] module on the values the script serialises.  A [dict]
    is kept as the list of its items in insertion order, which is the
    order [json.dump] writes them in; strings hold code points below 256. *)
Module Json.

#[warnings="-register-all"]
Inductive value : Type :=
| VNone
| VBool (b : bool)
| VInt (z : Z)
| VFloat (x : F64.float)
| VStr (s : string)
| VList (items : list value)
| VDict (items : list (string * value)).

Local Open Scope string_scope.
Local Open Scope char_scope.

Definition quote : ascii := "034".
Definition backslash : ascii := "092".
Definition newline : ascii := "010".

(** ** [json.dumps(obj, indent=n)] *)

Definition hex_digit (n : N) : ascii :=
  ascii_of_N (if (n <? 10)%N then 48 + n else 87 + n).

(** One character inside a string literal, with [ensure_ascii]. *)
Definition escape_char (c : ascii) : string :=
  let n := N_of_ascii c in
  if Ascii.eqb c quote then String backslash (String quote EmptyString)
  else if Ascii.eqb c backslash then String backslash (String backslash EmptyString)
  else if (n =? 10)%N then String backslash "n"
  else if (n =? 13)%N then String backslash "r"
  else if (n =? 9)%N then String backslash "t"
  else if (n =? 8)%N then String backslash "b"
  else if (n =? 12)%N then String backslash "f"
  else if (32 <=? n)%N && (n <=? 126)%N then String c EmptyString
  else String backslash
         (String "u" (String "0" (String "0"
            (String (hex_digit (n / 16)) (String (hex_digit (n mod 16)) EmptyString))))).

Fixpoint escape (s : string) : string :=
  match s with
  | EmptyString => EmptyString
  | String c s' => (escape_char c ++ escape s')%string
  end.

Definition encode_string (s : string) : string :=
  (String quote (escape s) ++ String quote EmptyString)%string.

(** [int.__repr__] *)
Definition encode_int (z : Z) : string :=
  DecimalString.NilZero.string_of_int (Z.to_int z).

(** [float.__repr__], with the spellings [json] gives the non-finite
    values. *)
Definition encode_float (x : F64.float) : string :=
  match x with
  | S754_nan => "NaN"
  | S754_infinity false => "Infinity"
  | S754_infinity true => "-Infinity"
  | _ => F64.repr x
  end.

(** A line break followed by the indentation of nesting depth [level]. *)
Definition newline_indent (indent level : nat) : string :=
  String newline (string_of_list_ascii (repeat " " (indent * level))).

Fixpoint join (sep : string) (parts : list string) : string :=
  match parts with
  | [] => EmptyString
  | [p] => p
  | p :: rest => (p ++ sep ++ join sep rest)%string
  end.

Fixpoint encode (indent level : nat) (v : value) : string :=
  match v with
  | VNone => "null"
  | VBool true => "true"
  | VBool false => "false"
  | VInt z => encode_int z
  | VFloat x => encode_float x
  | VStr s => encode_string s
  | VList [] => "[]"
  | VList items =>
      ("[" ++ newline_indent indent (S level)
         ++ join ("," ++ newline_indent indent (S level))
                 (map (encode indent (S level)) items)
         ++ newline_indent indent level ++ "]")%string
  | VDict [] => "{}"
  | VDict items =>
      ("{" ++ newline_indent indent (S level)
         ++ join ("," ++ newline_indent indent (S level))
                 (map (fun kv => encode_string (fst kv) ++ ": "
                                   ++ encode indent (S level) (snd kv))
                      items)
         ++ newline_indent indent level ++ "}")%string
  end.

Definition dumps (indent : nat) (v : value) : string := encode indent 0 v.

(** ** [json.loads(text)] *)

Definition is_ws (c : ascii) : bool :=
  let n := N_of_ascii c in
  (n =? 32)%N || (n =? 9)%N || (n =? 10)%N || (n =? 13)%N.

Fixpoint skip_ws (s : string) : string :=
  match s with
  | String c s' => if is_ws c then skip_ws s' else s
  | EmptyString => s
  end.

Definition digit_value (c : ascii) : option Z :=
  let n := Z.of_N (N_of_ascii c) in
  if (48 <=? n)%Z && (n <=? 57)%Z then Some (n - 48)%Z else None.

Definition hex_value (c : ascii) : option N :=
  let n := N_of_ascii c in
  if (48 <=? n)%N && (n <=? 57)%N then Some (n - 48)%N
  else if (97 <=? n)%N && (n <=? 102)%N then Some (n - 87)%N
  else if (65 <=? n)%N && (n <=? 70)%N then Some (n - 55)%N
  else None.

(** The longest run of decimal digits at the head of [s]: its value,
    its length, and the rest of the text. *)
Fixpoint scan_digits (s : string) (acc : Z) (len : Z) : Z * Z * string :=
  match s with
  | String c s' =>
      match digit_value c with
      | Some d => scan_digits s' (10 * acc + d)%Z (len + 1)%Z
      | None => (acc, len, s)
      end
  | EmptyString => (acc, len, s)
  end.

(** The body of a string literal, after the opening quote. *)
Fixpoint scan_string (s : string) (acc : string) : result (string * string) :=
  match s with
  | EmptyString => Raise ValueError
  | String c s' =>
      if Ascii.eqb c quote then Ok (acc, s')
      else if Ascii.eqb c backslash then
        match s' with
        | String e s'' =>
            let plain (ch : ascii) :=
              scan_string s'' (acc ++ String ch EmptyString) in
            if Ascii.eqb e quote then plain quote
            else if Ascii.eqb e backslash then plain backslash
            else if Ascii.eqb e "/" then plain "/"
            else if Ascii.eqb e "b" then plain "008"
            else if Ascii.eqb e "f" then plain "012"
            else if Ascii.eqb e "n" then plain "010"
            else if Ascii.eqb e "r" then plain "013"
            else if Ascii.eqb e "t" then plain "009"
            else if Ascii.eqb e "u" then
              match s'' with
              | String h1 (String h2 (String h3 (String h4 s3))) =>
                  match hex_value h1, hex_value h2, hex_value h3, hex_value h4 with
                  | Some 0%N, Some 0%N, Some a, Some b =>
                      scan_string s3 (acc ++ String (ascii_of_N (16 * a + b)) EmptyString)
                  | _, _, _, _ => Raise ValueError
                  end
              | _ => Raise ValueError
              end
            else Raise ValueError
        | EmptyString => Raise ValueError
        end
      else if (N_of_ascii c <? 32)%N then Raise ValueError
      else scan_string s' (acc ++ String c EmptyString)
  end.

(** A number: an optional minus sign, an integer part (a lone [0] or
    digits that start with a non-zero one), an optional fraction (a dot
    and digits) and an optional exponent ([e] or [E], an optional sign,
    digits).  It is an [int] when it has neither fraction nor exponent,
    and else the float that [float()] reads from its text.  [None] when
    no number starts here. *)
Definition scan_number (s : string) : option (value * string) :=
  let '(neg, s1) :=
    match s with
    | String "-" r => (true, r)
    | _ => (false, s)
    end in
  let int_part :=
    match s1 with
    | String "0" r => Some (0%Z, r)
    | _ => let '(v, len, r) := scan_digits s1 0 0 in
           if (0 <? len)%Z then Some (v, r) else None
    end in
  match int_part with
  | None => None
  | Some (ip, s2) =>
      let '(frac, flen, s3) :=
        match s2 with
        | String "." r =>
            let '(v, len, r') := scan_digits r 0 0 in
            if (0 <? len)%Z then (Some v, len, r') else (None, 0%Z, s2)
        | _ => (None, 0%Z, s2)
        end in
      let '(expo, s4) :=
        match s3 with
        | String c r =>
            if Ascii.eqb c "e" || Ascii.eqb c "E" then
              let '(eneg, r1) :=
                match r with
                | String "-" r' => (true, r')
                | String "+" r' => (false, r')
                | _ => (false, r)
                end in
              let '(v, len, r2) := scan_digits r1 0 0 in
              if (0 <? len)%Z then (Some (if eneg then - v else v)%Z, r2)
              else (None, s3)
            else (None, s3)
        | EmptyString => (None, s3)
        end in
      match frac, expo with
      | None, None => Some (VInt (if neg then - ip else ip)%Z, s4)
      | _, _ =>
          let f := match frac with Some f => f | None => 0%Z end in
          let e := match expo with Some e => e | None => 0%Z end in
          Some (VFloat (F64.of_decimal neg (ip * 10 ^ flen + f) (e - flen))%Z, s4)
      end
  end.

(** [s] without the prefix [p], when it starts with it. *)
Fixpoint strip_prefix (p s : string) : option string :=
  match p, s with
  | EmptyString, _ => Some s
  | String a p', String b s' => if Ascii.eqb a b then strip_prefix p' s' else None
  | String _ _, EmptyString => None
  end.

(** [d[key] = v] on a dict: a repeated key keeps its place and takes
    the later value. *)
Fixpoint dict_set (d : list (string * value)) (key : string) (v : value)
  : list (string * value) :=
  match d with
  | [] => [(key, v)]
  | (k, old) :: d' =>
      if String.eqb k key then (k, v) :: d' else (k, old) :: dict_set d' key v
  end.

(** The decoder's [scan_once]; every call consumes input, so the
    length of the text bounds the recursion ([fuel]). *)
Fixpoint scan_once (fuel : nat) (s : string) : result (value * string) :=
  match fuel with
  | O => Raise ValueError
  | S fuel' =>
      match s with
      | String c r =>
          if Ascii.eqb c quote then
            rbind (scan_string r EmptyString) (fun '(str, r') => Ok (VStr str, r'))
          else if Ascii.eqb c "{" then
            match skip_ws r with
            | String "}" r' => Ok (VDict [], r')
            | r' => scan_members fuel' r' []
            end
          else if Ascii.eqb c "[" then
            match skip_ws r with
            | String "]" r' => Ok (VList [], r')
            | r' => scan_elements fuel' r' []
            end
          else
            match strip_prefix "null" s, strip_prefix "true" s, strip_prefix "false" s with
            | Some r', _, _ => Ok (VNone, r')
            | _, Some r', _ => Ok (VBool true, r')
            | _, _, Some r' => Ok (VBool false, r')
            | None, None, None =>
                match scan_number s with
                | Some res => Ok res
                | None =>
                    match strip_prefix "NaN" s, strip_prefix "Infinity" s,
                          strip_prefix "-Infinity" s with
                    | Some r', _, _ => Ok (VFloat S754_nan, r')
                    | _, Some r', _ => Ok (VFloat (S754_infinity false), r')
                    | _, _, Some r' => Ok (VFloat (S754_infinity true), r')
                    | None, None, None => Raise ValueError
                    end
                end
            end
      | EmptyString => Raise ValueError
      end
  end

(** The items of an object, from the opening quote of a key on. *)
with scan_members (fuel : nat) (s : string) (acc : list (string * value))
  : result (value * string) :=
  match fuel with
  | O => Raise ValueError
  | S fuel' =>
      match s with
      | String c r =>
          if Ascii.eqb c quote then
            rbind (scan_string r EmptyString) (fun '(key, r1) =>
            match skip_ws r1 with
            | String ":" r2 =>
                rbind (scan_once fuel' (skip_ws r2)) (fun '(v, r3) =>
                let acc := dict_set acc key v in
                match skip_ws r3 with
                | String "}" r4 => Ok (VDict acc, r4)
                | String "," r4 => scan_members fuel' (skip_ws r4) acc
                | _ => Raise ValueError
                end)
            | _ => Raise ValueError
            end)
          else Raise ValueError
      | EmptyString => Raise ValueError
      end
  end

(** The elements of an array, from the first character of one on. *)
with scan_elements (fuel : nat) (s : string) (acc : list value)
  : result (value * string) :=
  match fuel with
  | O => Raise ValueError
  | S fuel' =>
      rbind (scan_once fuel' s) (fun '(v, r1) =>
      match skip_ws r1 with
      | String "]" r2 => Ok (VList (acc ++ [v]), r2)
      | String "," r2 => scan_elements fuel' (skip_ws r2) (acc ++ [v])
      | _ => Raise ValueError
      end)
  end.

(** [json.loads]: one value, white space around it, nothing else;
    [JSONDecodeError] is a [ValueError]. *)
Definition loads (text : string) : result value :=
  rbind (scan_once (S (String.length text)) (skip_ws text)) (fun '(v, rest) =>
  match skip_ws rest with
  | EmptyString => Ok v
  | _ => Raise ValueError
  end).

End Json.

Section Metadata.

Import Json.
Local Open Scope string_scope.

(** The literal [metadata] mapping. *)
Definition metadata : Json.value :=
  VDict [ ("num_channels", VInt 8);
          ("phase_fidelity_range", VList [VFloat (F64.lit 98 2); VFloat (F64.lit 995 3)]);
          ("min_energy_recovery", VFloat (F64.lit 95 2));
          ("wdm_crosstalk_bound_dB", VFloat (F64.neg (F64.lit 250 1)));
          ("wdm_enabled", VBool true);
          ("ring_radius_um", VFloat (F64.lit 100 1));
          ("notes", VStr "Generated from Lean4 invariants") ].

(** The text [json.dump(metadata, f, indent=2)] writes to
    [generated/rpc_interface_metadata.json]. *)
Definition metadata_json : string := Json.dumps 2 metadata.

End Metadata.


(* ================================================================== *)
(** * The self-test                                                    *)
(* ================================================================== *)

Section SelfTest.

Context {F : Type} {ar : Arith F}.
Local Open Scope string_scope.

Definition OUTDIR : string := "generated".

Definition expected_poly : Z := 8 * 4.

(** [str(n)] for an [int]. *)
Definition str (n : Z) : string :=
  DecimalString.NilZero.string_of_int (Z.to_int n).

(** The last three statements of the script on a polygon list: the
    [assert] raises [AssertionError] with its message, and otherwise the
    two lines are printed. *)
Definition self_test (all : @polygons F) : result (list string) :=
  let n := Z.of_nat (List.length all) in
  if (expected_poly <=? n)%Z then
    Ok [ "Self-test passed: " ++ str n ++ " polygons generated";
         "All files generated in " ++ OUTDIR ++ "/" ]
  else
    Raise (AssertionError ("Low polygon count: " ++ str n ++ " < " ++ str expected_poly)).

End SelfTest.

(* ================================================================== *)
(** * Vocabulary of the properties                                     *)
(* ================================================================== *)

Section Vocabulary.

Context {F : Type} {ar : Arith F}.

(** A point list is closed when it has a first point and that point
    equals the last one: it is the last one, or [==] holds of the two. *)
Definition closed_points (pts : list (@point F)) : Prop :=
  match pts with
  | [] => False
  | first :: _ =>
      last pts first = first \/ point_eqb first (last pts first) = true
  end.

Definition closed_polygon (p : @polygon F) : Prop := closed_points (fst p).

(** The list [add_polygon] stores for a point list of two points or
    more without shared coordinates. *)
Definition closed_up (first : @point F) (rest : list point) : list point :=
  if negb (point_eqb first (last (first :: rest) first))
  then (first :: rest) ++ [first]
  else first :: rest.

(** Two coordinates that a tuple comparison takes as equal: they have
    one value (as one object has), or [==] holds of them. *)
Definition item_equal (a b : F) : Prop := a = b \/ feqb a b = true.

(** The first point equals the last one as tuples compare: abscissa
    with abscissa and ordinate with ordinate.  A closed point list is
    closed in this sense; the converse fails when one coordinate is a
    shared NaN and the other two differ as zeros of opposite sign do. *)
Definition tuple_closed (pts : list (@point F)) : Prop :=
  match pts with
  | [] => False
  | first :: _ =>
      item_equal (fst first) (fst (last pts first))
      /\ item_equal (snd first) (snd (last pts first))
  end.

Definition tuple_closed_polygon (p : @polygon F) : Prop := tuple_closed (fst p).

(** What a sharing says is so: a coordinate that the first and the last
    point share has one value. *)
Definition sharing_sound (s : sharing) (pts : list (@point F)) : Prop :=
  match pts with
  | [] => True
  | first :: _ =>
      (same_x s = true -> fst first = fst (last pts first))
      /\ (same_y s = true -> snd first = snd (last pts first))
  end.

(** The list [add_polygon] stores for the non-empty point list
    [first :: rest] with the sharing [s]. *)
Definition stored (s : sharing) (first : @point F) (rest : list point) : list point :=
  let s := match rest with [] => same_point | _ :: _ => s end in
  if tuple_ne s first (last (first :: rest) first)
  then (first :: rest) ++ [first]
  else first :: rest.

(** Which coordinates the first and the last point of the stored list
    share: both when [add_polygon] appended the first point, which is
    then the last one too, and those of the argument otherwise. *)
Definition stored_sharing (s : sharing) (first : @point F) (rest : list point) : sharing :=
  let s := match rest with [] => same_point | _ :: _ => s end in
  if tuple_ne s first (last (first :: rest) first) then same_point else s.

(** The fill colours of a list of polygons, in order. *)
Definition colours (l : list (@polygon F)) : list (@color F) := map snd l.

(** [emits c P]: from every state of [all_polygons] the computation [c]
    returns normally, keeps what was registered and appends a list of
    polygons that satisfies [P]. *)
Definition emits {A : Type} (c : M (@polygons F) A)
      (P : list (@polygon F) -> Prop) : Prop :=
  forall st, exists a added, c st = (Ok a, st ++ added) /\ P added.

(** One closed polygon of colour [c]. *)
Definition one_closed (c : @color F) (l : list (@polygon F)) : Prop :=
  exists pts, l = [(pts, c)] /\ closed_points pts.

(** Vertex [i] of a comprehension of the ring builder, as the code
    computes it: the centre plus the signed radius [rho] times the
    cosine and the sine of [2*pi*i/64]. *)
Definition ring_vertex (xc yc rho : F) (i : Z) : @point F :=
  (fadd xc (fmul rho (math_cos (vertex_angle 64 i))),
   fadd yc (fmul rho (math_sin (vertex_angle 64 i)))).

(** A boundary of the ring as it is registered: the 65 vertices
    [vertices], as they are when vertex 64 compares equal to vertex 0,
    and followed by a copy of vertex 0 when it does not. *)
Definition ring_boundary (xc yc rho : F) (vertices registered : list (@point F))
  : Prop :=
  (point_eqb (ring_vertex xc yc rho 0) (ring_vertex xc yc rho 64) = true
   /\ registered = vertices)
  \/ (point_eqb (ring_vertex xc yc rho 0) (ring_vertex xc yc rho 64) = false
      /\ registered = vertices ++ [ring_vertex xc yc rho 0]).

(** One polygon of colour [c], closed as tuples compare. *)
Definition one_registered (c : @color F) (l : list (@polygon F)) : Prop :=
  exists pts, l = [(pts, c)] /\ tuple_closed pts.

(** A ring: the outer boundary in colour [c], then the inner boundary in
    white, both closed. *)
Definition ring_pair (c : @color F) (l : list (@polygon F)) : Prop :=
  exists outer inner,
    l = [(outer, c); (inner, white)] /\ closed_points outer /\ closed_points inner.

(** What one channel appends whatever the strips do: closed polygons,
    at least the two ring boundaries and the two squares. *)
Definition channel_bounds (l : list (@polygon F)) : Prop :=
  Forall tuple_closed_polygon l /\ (4 <= List.length l <= 7)%nat.

(** The colours of the seven polygons of channel [i], in the order the
    loop body registers them: ring outer, ring inner, the three strips,
    the modulator, the detector. *)
Definition channel_colours (i : Z) : list (@color F) :=
  [ channel_rgb i; white; wg_grey; channel_rgb i; channel_rgb i;
    channel_rgb i; channel_rgb i ].

(** One call of a geometry helper, with any arguments, takes the shared
    list from [st] to [st'].  A direct call of [add_polygon] comes with
    the sharing of its list. *)
Inductive helper_call (st st' : @polygons F) : Prop :=
  | call_add_polygon (pts : list point) (s : sharing) (c : color) r :
      sharing_sound s pts ->
      add_polygon pts s c st = (r, st') -> helper_call st st'
  | call_waveguide_path (x0 y0 x1 y1 width : F) (c : color) r :
      waveguide_path x0 y0 x1 y1 width c st = (r, st') -> helper_call st st'
  | call_ring_resonator_placeholder (xc yc radius width : F) (c : color) r :
      ring_resonator_placeholder xc yc radius width c st = (r, st') -> helper_call st st'
  | call_iq_mod_placeholder (x y size : F) (c : color) r :
      iq_mod_placeholder x y size c st = (r, st') -> helper_call st st'
  | call_detector_placeholder (x y size : F) (c : color) r :
      detector_placeholder x y size c st = (r, st') -> helper_call st st'.

End Vocabulary.

(** The point [p] lies on the circle of radius [rho] about [(xc, yc)]. *)
Definition on_circle (xc yc rho : R) (p : R * R) : Prop :=
  ((fst p - xc) * (fst p - xc) + (snd p - yc) * (snd p - yc) = rho * rho)%R.

(** The distance of [p] from [(xc, yc)]. *)
Definition distance (xc yc : R) (p : R * R) : R :=
  sqrt ((fst p - xc) * (fst p - xc) + (snd p - yc) * (snd p - yc)).

(** The four records [write_header] emits, for a units record that holds
    the doubles [first] and [second] in this order. *)
Definition header_records (now : datetime) (first second : F64.float) : list byte :=
  GDSWriter.record_bytes 0x00 0x02 (Struct.big_endian 2 600)
    ++ GDSWriter.record_bytes 0x01 0x02
         (List.concat (map (Struct.big_endian 2) (GDSWriter.timestamp_pair now)))
    ++ GDSWriter.record_bytes 0x02 0x06 GDSWriter.libname
    ++ GDSWriter.record_bytes 0x03 0x05 (Struct.pack_d first ++ Struct.pack_d second).

(** The five records [write_boundary] emits for the database-unit
    coordinates [coords]. *)
Definition boundary_records (layer datatype : Z) (coords : list Z) : list byte :=
  GDSWriter.record_bytes 0x08 0x00 []
    ++ GDSWriter.record_bytes 0x0D 0x02 (Struct.big_endian 2 layer)
    ++ GDSWriter.record_bytes 0x0E 0x02 (Struct.big_endian 2 datatype)
    ++ GDSWriter.record_bytes 0x10 0x03 (List.concat (map (Struct.big_endian 4) coords))
    ++ GDSWriter.record_bytes 0x11 0x00 [].

Definition int32 (v : Z) : Prop := - 2 ^ 31 <= v <= 2 ^ 31 - 1.
Definition uint16 (v : Z) : Prop := 0 <= v <= 65535.

(* ================================================================== *)
(** * Reading a record stream back                                     *)
(* ================================================================== *)

(** The vocabulary of the encoder's framing properties: what a reader of
    the file sees.  Nothing in the script reads the stream; these
    functions are the inverse of [struct.pack] and of the record layout
    of [write_record]. *)
Module Reader.

(** A byte as an unsigned integer. *)
Definition byte_value (b : byte) : Z := Z.of_N (Byte.to_N b).

(** [struct.unpack] of an unsigned big-endian integer. *)
Definition unsigned (bs : list byte) : Z :=
  fold_left (fun acc b => acc * 256 + byte_value b) bs 0.

(** [struct.unpack(">i", bs)[0]] for four bytes: two's complement. *)
Definition signed32 (bs : list byte) : Z :=
  let v := unsigned bs in
  if v <? 2 ^ 31 then v else v - 2 ^ 32.

(** A record as a reader sees it. *)
Record LayoutRecord : Type := mk_record {
  rectype : Z;
  datatype : Z;
  payload : list byte
}.

(** The bytes of a record in the file. *)
Definition encode (r : LayoutRecord) : list byte :=
  GDSWriter.record_bytes (rectype r) (datatype r) (payload r).

(** A record [write_record] accepts: tags that are bytes and a total
    length that fits the 2-byte prefix. *)
Definition well_formed (r : LayoutRecord) : Prop :=
  0 <= rectype r <= 255 /\ 0 <= datatype r <= 255
  /\ 4 + Z.of_nat (List.length (payload r)) <= 65535.

(** Split a byte stream into records by their length prefixes; [None]
    when a prefix is below 4 or runs past the end of the stream.  Every
    record takes at least four bytes, so the length of the stream bounds
    the recursion ([fuel]). *)
Fixpoint read_records (fuel : nat) (bs : list byte) : option (list LayoutRecord) :=
  match fuel with
  | O => None
  | S fuel' =>
      match bs with
      | [] => Some []
      | l1 :: l2 :: k :: d :: rest =>
          let len := unsigned [l1; l2] in
          let n := Z.to_nat (len - 4) in
          if (len <? 4) || (List.length rest <? n)%nat then None
          else
            option_map
              (cons {| rectype := byte_value k; datatype := byte_value d;
                       payload := firstn n rest |})
              (read_records fuel' (skipn n rest))
      | _ => None
      end
  end.

Definition read_stream (bs : list byte) : option (list LayoutRecord) :=
  read_records (S (List.length bs)) bs.

(** Cut a payload into groups of [n] bytes. *)
Fixpoint chunks (fuel : nat) (n : nat) (bs : list byte) : list (list byte) :=
  match fuel with
  | O => []
  | S fuel' =>
      match bs with
      | [] => []
      | _ => firstn n bs :: chunks fuel' n (skipn n bs)
      end
  end.

(** The coordinates of an XY payload, [struct.unpack(">" + "i"*k, bs)]. *)
Definition read_coords (bs : list byte) : list Z :=
  map signed32 (chunks (List.length bs) 4 bs).

(** One boundary element read back: the layer, the datatype and the
    coordinate list, when the five records carry the expected kinds. *)
Definition read_boundary (rs : list LayoutRecord) : option (Z * Z * list Z) :=
  match rs with
  | [b; l; d; xy; e] =>
      if (rectype b =? 0x08) && (rectype l =? 0x0D) && (rectype d =? 0x0E)
         && (rectype xy =? 0x10) && (rectype e =? 0x11)
      then Some (unsigned (payload l), unsigned (payload d), read_coords (payload xy))
      else None
  | _ => None
  end.

End Reader.

(** The records of one boundary element for the coordinates [coords]. *)
Definition boundary_element (layer datatype : Z) (coords : list Z)
  : list Reader.LayoutRecord :=
  [ Reader.mk_record 0x08 0x00 [];
    Reader.mk_record 0x0D 0x02 (Struct.big_endian 2 layer);
    Reader.mk_record 0x0E 0x02 (Struct.big_endian 2 datatype);
    Reader.mk_record 0x10 0x03 (List.concat (map (Struct.big_endian 4) coords));
    Reader.mk_record 0x11 0x00 [] ].

(** The three records [write_boundary] has written when it reaches the
    coordinate loop: the boundary marker, the layer, the datatype. *)
Definition boundary_opening (layer datatype : Z) : list byte :=
  GDSWriter.record_bytes 0x08 0x00 []
    ++ GDSWriter.record_bytes 0x0D 0x02 (Struct.big_endian 2 layer)
    ++ GDSWriter.record_bytes 0x0E 0x02 (Struct.big_endian 2 datatype).

(** The two records [begin_structure] writes for a name whose bytes are
    [name_bytes]. *)
Definition structure_opening (now : datetime) (name_bytes : list byte) : list byte :=
  GDSWriter.record_bytes 0x05 0x02
      (List.concat (map (Struct.big_endian 2) (GDSWriter.timestamp_pair now)))
    ++ GDSWriter.record_bytes 0x06 0x06 (name_bytes ++ [x00]).

Definition int32b (v : Z) : bool := (- 2 ^ 31 <=? v) && (v <=? 2 ^ 31 - 1).

(** Whether [write_boundary] can write the coordinate block of [points]
    at unit size [u]: every quotient converts to an integer, every
    integer fits [">i"], and the block fits one record. *)
Definition writable (u : F64.float) (points : list (F64.float * F64.float)) : bool :=
  match GDSWriter.scale_points u points with
  | Ok coords =>
      forallb int32b coords && (4 + 4 * Z.of_nat (List.length coords) <=? 65535)
  | Raise _ => false
  end.

(** The exception of a coordinate block that cannot be written: the one
    the scaling loop raises, or [struct.error] from packing or framing. *)
Definition boundary_failure (u : F64.float) (points : list (F64.float * F64.float))
  : exn :=
  match GDSWriter.scale_points u points with
  | Raise e => e
  | Ok _ => StructError
  end.

(** The coordinates [write_boundary] computes for [points]. *)
Definition scaled (u : F64.float) (points : list (F64.float * F64.float)) : list Z :=
  match GDSWriter.scale_points u points with
  | Ok coords => coords
  | Raise _ => []
  end.

(** The records of a library with one structure, as a reader sees them. *)
Definition library_records (now : datetime) (name : string) (layer datatype : Z)
    (u p : F64.float) (polys : list (list (F64.float * F64.float)))
  : list Reader.LayoutRecord :=
  let stamps := List.concat (map (Struct.big_endian 2) (GDSWriter.timestamp_pair now)) in
  [ Reader.mk_record 0x00 0x02 (Struct.big_endian 2 600);
    Reader.mk_record 0x01 0x02 stamps;
    Reader.mk_record 0x02 0x06 GDSWriter.libname;
    Reader.mk_record 0x03 0x05 (Struct.pack_d p ++ Struct.pack_d u);
    Reader.mk_record 0x05 0x02 stamps;
    Reader.mk_record 0x06 0x06 (list_byte_of_string name ++ [x00]) ]
    ++ List.concat (map (fun points => boundary_element layer datatype (scaled u points))
                        polys)
    ++ [ Reader.mk_record 0x07 0x00 []; Reader.mk_record 0x04 0x00 [] ].

(** The calls a client of the encoder makes to write a library with one
    structure that holds the polygons [polys] on one layer. *)
Definition write_library (now : datetime) (name : string) (layer datatype : Z)
    (polys : list (list (F64.float * F64.float))) : M GDSWriter.t Datatypes.unit :=
  (GDSWriter.write_header now ;;;
   GDSWriter.begin_structure now name ;;;
   for_each (GDSWriter.write_boundary layer datatype) polys ;;;
   GDSWriter.end_structure ;;;
   GDSWriter.close)%py.

(** The record kinds of a library stream with [n] boundary elements. *)
Definition library_kinds (n : nat) : list Z :=
  [0x00; 0x01; 0x02; 0x03; 0x05; 0x06]
    ++ List.concat (repeat [0x08; 0x0D; 0x0E; 0x10; 0x11] n)
    ++ [0x07; 0x04].

(** The encoder [w'] is [w] with more bytes at the end of its file, and
    the same file name, unit size and precision. *)
Definition grows (w w' : GDSWriter.t) : Prop :=
  GDSWriter.filename w' = GDSWriter.filename w
  /\ GDSWriter.unit w' = GDSWriter.unit w
  /\ GDSWriter.precision w' = GDSWriter.precision w
  /\ exists bytes,
       GDSWriter.contents (GDSWriter.file w')
       = GDSWriter.contents (GDSWriter.file w) ++ bytes.

(** One call of a method of the encoder, with any arguments and any
    outcome, takes the encoder from [w] to [w']. *)
Inductive method_call (w w' : GDSWriter.t) : Prop :=
  | call_write_record (rectype datatype : Z) (data : list byte) r :
      GDSWriter.write_record rectype datatype data w = (r, w') -> method_call w w'
  | call_write_header (now : datetime) r :
      GDSWriter.write_header now w = (r, w') -> method_call w w'
  | call_begin_structure (now : datetime) (name : string) r :
      GDSWriter.begin_structure now name w = (r, w') -> method_call w w'
  | call_end_structure r :
      GDSWriter.end_structure w = (r, w') -> method_call w w'
  | call_write_boundary (layer datatype : Z) (points : list (F64.float * F64.float)) r :
      GDSWriter.write_boundary layer datatype points w = (r, w') -> method_call w w'
  | call_close r :
      GDSWriter.close w = (r, w') -> method_call w w'.

(** A finite binary64 number: what every Python [float] other than an
    infinity or a NaN is. *)
Definition finite_double (x : F64.float) : bool := F64.is_finite x && F64.valid x.

(** The mirror image of a point list about the origin. *)
Definition mirrored (points : list (F64.float * F64.float))
  : list (F64.float * F64.float) :=
  map (fun p => (F64.neg (fst p), F64.neg (snd p))) points.

(** ** The numbers behind the floats *)

(** The real number a finite float stands for ([0] for the zeros; the
    infinities and NaN stand for no number, and no statement reads their
    value). *)
Definition B2R (x : F64.float) : R :=
  match x with
  | S754_finite s m e =>
      ((if s then - IZR (Z.pos m) else IZR (Z.pos m)) * powerRZ 2 e)%R
  | _ => 0%R
  end.

(** The unit roundoff of binary64, [2^-53], and half the smallest
    positive float, [2^-1075]: rounding to nearest changes a number [v]
    by at most [|v| * 2^-53], or by at most [2^-1075] where the result
    is subnormal. *)
Definition unit_roundoff : R := powerRZ 2 (-53).
Definition half_least : R := powerRZ 2 (-1075).

(** The Euclidean distance of two float points, as real numbers. *)
Definition real_distance (p q : F64.float * F64.float) : R :=
  sqrt ((B2R (fst p) - B2R (fst q)) * (B2R (fst p) - B2R (fst q))
        + (B2R (snd p) - B2R (snd q)) * (B2R (snd p) - B2R (snd q))).

(** How far rounding can move a vertex of the ring builder: the bound
    on the error of the sum and the product behind each coordinate, for
    a centre [(xc, yc)], a signed radius [rho], and the cosine [c] and
    sine [s] the C library returned. *)
Definition vertex_tolerance (xc yc rho c s : R) : R :=
  (unit_roundoff * (Rabs xc + Rabs yc)
   + unit_roundoff * (2 + unit_roundoff) * Rabs rho * (Rabs c + Rabs s)
   + 2 * (2 + unit_roundoff) * half_least)%R.

(* ================================================================== *)
(** * Runs of the model                                                *)
(* ================================================================== *)

(** [int()] truncates toward zero. *)
Example to_int_truncates :
  F64.to_int (F64.lit 27 1) = Ok 2 /\ F64.to_int (F64.neg (F64.lit 27 1)) = Ok (-2)
  /\ F64.to_int (F64.lit 999999 6) = Ok 0.
Proof. repeat split. Qed.

(** [1.0 / 1e-6] and [2.0 / 1e-6] are the floats [1000000.0] and
    [2000000.0] exactly, although [1e-6] is not a binary fraction. *)
Example quotients_by_default_unit :
  F64.truediv (F64.lit 10 1) (F64.lit 1 6) = Ok (F64.of_int 1000000)
  /\ F64.truediv (F64.lit 20 1) (F64.lit 1 6) = Ok (F64.of_int 2000000).
Proof. split; vm_compute; reflexivity. Qed.

(** The image of [1e-9] and of [1e-6] under [struct.pack(">d", _)]. *)
Example pack_d_units :
  Struct.pack_d (F64.lit 1 9) = [x3e; x11; x2e; x0b; xe8; x26; xd6; x95]
  /\ Struct.pack_d (F64.lit 1 6) = [x3e; xb0; xc6; xf7; xa0; xb5; xed; x8d].
Proof. split; vm_compute; reflexivity. Qed.

(** A closed encoder refuses further records. *)
Example close_twice_raises :
  fst ((bind GDSWriter.close (fun _ => GDSWriter.close)) (GDSWriter.init "layout.gds"))
  = Raise ValueError.
Proof. vm_compute; reflexivity. Qed.

(** A zero unit size stops [write_boundary] at the first division. *)
Example write_boundary_zero_unit :
  GDSWriter.scale_points F64.zero [(F64.lit 10 1, F64.lit 20 1)]
  = Raise ZeroDivisionError.
Proof. reflexivity. Qed.

(** [repr] on the floats of the metadata and on a few others. *)
Example repr_samples :
  map F64.repr [F64.lit 98 2; F64.lit 1 6; F64.of_int (10 ^ 16);
                F64.add (F64.lit 1 1) (F64.lit 2 1); F64.pi]
  = ["0.98"; "1e-06"; "1e+16"; "0.30000000000000004"; "3.141592653589793"]%string.
Proof. vm_compute; reflexivity. Qed.

(** An open triangle is closed on registration, a closed one is kept. *)
Example add_polygon_closes :
  let A := F64_Arith RefLibm.libm in
  let p0 := (F64.of_int 0, F64.of_int 0) in
  let p1 := (F64.of_int 4, F64.of_int 0) in
  let p2 := (F64.of_int 0, F64.of_int 3) in
  @add_polygon _ A [p0; p1; p2] fresh light_grey []
    = (Ok [p0; p1; p2; p0], [([p0; p1; p2; p0], light_grey)])
  /\ @add_polygon _ A [p0; p1; p2; p0] fresh light_grey []
     = (Ok [p0; p1; p2; p0], [([p0; p1; p2; p0], light_grey)])
  /\ @add_polygon _ A [] fresh light_grey [] = (Raise IndexError, []).
Proof. repeat split; vm_compute; reflexivity. Qed.

(** A NaN coordinate is equal to itself as an object, not as a number.
    A list of one point is stored as it is; a square of size zero at a
    NaN abscissa keeps its four points, its first and last corner
    holding the one NaN; two corners with a NaN each of their own
    differ, and the first is appended. *)
Example add_polygon_nan :
  let A := F64_Arith RefLibm.libm in
  let p := (F64.nan, F64.of_int 1) in
  let two := F64.of_int 2 in
  @add_polygon _ A [p] fresh light_grey [] = (Ok [p], [([p], light_grey)])
  /\ fst (@iq_mod_placeholder _ A F64.nan two (F64.of_int 0) light_grey [])
     = Ok [(F64.nan, two); (F64.nan, two); (F64.nan, two); (F64.nan, two)]
  /\ fst (@add_polygon _ A [p; p] fresh light_grey []) = Ok [p; p; p]
  /\ fst (@add_polygon _ A [p; p] same_point light_grey []) = Ok [p; p].
Proof. repeat split; vm_compute; reflexivity. Qed.

(** The central bus of the layout, with the reference C library. *)
Example central_bus_run :
  let A := F64_Arith RefLibm.libm in
  let lo := F64.neg (F64.lit 225 3) in
  let hi := F64.lit 225 3 in
  fst (@central_bus _ A [])
  = Ok (Some [ (F64.of_int 0, hi); (F64.of_int 520, hi);
               (F64.of_int 520, lo); (F64.of_int 0, lo); (F64.of_int 0, hi) ]).
Proof. vm_compute; reflexivity. Qed.

(* ================================================================== *)
(** * The encoder: records written and coordinates scaled              *)
(* ================================================================== *)

Section EncoderFacts.

Import GDSWriter.

Lemma length_big_endian (n : nat) (z : Z) : List.length (Struct.big_endian n z) = n.
Proof.
revert z; induction n as [|n IH]; intros z; simpl; [reflexivity|].
rewrite length_app, IH; simpl; lia.
Qed.

Lemma pack_int_ok (n : nat) (lo hi v : Z) :
  lo <= v <= hi -> Struct.pack_int n lo hi v = Ok (Struct.big_endian n v).
Proof.
intros [Hlo Hhi]; unfold Struct.pack_int.
apply Z.leb_le in Hlo; apply Z.leb_le in Hhi.
now rewrite Hlo, Hhi.
Qed.

Lemma pack_all_ok (n : nat) (lo hi : Z) (vs : list Z) :
  Forall (fun v => lo <= v <= hi) vs ->
  Struct.pack_all (Struct.pack_int n lo hi) vs
  = Ok (List.concat (map (Struct.big_endian n) vs)).
Proof.
unfold Struct.pack_all; intros Hall.
assert (E : rmap (Struct.pack_int n lo hi) vs = Ok (map (Struct.big_endian n) vs)).
{ induction Hall as [|v vs Hv _ IH]; simpl; [reflexivity|].
  now rewrite (pack_int_ok _ _ _ _ Hv), IH. }
now rewrite E.
Qed.

Lemma length_concat_big_endian (n : nat) (vs : list Z) :
  List.length (List.concat (map (Struct.big_endian n) vs)) = (n * List.length vs)%nat.
Proof.
induction vs as [|v vs IH]; simpl; [lia|].
rewrite length_app, length_big_endian, IH; lia.
Qed.

Lemma appended_appended (w : t) (a b : list byte) :
  appended (appended w a) b = appended w (a ++ b).
Proof. unfold appended; simpl; now rewrite app_assoc. Qed.

Lemma file_write_ok (w : t) (data : list byte) :
  closed (file w) = false -> file_write data w = (Ok tt, appended w data).
Proof. intros Hopen; unfold file_write; now rewrite Hopen. Qed.

(** A record whose tags are bytes and whose length fits two bytes is
    appended whole to an open file. *)
Lemma write_record_ok (w : t) (rectype datatype : Z) (data : list byte) :
  closed (file w) = false ->
  0 <= rectype <= 255 -> 0 <= datatype <= 255 ->
  4 + Z.of_nat (List.length data) <= 65535 ->
  write_record rectype datatype data w
  = (Ok tt, appended w (record_bytes rectype datatype data)).
Proof.
intros Hopen Hr Hd Hlen.
unfold write_record, bind, lift, Struct.pack_H, Struct.pack_B.
rewrite pack_int_ok by lia.
rewrite (file_write_ok w) by assumption.
rewrite !pack_int_ok by lia; cbn [rbind].
rewrite !file_write_ok by reflexivity.
rewrite !appended_appended.
unfold record_bytes; simpl Struct.big_endian at 2 3.
now rewrite <- !app_assoc.
Qed.

Lemma appended_open (w : t) (bs : list byte) : closed (file (appended w bs)) = false.
Proof. reflexivity. Qed.

Lemma scale_points_app (u : F64.float) (ps qs : list (F64.float * F64.float)) :
  scale_points u (ps ++ qs)
  = rbind (scale_points u ps) (fun cp =>
    rbind (scale_points u qs) (fun cq => Ok (cp ++ cq))).
Proof.
induction ps as [|[x y] ps IH]; simpl.
- now destruct (scale_points u qs).
- destruct (scale u x) as [cx|]; [|reflexivity]; simpl.
  destruct (scale u y) as [cy|]; [|reflexivity]; simpl.
  rewrite IH.
  destruct (scale_points u ps) as [cp|]; [|reflexivity]; simpl.
  now destruct (scale_points u qs).
Qed.

(** [int()] keeps the sign and rounds the magnitude down: truncation
    toward zero. *)
Lemma to_int_truncates_toward_zero (s : bool) (m : positive) (e z : Z) :
  e < 0 ->
  F64.to_int (S754_finite s m e) = Ok z ->
  z = (if s then -1 else 1) * (Z.pos m / 2 ^ (- e)).
Proof.
intros He H; unfold F64.to_int in H.
destruct (Z.leb_spec 0 e) as [Hge|_]; [lia|].
injection H as <-.
assert (Hd : 0 < 2 ^ (- e)) by (apply Z.pow_pos_nonneg; lia).
destruct s.
- change (Z.neg m) with (- Z.pos m).
  rewrite Z.quot_opp_l by lia.
  rewrite Z.quot_div_nonneg by lia. lia.
- rewrite Z.quot_div_nonneg by lia. lia.
Qed.

(** The default unit size turns the physical point [(1.0, 2.0)] into
    the database-unit pair. *)
Lemma scale_point_1_2 :
  scale_points (F64.lit 1 6) [(F64.lit 10 1, F64.lit 20 1)] = Ok [1000000; 2000000].
Proof. vm_compute. reflexivity. Qed.

End EncoderFacts.

(** C1.  With the default unit size [1e-6], [write_boundary] on a point
    list that contains the physical point [(1.0, 2.0)] succeeds and emits,
    at that point's place in the coordinate block, the database-unit pair
    [(1000000, 2000000)]; every coordinate is [int(v / unit)], the
    quotient truncated toward zero.  The other points are any whose
    coordinates scale to 32-bit integers, and the block fits one record. *)
Theorem write_boundary_scales_point
    (w : GDSWriter.t) (layer datatype : Z)
    (before after : list (F64.float * F64.float)) (cb ca : list Z) :
  GDSWriter.unit w = F64.lit 1 6 ->
  GDSWriter.closed (GDSWriter.file w) = false ->
  uint16 layer -> uint16 datatype ->
  GDSWriter.scale_points (F64.lit 1 6) before = Ok cb ->
  GDSWriter.scale_points (F64.lit 1 6) after = Ok ca ->
  Forall int32 (cb ++ ca) ->
  4 + 4 * Z.of_nat (List.length (cb ++ 1000000 :: 2000000 :: ca)) <= 65535 ->
  let points := before ++ (F64.lit 10 1, F64.lit 20 1) :: after in
  GDSWriter.scale_points (GDSWriter.unit w) points
    = Ok (cb ++ 1000000 :: 2000000 :: ca)
  /\ (forall v, GDSWriter.scale (GDSWriter.unit w) v
                 = rbind (F64.truediv v (GDSWriter.unit w)) F64.to_int)
  /\ GDSWriter.write_boundary layer datatype points w
     = (Ok tt,
        GDSWriter.appended w
          (boundary_records layer datatype (cb ++ 1000000 :: 2000000 :: ca))).
Proof.
intros Hunit Hopen Hlayer Hdt Hb Ha Hrange Hlen points.
assert (Hscale : GDSWriter.scale_points (F64.lit 1 6) points
                 = Ok (cb ++ 1000000 :: 2000000 :: ca)).
{ unfold points.
  change ((F64.lit 10 1, F64.lit 20 1) :: after)
    with ([(F64.lit 10 1, F64.lit 20 1)] ++ after).
  rewrite !scale_points_app, Hb, Ha, scale_point_1_2. reflexivity. }
split; [now rewrite Hunit|]. split; [reflexivity|].
assert (Hall : Forall (fun v => - 2 ^ 31 <= v <= 2 ^ 31 - 1)
                      (cb ++ 1000000 :: 2000000 :: ca)).
{ apply Forall_app in Hrange as [Hcb Hca].
  apply Forall_app; split; [exact Hcb|].
  repeat constructor; try lia; exact Hca. }
unfold GDSWriter.write_boundary, bind, lift.
rewrite write_record_ok by (simpl; first [assumption | lia]).
unfold Struct.pack_H.
rewrite (pack_int_ok 2 0 65535 layer) by exact Hlayer.
rewrite write_record_ok
  by (first [apply appended_open | rewrite ?length_big_endian; simpl; lia]).
rewrite (pack_int_ok 2 0 65535 datatype) by exact Hdt.
rewrite write_record_ok
  by (first [apply appended_open | rewrite ?length_big_endian; simpl; lia]).
cbn [GDSWriter.unit GDSWriter.appended]; rewrite Hunit, Hscale.
unfold Struct.pack_i; rewrite (pack_all_ok 4 _ _ _ Hall).
rewrite write_record_ok
  by (first [apply appended_open | rewrite ?length_concat_big_endian; lia]).
rewrite write_record_ok by (first [apply appended_open | simpl; lia]).
rewrite !appended_appended.
unfold boundary_records. now rewrite <- ?app_assoc.
Qed.

(** A run of C1: a three-point boundary around [(1.0, 2.0)]. *)
Lemma write_boundary_scales_point_witness :
  let w := GDSWriter.init "layout.gds" in
  let points := [(F64.lit 45 2, F64.neg (F64.lit 1234567 6))]
                  ++ (F64.lit 10 1, F64.lit 20 1) :: [(F64.lit 0 1, F64.lit 5 7)] in
  GDSWriter.scale_points (GDSWriter.unit w) points
    = Ok ([450000; -1234567] ++ 1000000 :: 2000000 :: [0; 0])
  /\ (forall v, GDSWriter.scale (GDSWriter.unit w) v
                 = rbind (F64.truediv v (GDSWriter.unit w)) F64.to_int)
  /\ GDSWriter.write_boundary 1 0 points w
     = (Ok tt,
        GDSWriter.appended w
          (boundary_records 1 0 ([450000; -1234567] ++ 1000000 :: 2000000 :: [0; 0]))).
Proof.
apply (write_boundary_scales_point (GDSWriter.init "layout.gds") 1 0
         [(F64.lit 45 2, F64.neg (F64.lit 1234567 6))]
         [(F64.lit 0 1, F64.lit 5 7)] [450000; -1234567] [0; 0]).
- reflexivity.
- reflexivity.
- unfold uint16; lia.
- unfold uint16; lia.
- vm_compute; reflexivity.
- vm_compute; reflexivity.
- repeat constructor; unfold int32; lia.
- simpl; lia.
Defined.

Section HeaderFacts.

Import GDSWriter.

Lemma timestamp_pair_range (now : datetime) :
  datetime_ok now = true ->
  Forall (fun v => 0 <= v <= 65535) (timestamp_pair now).
Proof.
unfold datetime_ok; intros H.
repeat (apply andb_prop in H; destruct H as [H ?]).
repeat match goal with
       | H : (_ <=? _) = true |- _ => apply Z.leb_le in H
       end.
unfold timestamp_pair; repeat constructor; lia.
Qed.

End HeaderFacts.

(** C3, as the code has it.  On an open file, [write_header] appends
    exactly four records in this order: the format version (600), the
    timestamp pair, the library name, and the units record, whose two
    doubles are the precision first and the database unit size second. *)
Theorem write_header_records (w : GDSWriter.t) (now : datetime) :
  GDSWriter.closed (GDSWriter.file w) = false ->
  datetime_ok now = true ->
  GDSWriter.write_header now w
  = (Ok tt,
     GDSWriter.appended w
       (header_records now (GDSWriter.precision w) (GDSWriter.unit w))).
Proof.
intros Hopen Hnow.
unfold GDSWriter.write_header, bind, lift, Struct.pack_H.
rewrite pack_int_ok by lia.
rewrite write_record_ok by (first [assumption | simpl; lia]).
rewrite (pack_all_ok 2 0 65535 _ (timestamp_pair_range now Hnow)).
rewrite write_record_ok
  by (first [apply appended_open | rewrite ?length_concat_big_endian; simpl; lia]).
rewrite write_record_ok by (first [apply appended_open | simpl; lia]).
rewrite write_record_ok
  by (first [apply appended_open
            | unfold Struct.pack_d; rewrite ?length_app, ?length_big_endian; simpl; lia
            | lia]).
rewrite !appended_appended.
unfold header_records. now rewrite <- ?app_assoc.
Qed.

(** A run of C3, on a fresh encoder. *)
Lemma write_header_records_witness :
  let w := GDSWriter.init "layout.gds" in
  let now := mk_datetime 2026 11 3 9 34 7 in
  GDSWriter.write_header now w
  = (Ok tt,
     GDSWriter.appended w
       (header_records now (GDSWriter.precision w) (GDSWriter.unit w))).
Proof.
apply (write_header_records (GDSWriter.init "layout.gds")
         (mk_datetime 2026 11 3 9 34 7)); reflexivity.
Defined.

(** C3, as the claim words it, fails: the units record does not hold
    the database unit size first and the precision second. *)
Lemma write_header_units_not_unit_first :
  let w := GDSWriter.init "layout.gds" in
  let now := mk_datetime 2026 11 3 9 34 7 in
  GDSWriter.write_header now w
  <> (Ok tt,
      GDSWriter.appended w
        (header_records now (GDSWriter.unit w) (GDSWriter.precision w))).
Proof.
vm_compute. intros H. discriminate H.
Qed.

(* ================================================================== *)
(** * What a geometry computation appends to the shared list           *)
(* ================================================================== *)

Section Emits.

Context {F : Type} {ar : Arith F}.

Lemma emits_ret {A : Type} (a : A) (P : list (@polygon F) -> Prop) :
  P [] -> emits (ret a) P.
Proof. intros HP st; exists a, []; now rewrite app_nil_r. Qed.

Lemma emits_bind {A B : Type} (c : M polygons A) (k : A -> M polygons B)
    (P Q R : list (@polygon F) -> Prop) :
  emits c P -> (forall a, emits (k a) Q) ->
  (forall l1 l2, P l1 -> Q l2 -> R (l1 ++ l2)) ->
  emits (bind c k) R.
Proof.
intros Hc Hk HR st.
destruct (Hc st) as (a & l1 & E1 & H1).
destruct (Hk a (st ++ l1)) as (b & l2 & E2 & H2).
exists b, (l1 ++ l2); unfold bind; rewrite E1, E2, app_assoc; auto.
Qed.

Lemma emits_weaken {A : Type} (c : M polygons A) (P Q : list (@polygon F) -> Prop) :
  emits c P -> (forall l, P l -> Q l) -> emits c Q.
Proof.
intros Hc HPQ st; destruct (Hc st) as (a & l & E & H); exists a, l; auto.
Qed.

(** A loop appends the concatenation of what its iterations append. *)
Lemma emits_for_each {A : Type} (body : A -> M polygons unit) (l : list A)
    (P : nat -> list (@polygon F) -> Prop) :
  P O [] ->
  (forall n l1 l2, P 1%nat l1 -> P n l2 -> P (S n) (l1 ++ l2)) ->
  (forall a, In a l -> emits (body a) (P 1%nat)) ->
  emits (for_each body l) (P (List.length l)).
Proof.
intros H0 Hstep; induction l as [|a l IH]; intros Hbody; simpl.
- now apply emits_ret.
- eapply emits_bind.
  + apply Hbody; now left.
  + intros _; apply IH; intros b Hb; apply Hbody; now right.
  + intros l1 l2; apply Hstep.
Qed.

(** ** The registration function *)

Lemma add_polygon_cons (first : point) (rest : list point) (s : sharing)
    (c : color) (st : polygons) :
  add_polygon (first :: rest) s c st
  = (Ok (stored s first rest), st ++ [(stored s first rest, c)]).
Proof. reflexivity. Qed.

(** Two points or more and no shared coordinate: the comparison is
    float [==] on both coordinates. *)
Lemma stored_fresh (first second : point) (rest : list point) :
  stored fresh first (second :: rest) = closed_up first (second :: rest).
Proof. reflexivity. Qed.

(** One point: it is its own last point, and nothing is appended. *)
Lemma stored_single (s : sharing) (first : point) : stored s first [] = [first].
Proof. reflexivity. Qed.

Lemma closed_up_closed (first : point) (rest : list point) :
  closed_points (closed_up first rest).
Proof.
unfold closed_up.
destruct (point_eqb first (last (first :: rest) first)) eqn:E; cbn [negb].
- cbn [closed_points]; now right.
- change ((first :: rest) ++ [first]) with (first :: (rest ++ [first])).
  cbn [closed_points]; left.
  change (first :: rest ++ [first]) with ((first :: rest) ++ [first]).
  apply last_last.
Qed.

Lemma closed_up_length (first : point) (rest : list point) :
  (List.length (first :: rest) <= List.length (closed_up first rest)
   <= S (List.length (first :: rest)))%nat.
Proof.
unfold closed_up; destruct (negb _); rewrite ?length_app; simpl; lia.
Qed.

Lemma closed_points_tuple_closed (pts : list point) :
  closed_points pts -> tuple_closed pts.
Proof.
destruct pts as [|first rest]; [exact (fun H => H)|].
cbn [closed_points tuple_closed]. intros [E|E].
- rewrite E. split; now left.
- unfold point_eqb in E. apply andb_prop in E as [Ex Ey]. split; now right.
Qed.

Lemma closed_polygon_tuple_closed (p : polygon) :
  closed_polygon p -> tuple_closed_polygon p.
Proof. apply closed_points_tuple_closed. Qed.

(** What [add_polygon] stores is closed as tuples compare, whenever the
    sharing it is told of is sound. *)
Lemma stored_closed (s : sharing) (first : point) (rest : list point) :
  sharing_sound s (first :: rest) -> tuple_closed (stored s first rest).
Proof.
intros [Sx Sy]. unfold stored.
destruct rest as [|second rest'].
- cbn [tuple_ne same_point same_x same_y orb andb negb tuple_closed last].
  split; now left.
- set (pts := first :: second :: rest') in *.
  destruct (tuple_ne s first (last pts first)) eqn:E.
  + change (pts ++ [first]) with (first :: ((second :: rest') ++ [first])).
    cbn [tuple_closed].
    change (first :: (second :: rest') ++ [first]) with (pts ++ [first]).
    rewrite last_last. split; now left.
  + unfold tuple_ne in E. apply negb_false_iff, andb_prop in E as [Ex Ey].
    unfold pts at 1; cbn [tuple_closed]. fold pts. split.
    * destruct (same_x s); [left; now apply Sx|now right].
    * destruct (same_y s); [left; now apply Sy|now right].
Qed.

Lemma stored_length (s : sharing) (first : point) (rest : list point) :
  (List.length (first :: rest) <= List.length (stored s first rest)
   <= S (List.length (first :: rest)))%nat.
Proof.
unfold stored; destruct (tuple_ne _ _ _); rewrite ?length_app; simpl; lia.
Qed.

Lemma one_closed_Forall (c : color) (l : list polygon) :
  one_closed c l -> Forall closed_polygon l.
Proof. intros (pts & -> & H); now constructor. Qed.

Lemma one_closed_length (c : color) (l : list polygon) :
  one_closed c l -> List.length l = 1%nat.
Proof. now intros (pts & -> & H). Qed.

Lemma one_closed_registered (c : color) (l : list polygon) :
  one_closed c l -> one_registered c l.
Proof.
intros (pts & -> & H); exists pts; split; [reflexivity|].
now apply closed_points_tuple_closed.
Qed.

Lemma one_registered_Forall (c : color) (l : list polygon) :
  one_registered c l -> Forall tuple_closed_polygon l.
Proof. intros (pts & -> & H); now constructor. Qed.

Lemma one_registered_length (c : color) (l : list polygon) :
  one_registered c l -> List.length l = 1%nat.
Proof. now intros (pts & -> & H). Qed.

Lemma emits_add_polygon (pts : list point) (s : sharing) (c : color) :
  pts <> [] -> sharing_sound s pts ->
  emits (add_polygon pts s c) (one_registered c).
Proof.
intros Hne Hs st; destruct pts as [|first rest]; [contradiction|].
exists (stored s first rest), [(stored s first rest, c)].
split; [apply add_polygon_cons|].
exists (stored s first rest); split; [reflexivity|now apply stored_closed].
Qed.

Lemma emits_add_polygon_fresh (first second : point) (rest : list point) (c : color) :
  emits (add_polygon (first :: second :: rest) fresh c) (one_closed c).
Proof.
intros st.
exists (closed_up first (second :: rest)), [(closed_up first (second :: rest), c)].
split; [now rewrite add_polygon_cons, stored_fresh|].
exists (closed_up first (second :: rest)); split; [reflexivity|apply closed_up_closed].
Qed.

(** ** The helpers *)

Lemma emits_iq_mod_placeholder (x y size : F) (c : color) :
  emits (iq_mod_placeholder x y size c) (one_registered c).
Proof.
unfold iq_mod_placeholder; apply emits_add_polygon; [discriminate|].
split; [reflexivity|discriminate].
Qed.

Lemma emits_detector_placeholder (x y size : F) (c : color) :
  emits (detector_placeholder x y size c) (one_registered c).
Proof.
unfold detector_placeholder; apply emits_add_polygon; [discriminate|].
split; [reflexivity|discriminate].
Qed.

Lemma length_range (n : Z) : List.length (range n) = Z.to_nat n.
Proof. unfold range; now rewrite length_map, length_seq. Qed.

Lemma length_circle_points (xc yc rho : F) (n : Z) :
  List.length (circle_points xc yc rho n) = Z.to_nat (n + 1).
Proof. unfold circle_points; now rewrite length_map, length_range. Qed.

Lemma circle_points_nonempty (xc yc rho : F) :
  circle_points xc yc rho 64 <> [].
Proof.
intros E; apply (f_equal (@List.length _)) in E.
rewrite length_circle_points in E; discriminate E.
Qed.

(** A comprehension of the ring builder has more than one point. *)
Lemma circle_points_cons (xc yc rho : F) :
  exists first second rest, circle_points xc yc rho 64 = first :: second :: rest.
Proof.
pose proof (length_circle_points xc yc rho 64) as H.
destruct (circle_points xc yc rho 64) as [|first [|second rest]];
  try discriminate H.
now exists first, second, rest.
Qed.

Lemma emits_ring_resonator_placeholder (xc yc radius width : F) (c : color) :
  emits (ring_resonator_placeholder xc yc radius width c) (ring_pair c).
Proof.
unfold ring_resonator_placeholder.
destruct (circle_points_cons xc yc (fadd radius (fdiv width (of_int 2))))
  as (fo & so & ro & ->).
destruct (circle_points_cons xc yc (fsub radius (fdiv width (of_int 2))))
  as (fi & si & ri & ->).
apply emits_bind with (P := one_closed c) (Q := one_closed white).
- apply emits_add_polygon_fresh.
- intros outer.
  apply emits_bind with (P := one_closed white) (Q := fun l => l = []).
  + apply emits_add_polygon_fresh.
  + intros _; now apply emits_ret.
  + intros l1 l2 H ->; now rewrite app_nil_r.
- intros l1 l2 (po & -> & Ho) (pi & -> & Hi).
  exists po, pi; auto.
Qed.

(** The run of the ring builder on any arithmetic: both comprehensions
    have more than one point, and each is registered through
    [add_polygon], which appends a copy of vertex 0 unless vertex 64
    compares equal to it. *)
Lemma ring_resonator_placeholder_run (xc yc radius width : F) (c : color)
    (st : polygons) :
  exists fo ro fi ri,
    circle_points xc yc (fadd radius (fdiv width (of_int 2))) 64 = fo :: ro
    /\ circle_points xc yc (fsub radius (fdiv width (of_int 2))) 64 = fi :: ri
    /\ ring_resonator_placeholder xc yc radius width c st
       = (Ok (closed_up fo ro),
          st ++ [(closed_up fo ro, c); (closed_up fi ri, white)]).
Proof.
unfold ring_resonator_placeholder.
destruct (circle_points_cons xc yc (fadd radius (fdiv width (of_int 2))))
  as (fo & so & ro & ->).
destruct (circle_points_cons xc yc (fsub radius (fdiv width (of_int 2))))
  as (fi & si & ri & ->).
exists fo, (so :: ro), fi, (si :: ri); repeat split.
unfold bind; rewrite !add_polygon_cons, !stored_fresh; unfold ret.
now rewrite <- app_assoc.
Qed.

(** The strip appends nothing when the segment length compares equal to
    zero and one closed polygon otherwise. *)
Lemma waveguide_path_degenerate (x0 y0 x1 y1 width : F) (c : color) (st : polygons) :
  zero_length x0 y0 x1 y1 = true ->
  waveguide_path x0 y0 x1 y1 width c st = (Ok None, st).
Proof. unfold zero_length; intros E; unfold waveguide_path; now rewrite E. Qed.

Lemma waveguide_path_registers (x0 y0 x1 y1 width : F) (c : color) (st : polygons) :
  zero_length x0 y0 x1 y1 = false ->
  exists pts,
    waveguide_path x0 y0 x1 y1 width c st = (Ok (Some pts), st ++ [(pts, c)])
    /\ closed_points pts.
Proof.
unfold zero_length; intros E; unfold waveguide_path; rewrite E.
unfold bind; rewrite add_polygon_cons, stored_fresh; unfold ret.
eexists; split; [reflexivity|apply closed_up_closed].
Qed.

Lemma emits_waveguide_path (x0 y0 x1 y1 width : F) (c : color) :
  zero_length x0 y0 x1 y1 = false ->
  emits (waveguide_path x0 y0 x1 y1 width c) (one_closed c).
Proof.
intros E st.
destruct (waveguide_path_registers x0 y0 x1 y1 width c st E) as (pts & Hrun & Hc).
exists (Some pts), [(pts, c)]; split; [exact Hrun|]. now exists pts.
Qed.

Lemma emits_waveguide_path_any (x0 y0 x1 y1 width : F) (c : color) :
  emits (waveguide_path x0 y0 x1 y1 width c)
        (fun l => Forall tuple_closed_polygon l /\ (List.length l <= 1)%nat).
Proof.
destruct (zero_length x0 y0 x1 y1) eqn:E.
- intros st; exists None, []; rewrite app_nil_r.
  split; [now apply waveguide_path_degenerate|]. split; [constructor|simpl; lia].
- eapply emits_weaken; [now apply emits_waveguide_path|].
  intros l H; split.
  + apply one_registered_Forall with c. now apply one_closed_registered.
  + now rewrite (one_closed_length _ _ H).
Qed.

End Emits.

(** One step through a [bind]: the first computation appends lists in
    [first_part], the rest lists in [rest_part], and [combine] puts the
    two together. *)
Ltac bind_step first_part rest_part combine :=
  apply emits_bind with (P := first_part) (Q := rest_part);
  [ | intros _ | apply combine ].

(* ================================================================== *)
(** * The layout loop, for every arithmetic                            *)
(* ================================================================== *)

Section Layout.

Context {F : Type} {ar : Arith F}.

Lemma emits_channel_bounds (i : Z) : emits (channel i) channel_bounds.
Proof.
pose (W := fun l : list (@polygon F) =>
             Forall tuple_closed_polygon l /\ (List.length l <= 1)%nat).
pose (B := fun (lo hi : nat) (l : list (@polygon F)) =>
             Forall tuple_closed_polygon l /\ (lo <= List.length l <= hi)%nat).
assert (step : forall lo hi lo' hi' l1 l2,
           B lo hi l1 -> B lo' hi' l2 -> B (lo + lo')%nat (hi + hi')%nat (l1 ++ l2)).
{ intros lo hi lo' hi' l1 l2 [C1 L1] [C2 L2]; split.
  - apply Forall_app; auto.
  - rewrite length_app; lia. }
assert (one : forall c l, one_registered c l -> B 1%nat 1%nat l).
{ intros c l H; split; [now apply one_registered_Forall with c|].
  rewrite (one_registered_length _ _ H); lia. }
assert (strip : forall l, W l -> B 0%nat 1%nat l).
{ intros l [C L]; split; [exact C|lia]. }
unfold channel.
bind_step (B 2 2)%nat (B 2 5)%nat (step 2 2 2 5)%nat.
{ eapply emits_weaken; [apply emits_ring_resonator_placeholder|].
  intros l (po & pi & -> & Ho & Hi); split; [|simpl; lia].
  repeat constructor; now apply closed_points_tuple_closed. }
bind_step (B 0 1)%nat (B 2 4)%nat (step 0 1 2 4)%nat.
{ eapply emits_weaken; [apply emits_waveguide_path_any|exact strip]. }
bind_step (B 0 1)%nat (B 2 3)%nat (step 0 1 2 3)%nat.
{ eapply emits_weaken; [apply emits_waveguide_path_any|exact strip]. }
bind_step (B 0 1)%nat (B 2 2)%nat (step 0 1 2 2)%nat.
{ eapply emits_weaken; [apply emits_waveguide_path_any|exact strip]. }
bind_step (B 1 1)%nat (B 1 1)%nat (step 1 1 1 1)%nat.
{ eapply emits_weaken; [apply emits_iq_mod_placeholder|apply one]. }
bind_step (B 1 1)%nat (B 0 0)%nat (step 1 1 0 0)%nat.
{ eapply emits_weaken; [apply emits_detector_placeholder|apply one]. }
apply emits_ret. split; [constructor|simpl; lia].
Qed.

(** Geometry generation returns normally and registers between 32 and
    57 polygons, all of them closed. *)
Lemma emits_generate_layout_bounds :
  emits (@generate_layout F ar)
        (fun l => Forall tuple_closed_polygon l /\ (32 <= List.length l <= 57)%nat).
Proof.
unfold generate_layout.
pose (P := fun (n : nat) (l : list (@polygon F)) =>
             Forall tuple_closed_polygon l /\ (4 * n <= List.length l <= 7 * n)%nat).
apply emits_bind with (P := P 8%nat)
  (Q := fun l => Forall tuple_closed_polygon l /\ (List.length l <= 1)%nat).
- change 8%nat with (List.length (range 8)).
  apply emits_for_each.
  + split; [constructor|simpl; lia].
  + intros n l1 l2 [C1 L1] [C2 L2]; split.
    * apply Forall_app; auto.
    * rewrite length_app; lia.
  + intros i _. eapply emits_weaken; [apply emits_channel_bounds|].
    intros l [C L]; split; [exact C|lia].
- intros _.
  apply emits_bind with
    (P := fun l => Forall tuple_closed_polygon l /\ (List.length l <= 1)%nat)
    (Q := fun l => l = []).
  + apply emits_waveguide_path_any.
  + intros _; now apply emits_ret.
  + intros l1 l2 H ->; now rewrite app_nil_r.
- intros l1 l2 [C1 L1] [C2 L2]; split.
  + apply Forall_app; auto.
  + rewrite length_app; lia.
Qed.

Lemma all_polygons_bounds :
  Forall tuple_closed_polygon (@all_polygons F ar)
  /\ (32 <= List.length (@all_polygons F ar) <= 57)%nat.
Proof.
unfold all_polygons.
destruct (emits_generate_layout_bounds []) as (a & added & E & H).
now rewrite E.
Qed.

End Layout.

(** C9.  Every registered polygon is closed.  [add_polygon] stores the
    point list as it is when its first point equals its last as tuples
    compare (item by item, one object being equal to itself), and with
    the first point appended otherwise; so what it stores has a first
    and a last point that are equal in that sense, and the test
    [points[0] != points[-1]] is false of the stored list.  Every call
    of a helper keeps what was registered and appends only such
    polygons, so a list of closed polygons stays one; and the list the
    script ends with consists of closed polygons. *)
Theorem registered_polygons_closed {F : Type} {ar : Arith F} :
  (forall (first : point) (rest : list point) (s : sharing) (c : color)
          (st : polygons),
      add_polygon (first :: rest) s c st
      = (Ok (stored s first rest), st ++ [(stored s first rest, c)])
      /\ (stored s first rest = first :: rest
          \/ stored s first rest = (first :: rest) ++ [first])
      /\ tuple_ne (stored_sharing s first rest) first
                  (last (stored s first rest) first) = false
      /\ (sharing_sound s (first :: rest) -> tuple_closed (stored s first rest)))
  /\ (forall st st' : polygons,
        helper_call st st' ->
        Forall tuple_closed_polygon st ->
        exists added,
          st' = st ++ added
          /\ Forall tuple_closed_polygon added
          /\ Forall tuple_closed_polygon st')
  /\ Forall tuple_closed_polygon (@all_polygons F ar).
Proof.
split; [|split].
- intros first rest s c st; split; [apply add_polygon_cons|]. split.
  + unfold stored. destruct (tuple_ne _ _ _); [now right|now left].
  + split; [|apply stored_closed].
    unfold stored, stored_sharing.
    destruct (tuple_ne _ first (last (first :: rest) first)) eqn:E; [reflexivity|exact E].
- intros st st' Hcall Hst.
  assert (Hemits : forall (A : Type) (c : M polygons A) (r : result A),
             emits c (Forall tuple_closed_polygon) -> c st = (r, st') ->
             exists added, st' = st ++ added /\ Forall tuple_closed_polygon added
                           /\ Forall tuple_closed_polygon st').
  { intros A c r Hc E. destruct (Hc st) as (a & added & E' & H).
    rewrite E in E'; injection E' as _ ->.
    exists added; repeat split; [exact H|apply Forall_app; auto]. }
  destruct Hcall as [pts s c r Hs E|x0 y0 x1 y1 width c r E|xc yc radius width c r E
                    |x y size c r E|x y size c r E].
  + destruct pts as [|first rest].
    * injection E as _ <-. exists []; rewrite app_nil_r; auto.
    * eapply Hemits; [|exact E].
      eapply emits_weaken; [apply emits_add_polygon; [discriminate|exact Hs]|].
      intros l; apply one_registered_Forall.
  + eapply Hemits; [|exact E].
    eapply emits_weaken; [apply emits_waveguide_path_any|]. now intros l [H _].
  + eapply Hemits; [|exact E].
    eapply emits_weaken; [apply emits_ring_resonator_placeholder|].
    intros l (po & pi & -> & Ho & Hi).
    repeat constructor; now apply closed_points_tuple_closed.
  + eapply Hemits; [|exact E].
    eapply emits_weaken; [apply emits_iq_mod_placeholder|].
    intros l; apply one_registered_Forall.
  + eapply Hemits; [|exact E].
    eapply emits_weaken; [apply emits_detector_placeholder|].
    intros l; apply one_registered_Forall.
- apply all_polygons_bounds.
Qed.

(** C4.  For the literal parameters the self-test passes: the list holds
    [n >= 32] polygons, so the assertion holds and the script prints the
    confirmation with [n] and the completion notice.  This is so for
    every arithmetic and whatever [math.hypot] returns. *)
Theorem self_test_passes {F : Type} {ar : Arith F} :
  exists n : Z,
    n = Z.of_nat (List.length (@all_polygons F ar))
    /\ expected_poly = 32 /\ expected_poly <= n
    /\ self_test (@all_polygons F ar)
       = Ok [ ("Self-test passed: " ++ str n ++ " polygons generated")%string;
              "All files generated in generated/"%string ].
Proof.
destruct (@all_polygons_bounds F ar) as [_ [Hlo _]].
exists (Z.of_nat (List.length (@all_polygons F ar))).
assert (H : expected_poly <= Z.of_nat (List.length (@all_polygons F ar))).
{ unfold expected_poly; lia. }
split; [reflexivity|]. split; [reflexivity|]. split; [exact H|].
unfold self_test. apply Z.leb_le in H. now rewrite H.
Qed.

(* ================================================================== *)
(** * Binary64: the degenerate strip and the polygon count             *)
(* ================================================================== *)

Section Binary64.

(** Equal finite floats have a zero difference. *)
Lemma sub_eqb_zero (x y : F64.float) :
  F64.is_finite y = true -> F64.eqb x y = true ->
  F64.eqb (F64.sub x y) F64.zero = true.
Proof.
intros Hfin Heq.
destruct x as [sx|sx| |sx mx ex], y as [sy|sy| |sy my ey];
  try discriminate Hfin; try discriminate Heq;
  try (destruct sx, sy; first [discriminate Heq | reflexivity]).
- unfold F64.eqb, SFeqb, SFcompare in Heq.
  assert (E : sx = sy /\ ex = ey /\ mx = my).
  { destruct sx, sy; try discriminate Heq;
      destruct (Z.compare_spec ex ey) as [He|He|He]; try discriminate Heq;
      (split; [reflexivity|split; [exact He|]]).
    - apply Pos.compare_eq.
      change (Pos.compare mx my) with (Pos.compare_cont Eq mx my).
      now destruct (Pos.compare_cont Eq mx my).
    - apply Pos.compare_eq.
      change (Pos.compare mx my) with (Pos.compare_cont Eq mx my).
      now destruct (Pos.compare_cont Eq mx my). }
  destruct E as (-> & -> & ->).
  unfold F64.sub, SFsub. now rewrite Z.sub_diag.
Qed.

(** The reference [hypot] obeys the law of [math.hypot]. *)
Lemma RefLibm_hypot_zero_law : hypot_zero_law RefLibm.libm.
Proof.
intros dx dy; cbn [libm_hypot RefLibm.libm].
destruct dx as [sx|sx| |sx mx ex], dy as [sy|sy| |sy my ey];
  try reflexivity; try (now destruct sx); try (now destruct sy).
replace (F64.eqb (S754_finite sx mx ex) F64.zero) with false by now destruct sx.
cbn [andb]. unfold RefLibm.hypot.
destruct (SFsqrt_core_binary _ _ _ _) as [[mz ez] lz].
generalize (binary_round_aux F64.prec F64.emax false mz ez lz); intros r.
cbn [F64.abs SFabs].
set (m := RefLibm.fmax (S754_finite false mx ex) (S754_finite false my ey)).
assert (Hm : exists p e, m = S754_finite false p e).
{ unfold m, RefLibm.fmax; destruct (F64.ltb _ _); eauto. }
destruct Hm as (p & e & ->).
unfold RefLibm.fmax.
destruct (F64.ltb r (S754_finite false p e)) eqn:Hlt; [reflexivity|].
destruct r as [s|s| |s q e']; try reflexivity; try discriminate Hlt; now destruct s.
Qed.

Variable L : Libm.
Hypothesis hypot_law : hypot_zero_law L.

#[local] Existing Instance F64_Arith.
Let A : Arith F64.float := F64_Arith L.

(** Under the law the guard of [waveguide_path] tests the two
    differences. *)
Lemma zero_length_law (x0 y0 x1 y1 : F64.float) :
  @zero_length _ A x0 y0 x1 y1
  = F64.eqb (F64.sub x1 x0) F64.zero && F64.eqb (F64.sub y1 y0) F64.zero.
Proof. apply hypot_law. Qed.

End Binary64.

(** Between finite endpoints that compare equal the strip is a no-op. *)
Lemma waveguide_path_coincident_binary64
    (L : Libm) (x0 y0 x1 y1 width : F64.float)
    (c : @color F64.float) (st : @polygons F64.float) :
  hypot_zero_law L ->
  F64.is_finite x0 = true -> F64.is_finite y0 = true ->
  F64.eqb x1 x0 = true -> F64.eqb y1 y0 = true ->
  @waveguide_path _ (F64_Arith L) x0 y0 x1 y1 width c st = (Ok None, st).
Proof.
intros HL Hx Hy Ex Ey.
apply waveguide_path_degenerate.
rewrite (zero_length_law L HL).
now rewrite (sub_eqb_zero x1 x0 Hx Ex), (sub_eqb_zero y1 y0 Hy Ey).
Qed.

(** Finiteness matters: between two equal infinite endpoints the
    difference is NaN, the length test is false and the strip is
    registered. *)
Remark waveguide_path_infinite_endpoints (L : Libm) (y width : F64.float)
    (c : @color F64.float) (st : @polygons F64.float) :
  hypot_zero_law L ->
  exists pts,
    @waveguide_path _ (F64_Arith L) (S754_infinity false) y (S754_infinity false) y
                    width c st
    = (Ok (Some pts), st ++ [(pts, c)]).
Proof.
intros HL.
destruct (@waveguide_path_registers _ (F64_Arith L)
            (S754_infinity false) y (S754_infinity false) y width c st)
  as (pts & E & _).
- now rewrite (zero_length_law L HL).
- now exists pts.
Qed.

Section Count.

Variable L : Libm.
Hypothesis hypot_law : hypot_zero_law L.

Let A : Arith F64.float := F64_Arith L.
#[local] Existing Instance A.

(** None of the strips of the layout is degenerate. *)
Lemma channel_strips_not_degenerate (i : Z) :
  In i (range 8) ->
  let y := @channel_y _ A i in
  @zero_length _ A (fadd bus_x_start (of_int 20)) y
                   (fadd bus_x_start (of_int 80)) y = false
  /\ @zero_length _ A (fadd bus_x_start (of_int 80)) y
                      (fadd bus_x_start (of_int 80)) (fadd y (of_int 10)) = false
  /\ @zero_length _ A (fadd bus_x_start (of_int 80)) (fadd y (of_int 10))
                      (fsub bus_x_start (of_int 20)) y = false.
Proof.
intros Hi y; unfold y; rewrite !(zero_length_law L hypot_law).
change (range 8) with [0; 1; 2; 3; 4; 5; 6; 7] in Hi.
repeat (destruct Hi as [<-|Hi]; [now vm_compute|]).
contradiction.
Qed.

Lemma central_bus_not_degenerate :
  @zero_length _ A (of_int 0) (of_int 0)
               (fadd (fadd core_x core_size) (of_int 100)) (of_int 0) = false.
Proof. rewrite (zero_length_law L hypot_law). now vm_compute. Qed.

Lemma colours_app (l1 l2 : list (@polygon F64.float)) :
  colours (l1 ++ l2) = colours l1 ++ colours l2.
Proof. apply map_app. Qed.

Lemma one_closed_colours (c : @color F64.float) (l : list polygon) :
  one_closed c l -> colours l = [c].
Proof. now intros (pts & -> & _). Qed.

Lemma one_registered_colours (c : @color F64.float) (l : list polygon) :
  one_registered c l -> colours l = [c].
Proof. now intros (pts & -> & _). Qed.

(** A channel registers its seven polygons. *)
Lemma emits_channel (i : Z) :
  In i (range 8) ->
  emits (@channel _ A i) (fun l => colours l = @channel_colours _ A i).
Proof.
intros Hi.
destruct (channel_strips_not_degenerate i Hi) as (G1 & G2 & G3).
assert (step : forall (cs1 cs2 : list (@color F64.float)) l1 l2,
           colours l1 = cs1 -> colours l2 = cs2 -> colours (l1 ++ l2) = cs1 ++ cs2).
{ intros cs1 cs2 l1 l2 <- <-; apply colours_app. }
pose (rgb := @channel_rgb _ A i).
pose (C := fun (cs : list (@color F64.float)) (l : list (@polygon F64.float)) =>
             colours l = cs).
unfold channel, channel_colours; fold rgb.
bind_step (C [rgb; white]) (C [wg_grey; rgb; rgb; rgb; rgb]) step.
{ eapply emits_weaken; [apply emits_ring_resonator_placeholder|].
  now intros l (po & pi & -> & _). }
bind_step (C [wg_grey]) (C [rgb; rgb; rgb; rgb]) step.
{ eapply emits_weaken; [apply emits_waveguide_path, G1|apply one_closed_colours]. }
bind_step (C [rgb]) (C [rgb; rgb; rgb]) step.
{ eapply emits_weaken; [apply emits_waveguide_path, G2|apply one_closed_colours]. }
bind_step (C [rgb]) (C [rgb; rgb]) step.
{ eapply emits_weaken; [apply emits_waveguide_path, G3|apply one_closed_colours]. }
bind_step (C [rgb]) (C [rgb]) step.
{ eapply emits_weaken; [apply emits_iq_mod_placeholder|apply one_registered_colours]. }
bind_step (C [rgb]) (C (@nil (@color F64.float))) step.
{ eapply emits_weaken; [apply emits_detector_placeholder|apply one_registered_colours]. }
now apply emits_ret.
Qed.

Lemma emits_central_bus : emits (@central_bus _ A) (one_closed bus_grey).
Proof. apply emits_waveguide_path, central_bus_not_degenerate. Qed.

(** The loop registers the channels' polygons one channel after the
    other. *)
Lemma emits_channels (l : list Z) :
  incl l (range 8) ->
  emits (for_each (@channel _ A) l)
        (fun added => colours added = List.concat (map (@channel_colours _ A) l)).
Proof.
induction l as [|i l IH]; intros Hl; simpl.
- now apply emits_ret.
- apply emits_bind with (P := fun a => colours a = @channel_colours _ A i)
    (Q := fun a => colours a = List.concat (map (@channel_colours _ A) l)).
  + apply emits_channel, Hl; now left.
  + intros _; apply IH; intros j Hj; apply Hl; now right.
  + intros l1 l2 H1 H2; now rewrite colours_app, H1, H2.
Qed.

Lemma all_polygons_colours :
  colours (@all_polygons _ A)
  = List.concat (map (@channel_colours _ A) (range 8)) ++ [bus_grey].
Proof.
assert (H : emits (@generate_layout _ A)
              (fun l => colours l
                        = List.concat (map (@channel_colours _ A) (range 8)) ++ [bus_grey])).
{ unfold generate_layout.
  apply emits_bind with
    (P := fun a => colours a = List.concat (map (@channel_colours _ A) (range 8)))
    (Q := fun a => colours a = [bus_grey]).
  - apply emits_channels, incl_refl.
  - intros _.
    apply emits_bind with (P := one_closed bus_grey) (Q := fun a => a = []).
    + apply emits_central_bus.
    + intros _; now apply emits_ret.
    + intros l1 l2 H ->; rewrite app_nil_r; now apply one_closed_colours.
  - intros l1 l2 H1 H2; now rewrite colours_app, H1, H2. }
unfold all_polygons. destruct (H []) as (a & added & E & Hc). now rewrite E.
Qed.

End Count.

(** C10.  For the literal parameters the self-test sees exactly 57
    polygons and prints that count: each of the 8 channels registers 7
    (ring outer, ring inner, three strips, modulator, detector,
    recognisable by their colours in this order) and the central bus one
    more; the zero-length test is false at every one of the 25 strip
    calls.  [math.hypot] is any function with the zero law. *)
Theorem layout_registers_57_polygons (L : Libm) :
  hypot_zero_law L ->
  let A := F64_Arith L in
  List.length (@all_polygons _ A) = 57%nat
  /\ Z.of_nat (List.length (@all_polygons _ A)) = 8 * 7 + 1
  /\ self_test (@all_polygons _ A)
     = Ok [ "Self-test passed: 57 polygons generated"%string;
            "All files generated in generated/"%string ]
  /\ colours (@all_polygons _ A)
     = List.concat (map (@channel_colours _ A) (range 8)) ++ [bus_grey]
  /\ (forall i, In i (range 8) ->
        emits (@channel _ A i) (fun l => colours l = @channel_colours _ A i))
  /\ emits (@central_bus _ A) (one_closed bus_grey)
  /\ (forall i, In i (range 8) ->
        let y := @channel_y _ A i in
        @zero_length _ A (fadd bus_x_start (of_int 20)) y
                         (fadd bus_x_start (of_int 80)) y = false
        /\ @zero_length _ A (fadd bus_x_start (of_int 80)) y
                            (fadd bus_x_start (of_int 80)) (fadd y (of_int 10)) = false
        /\ @zero_length _ A (fadd bus_x_start (of_int 80)) (fadd y (of_int 10))
                            (fsub bus_x_start (of_int 20)) y = false)
  /\ @zero_length _ A (of_int 0) (of_int 0)
                  (fadd (fadd core_x core_size) (of_int 100)) (of_int 0) = false.
Proof.
intros HL A.
assert (Hlen : List.length (@all_polygons _ A) = 57%nat).
{ transitivity (List.length (colours (@all_polygons _ A)));
    [symmetry; apply length_map|].
  unfold A; rewrite (all_polygons_colours L HL). reflexivity. }
split; [exact Hlen|]. split; [now rewrite Hlen|].
split; [unfold self_test; now rewrite Hlen|].
split; [apply (all_polygons_colours L HL)|].
split; [intros i Hi; now apply emits_channel|].
split; [now apply emits_central_bus|].
split; [intros i Hi; now apply channel_strips_not_degenerate|].
now apply central_bus_not_degenerate.
Qed.

(** A run of C10 with the reference C library. *)
Lemma layout_registers_57_polygons_witness :
  let A := F64_Arith RefLibm.libm in
  List.length (@all_polygons _ A) = 57%nat
  /\ Z.of_nat (List.length (@all_polygons _ A)) = 8 * 7 + 1
  /\ self_test (@all_polygons _ A)
     = Ok [ "Self-test passed: 57 polygons generated"%string;
            "All files generated in generated/"%string ]
  /\ colours (@all_polygons _ A)
     = List.concat (map (@channel_colours _ A) (range 8)) ++ [bus_grey]
  /\ (forall i, In i (range 8) ->
        emits (@channel _ A i) (fun l => colours l = @channel_colours _ A i))
  /\ emits (@central_bus _ A) (one_closed bus_grey)
  /\ (forall i, In i (range 8) ->
        let y := @channel_y _ A i in
        @zero_length _ A (fadd bus_x_start (of_int 20)) y
                         (fadd bus_x_start (of_int 80)) y = false
        /\ @zero_length _ A (fadd bus_x_start (of_int 80)) y
                            (fadd bus_x_start (of_int 80)) (fadd y (of_int 10)) = false
        /\ @zero_length _ A (fadd bus_x_start (of_int 80)) (fadd y (of_int 10))
                            (fsub bus_x_start (of_int 20)) y = false)
  /\ @zero_length _ A (of_int 0) (of_int 0)
                  (fadd (fadd core_x core_size) (of_int 100)) (of_int 0) = false.
Proof.
exact (layout_registers_57_polygons RefLibm.libm RefLibm_hypot_zero_law).
Defined.

(** C6.  The hue of channel [i], for [i] in [0..7], is [(i * 45) mod 360]
    degrees: the eight hues are 0, 45, ..., 315, pairwise distinct, and
    channels 0 and 7 are 315 degrees apart.  The tint is [hsl_to_rgb] of
    that hue, the eight tints are pairwise distinct too, and it is the
    tint the loop body paints with: of the seven polygons channel [i]
    registers, the ring's outer boundary, the second and third strip,
    the modulator and the detector carry [hsl_to_rgb(hue)], the ring's
    inner boundary is white and the first strip grey.  The hues and the
    tints do not depend on the C library; that all three strips are
    registered rests on the zero law of [math.hypot]. *)
Theorem channel_hues (L : Libm) :
  let A := F64_Arith L in
  Forall (fun i => @hue _ A i = F64.of_int ((i * 45) mod 360)) (range 8)
  /\ map (@hue _ A) (range 8)
     = map F64.of_int [0; 45; 90; 135; 180; 225; 270; 315]
  /\ NoDup (map (@hue _ A) (range 8))
  /\ F64.sub (@hue _ A 7) (@hue _ A 0) = F64.of_int 315
  /\ F64.eqb (@hue _ A 7) (F64.add (@hue _ A 0) (F64.of_int 360)) = false
  /\ (forall i, @channel_rgb _ A i
                = @hsl_to_rgb _ A (@hue _ A i) (F64.of_int 70) (F64.of_int 70))
  /\ NoDup (map (@channel_rgb _ A) (range 8))
  /\ (hypot_zero_law L ->
      forall i, In i (range 8) ->
        emits (@channel _ A i)
          (fun l =>
             let rgb := @hsl_to_rgb _ A (F64.of_int ((i * 45) mod 360))
                          (F64.of_int 70) (F64.of_int 70) in
             colours l = [rgb; white; wg_grey; rgb; rgb; rgb; rgb])).
Proof.
intros A.
assert (Hhues : map (@hue _ A) (range 8)
                = map F64.of_int [0; 45; 90; 135; 180; 225; 270; 315])
  by (vm_compute; reflexivity).
assert (Hmod : Forall (fun i => @hue _ A i = F64.of_int ((i * 45) mod 360)) (range 8)).
{ change (range 8) with [0; 1; 2; 3; 4; 5; 6; 7].
  repeat constructor; vm_compute; reflexivity. }
split; [exact Hmod|split; [exact Hhues|split; [|split; [|split; [|split; [|split]]]]]].
- rewrite Hhues.
  repeat constructor; simpl; intros H;
    repeat (destruct H as [H|H]; [discriminate H|]); exact H.
- vm_compute; reflexivity.
- vm_compute; reflexivity.
- reflexivity.
- let v := eval vm_compute in (map (@channel_rgb _ A) (range 8)) in
  assert (E : map (@channel_rgb _ A) (range 8) = v) by (vm_compute; reflexivity).
  rewrite E.
  repeat constructor; simpl; intros H;
    repeat (destruct H as [H|H]; [discriminate H|]); exact H.
- intros HL i Hi.
  eapply emits_weaken; [exact (emits_channel L HL i Hi)|].
  intros l ->. cbn zeta.
  rewrite <- (proj1 (Forall_forall _ _) Hmod i Hi).
  reflexivity.
Qed.

(** A run of C6 with the reference C library, which obeys the zero
    law: every channel registers its seven polygons in these colours. *)
Lemma channel_hues_witness :
  let A := F64_Arith RefLibm.libm in
  Forall (fun i =>
            emits (@channel _ A i)
              (fun l =>
                 let rgb := @hsl_to_rgb _ A (F64.of_int ((i * 45) mod 360))
                              (F64.of_int 70) (F64.of_int 70) in
                 colours l = [rgb; white; wg_grey; rgb; rgb; rgb; rgb]))
         (range 8).
Proof.
intros A. apply Forall_forall. intros i Hi.
exact (proj2 (proj2 (proj2 (proj2 (proj2 (proj2 (proj2
         (channel_hues RefLibm.libm))))))) RefLibm_hypot_zero_law i Hi).
Defined.

(* ================================================================== *)
(** * The ring vertices and the fidelity ramp                          *)
(* ================================================================== *)

Section Vertices.

Context {F : Type} {ar : Arith F}.

Lemma nth_error_range (n : Z) (k : nat) :
  (k < Z.to_nat n)%nat -> nth_error (range n) k = Some (Z.of_nat k).
Proof.
intros Hk; unfold range.
rewrite nth_error_map, nth_error_nth' with (d := O) by now rewrite length_seq.
now rewrite seq_nth.
Qed.

Lemma range_succ (n : Z) :
  (0 <= n)%Z -> range (n + 1) = range n ++ [n].
Proof.
intros Hn; unfold range.
replace (Z.to_nat (n + 1)) with (S (Z.to_nat n)) by lia.
rewrite seq_S, map_app; simpl. now rewrite Z2Nat.id.
Qed.

(** Vertex [i] of a comprehension, on every arithmetic. *)
Lemma nth_error_ring_vertex (xc yc rho : F) (i : Z) :
  (0 <= i <= 64)%Z ->
  nth_error (circle_points xc yc rho 64) (Z.to_nat i) = Some (ring_vertex xc yc rho i).
Proof.
intros Hi; unfold circle_points.
rewrite nth_error_map, nth_error_range by lia.
now rewrite Z2Nat.id by lia.
Qed.

(** What [add_polygon] registers for a comprehension. *)
Lemma closed_up_ring_boundary (xc yc rho : F) (first : point) (rest : list point) :
  circle_points xc yc rho 64 = first :: rest ->
  ring_boundary xc yc rho (circle_points xc yc rho 64) (closed_up first rest).
Proof.
intros E.
assert (Hfirst : first = ring_vertex xc yc rho 0).
{ pose proof (nth_error_ring_vertex xc yc rho 0 ltac:(lia)) as H.
  rewrite E in H; cbn [Z.to_nat nth_error] in H. now injection H. }
assert (Hlast : last (first :: rest) first = ring_vertex xc yc rho 64).
{ rewrite <- E; unfold circle_points.
  rewrite (range_succ 64) by lia. rewrite map_app; cbn [map].
  now rewrite last_last. }
unfold ring_boundary, closed_up. rewrite Hlast, E, <- Hfirst.
destruct (point_eqb first (ring_vertex xc yc rho 64)); [left|right]; now split.
Qed.

End Vertices.

Section Exact.

Local Open Scope R_scope.

Lemma vertex_on_circle (xc yc rho theta : R) :
  on_circle xc yc rho (xc + rho * cos theta, yc + rho * sin theta).
Proof.
unfold on_circle; cbn [fst snd].
pose proof (sin2_cos2 theta) as H; unfold Rsqr in H.
replace ((xc + rho * cos theta - xc) * (xc + rho * cos theta - xc)
         + (yc + rho * sin theta - yc) * (yc + rho * sin theta - yc))
  with (rho * rho * (sin theta * sin theta + cos theta * cos theta)) by ring.
rewrite H; ring.
Qed.

Lemma circle_points_on_circle (xc yc rho : R) (n : Z) :
  Forall (on_circle xc yc rho) (circle_points xc yc rho n).
Proof.
unfold circle_points; apply Forall_map, Forall_forall; intros i _.
apply vertex_on_circle.
Qed.

Lemma on_circle_distance (xc yc rho : R) (p : R * R) :
  on_circle xc yc rho p -> distance xc yc p = Rabs rho.
Proof.
unfold on_circle, distance; intros ->.
change (rho * rho) with (Rsqr rho). apply sqrt_Rsqr_abs.
Qed.

(** In exact arithmetic a strip from a point to itself is a no-op. *)
Lemma waveguide_path_coincident_exact (x0 y0 width : R) (c : color)
    (st : polygons) :
  waveguide_path x0 y0 x0 y0 width c st = (Ok None, st).
Proof.
apply waveguide_path_degenerate.
unfold zero_length; cbn [feqb fsub math_hypot of_int R_Arith].
replace (x0 - x0) with 0 by ring. replace (y0 - y0) with 0 by ring.
replace (0 * 0 + 0 * 0) with 0 by ring. rewrite sqrt_0.
now destruct (Req_dec_T 0 0) as [_|N]; [|elim N].
Qed.

End Exact.

Section Ramp.

Local Open Scope R_scope.

(** The curve in exact arithmetic. *)
Lemma phase_at_exact (t : R) :
  phase_at t = 98 / 100 + (995 / 1000 - 98 / 100) * sin (2 * PI * t / 8).
Proof. reflexivity. Qed.

(** Sample [k < 499] of the domain is [k * (8/499)]. *)
Lemma nth_error_ramp_t (k : nat) :
  (k < 499)%nat ->
  nth_error (@ramp_t R _) k = Some (INR k * ((8 - 0) / 499) + 0).
Proof.
intros Hk; unfold ramp_t, linspace.
rewrite nth_error_map, nth_error_range by (simpl; lia).
cbn [option_map].
destruct (Z.eqb_spec (Z.of_nat k) (500 - 1)) as [E|_]; [lia|].
cbn [of_int fadd fsub fmul fdiv R_Arith]. now rewrite <- INR_IZR_INZ.
Qed.

(** The range the curve really has: [0.98 -/+ 0.015]. *)
Lemma phase_at_range (t : R) : 965 / 1000 <= phase_at t <= 995 / 1000.
Proof.
rewrite phase_at_exact.
pose proof (SIN_bound (2 * PI * t / 8)) as [Hlo Hhi]. lra.
Qed.

(** In the second half of the cycle the sine is negative. *)
Lemma sin_sample_250_negative : sin (2 * PI * (250 * ((8 - 0) / 499) + 0) / 8) < 0.
Proof.
replace (2 * PI * (250 * ((8 - 0) / 499) + 0) / 8) with (PI / 499 + PI) by field.
rewrite neg_sin.
assert (0 < sin (PI / 499)); [|lra].
pose proof PI_RGT_0. apply sin_gt_0; lra.
Qed.

End Ramp.

(** C2, on the code.  Sample 250 of the 500 (at [t = 2000/499], just
    past the middle of the domain) has a curve value below the lower
    bound 0.98 of [phase_fidelity_range]: the curve is
    [0.98 + 0.015 * sin], which swings below 0.98 over the second half
    of the cycle. *)
Theorem phase_sample_250_below_range :
  exists t : R,
    nth_error (@ramp_t R _) 250 = Some t
    /\ nth_error (@phase R _) 250 = Some (phase_at t)
    /\ (phase_at t < 98 / 100)%R
    /\ (965 / 1000 <= phase_at t)%R.
Proof.
exists (INR 250 * ((8 - 0) / 499) + 0)%R.
assert (Ht : nth_error (@ramp_t R _) 250 = Some (INR 250 * ((8 - 0) / 499) + 0)%R)
  by (apply nth_error_ramp_t; lia).
split; [exact Ht|]. split.
- unfold phase. now rewrite nth_error_map, Ht.
- split; [|apply phase_at_range].
  rewrite phase_at_exact.
  replace (INR 250) with 250%R by (simpl; lra).
  pose proof sin_sample_250_negative. lra.
Qed.

(* ================================================================== *)
(** * The degenerate strip                                             *)
(* ================================================================== *)

(** C7.  A strip whose two endpoints coincide is a no-op:
    [waveguide_path] returns [None] and leaves [all_polygons] as it was.
    In binary64 the endpoints are finite floats that compare equal, and
    [math.hypot] is any function with the zero law; in exact arithmetic
    this is every call from a point to itself. *)
Theorem waveguide_path_coincident_endpoints :
  (forall (L : Libm) (x0 y0 x1 y1 width : F64.float)
          (c : @color F64.float) (st : @polygons F64.float),
      hypot_zero_law L ->
      F64.is_finite x0 = true -> F64.is_finite y0 = true ->
      F64.eqb x1 x0 = true -> F64.eqb y1 y0 = true ->
      @waveguide_path _ (F64_Arith L) x0 y0 x1 y1 width c st = (Ok None, st))
  /\ (forall (x0 y0 width : R) (c : @color R) (st : @polygons R),
        waveguide_path x0 y0 x0 y0 width c st = (Ok None, st)).
Proof.
split.
- exact waveguide_path_coincident_binary64.
- exact waveguide_path_coincident_exact.
Qed.

(** A run of C7: a strip from [(180.0, -52.5)] to itself, on a list that
    already holds a modulator square. *)
Lemma waveguide_path_coincident_endpoints_witness :
  let A := F64_Arith RefLibm.libm in
  let st := snd (@iq_mod_placeholder _ A (F64.lit 500 1) (F64.lit (-65) 0)
                   (F64.lit 250 1) light_grey []) in
  @waveguide_path _ A (F64.lit 1800 1) (F64.lit (-525) 1)
                      (F64.lit 1800 1) (F64.lit (-525) 1)
                      wg_width wg_grey st
  = (Ok None, st).
Proof.
apply (proj1 waveguide_path_coincident_endpoints RefLibm.libm);
  [exact RefLibm_hypot_zero_law|reflexivity..].
Defined.

(* ================================================================== *)
(** * The metadata document read back                                  *)
(* ================================================================== *)

(** C8.  Parsing the JSON text written for [metadata] gives [metadata]
    back: the same keys in the same order, [num_channels] the integer 8,
    the string and the boolean unchanged, and every float the very
    binary64 number of its literal (0.98, 0.995, 0.95, -25.0, 10.0). *)
Theorem metadata_json_round_trip :
  Json.loads metadata_json = Ok metadata
  /\ Json.loads (Json.dumps 2 metadata)
     = Ok (Json.VDict
             [ ("num_channels", Json.VInt 8);
               ("phase_fidelity_range",
                Json.VList [Json.VFloat (F64.lit 98 2); Json.VFloat (F64.lit 995 3)]);
               ("min_energy_recovery", Json.VFloat (F64.lit 95 2));
               ("wdm_crosstalk_bound_dB", Json.VFloat (F64.neg (F64.lit 250 1)));
               ("wdm_enabled", Json.VBool true);
               ("ring_radius_um", Json.VFloat (F64.lit 100 1));
               ("notes", Json.VStr "Generated from Lean4 invariants") ]%string)
  /\ map F64.repr [F64.lit 98 2; F64.lit 995 3; F64.lit 95 2;
                   F64.neg (F64.lit 250 1); F64.lit 100 1]
     = ["0.98"; "0.995"; "0.95"; "-25.0"; "10.0"]%string.
Proof. repeat split; vm_compute; reflexivity. Qed.

(* ================================================================== *)
(** * The encoder: framing, failure and composition                    *)
(* ================================================================== *)

Section ReaderFacts.

Import Reader.

Lemma byte_value_of_Z (z : Z) : byte_value (Struct.byte_of_Z z) = z mod 256.
Proof.
unfold byte_value, Struct.byte_of_Z.
assert (Hr : 0 <= z mod 256 < 256) by (apply Z.mod_pos_bound; lia).
destruct (Byte.of_N (Z.to_N (z mod 256))) as [b|] eqn:E.
- apply Byte.to_of_N in E. rewrite E. lia.
- apply Byte.of_N_None_iff in E. lia.
Qed.

Lemma unsigned_snoc (bs : list byte) (b : byte) :
  unsigned (bs ++ [b]) = unsigned bs * 256 + byte_value b.
Proof. unfold unsigned; now rewrite fold_left_app. Qed.

(** Unpacking inverts packing, modulo the width. *)
Lemma unsigned_big_endian (n : nat) (z : Z) :
  unsigned (Struct.big_endian n z) = z mod 256 ^ Z.of_nat n.
Proof.
revert z; induction n as [|n IH]; intros z.
- simpl. now rewrite Z.mod_1_r.
- cbn [Struct.big_endian]. rewrite unsigned_snoc, IH, byte_value_of_Z.
  rewrite Nat2Z.inj_succ, Z.pow_succ_r by lia.
  rewrite (Z.rem_mul_r z 256 (256 ^ Z.of_nat n)) by lia. lia.
Qed.

Lemma signed32_big_endian (v : Z) :
  int32 v -> signed32 (Struct.big_endian 4 v) = v.
Proof.
unfold int32, signed32; intros Hv.
rewrite unsigned_big_endian. change (256 ^ Z.of_nat 4) with (2 ^ 32).
destruct (Z.ltb_spec (v mod 2 ^ 32) (2 ^ 31)) as [H|H].
- destruct (Z.le_gt_cases 0 v) as [Hp|Hn].
  + rewrite Z.mod_small; lia.
  + rewrite <- (Z.mod_add v 1) in H by lia.
    rewrite Z.mod_small in H; lia.
- destruct (Z.le_gt_cases 0 v) as [Hp|Hn].
  + rewrite Z.mod_small in H; lia.
  + rewrite <- (Z.mod_add v 1) by lia.
    rewrite Z.mod_small; lia.
Qed.

Lemma firstn_skipn_app (A : Type) (l r : list A) :
  firstn (List.length l) (l ++ r) = l /\ skipn (List.length l) (l ++ r) = r.
Proof.
split.
- rewrite firstn_app, Nat.sub_diag, firstn_all; simpl. now rewrite app_nil_r.
- rewrite skipn_app, Nat.sub_diag, skipn_all; reflexivity.
Qed.

Lemma chunks_big_endian (cs : list Z) (fuel : nat) :
  (List.length cs <= fuel)%nat ->
  chunks fuel 4 (List.concat (map (Struct.big_endian 4) cs))
  = map (Struct.big_endian 4) cs.
Proof.
revert fuel; induction cs as [|c cs IH]; intros fuel Hf.
- destruct fuel; reflexivity.
- destruct fuel as [|fuel]; [simpl in Hf; lia|].
  cbn [map List.concat].
  pose proof (length_big_endian 4 c) as Hl.
  destruct (firstn_skipn_app _ (Struct.big_endian 4 c)
              (List.concat (map (Struct.big_endian 4) cs))) as [Hfst Hskp].
  rewrite Hl in Hfst, Hskp.
  cbn [chunks].
  destruct (Struct.big_endian 4 c ++ List.concat (map (Struct.big_endian 4) cs))
    as [|b bs] eqn:E.
  + apply (f_equal (@List.length _)) in E.
    rewrite length_app, Hl in E; discriminate E.
  + rewrite Hfst, Hskp, IH by (simpl in Hf; lia). reflexivity.
Qed.

Lemma read_records_encode (rs : list LayoutRecord) (fuel : nat) :
  (List.length rs < fuel)%nat ->
  Forall well_formed rs ->
  read_records fuel (List.concat (map encode rs)) = Some rs.
Proof.
revert fuel; induction rs as [|r rs IH]; intros fuel Hf Hwf.
- destruct fuel; [lia|reflexivity].
- destruct fuel as [|fuel]; [lia|].
  inversion Hwf as [|r' rs' (Hk & Hd & Hlen) Hrest]; subst.
  cbn [map List.concat]. unfold encode at 1, GDSWriter.record_bytes.
  set (len := 4 + Z.of_nat (List.length (payload r))) in *.
  change (Struct.big_endian 2 len)
    with ([Struct.byte_of_Z (len / 256)] ++ [Struct.byte_of_Z len]).
  cbn [app read_records].
  assert (Hu : unsigned [Struct.byte_of_Z (len / 256); Struct.byte_of_Z len] = len).
  { change [Struct.byte_of_Z (len / 256); Struct.byte_of_Z len]
      with (Struct.big_endian 2 len).
    rewrite unsigned_big_endian. change (256 ^ Z.of_nat 2) with 65536.
    apply Z.mod_small; unfold len; lia. }
  rewrite Hu.
  replace (Z.to_nat (len - 4)) with (List.length (payload r)) by (unfold len; lia).
  destruct (Z.ltb_spec len 4) as [H|_]; [unfold len in H; lia|].
  destruct (Nat.ltb_spec (List.length (payload r ++ List.concat (map encode rs)))
              (List.length (payload r))) as [H|_];
    [rewrite length_app in H; lia|].
  cbn [orb].
  destruct (firstn_skipn_app _ (payload r) (List.concat (map encode rs))) as [-> ->].
  rewrite IH by (simpl in Hf; first [lia | assumption]).
  rewrite !byte_value_of_Z, !Z.mod_small by lia.
  now destruct r.
Qed.

Lemma length_encode (r : LayoutRecord) :
  List.length (encode r) = (4 + List.length (payload r))%nat.
Proof.
unfold encode, GDSWriter.record_bytes.
rewrite length_app, length_big_endian; simpl; lia.
Qed.

Lemma length_stream (rs : list LayoutRecord) :
  (List.length rs <= List.length (List.concat (map encode rs)))%nat.
Proof.
induction rs as [|r rs IH]; cbn [map List.concat]; [simpl; lia|].
rewrite length_app, length_encode; simpl; lia.
Qed.

End ReaderFacts.

Section WriterFacts.

Import GDSWriter.

Lemma appended_nil (w : t) : closed (file w) = false -> appended w [] = w.
Proof.
destruct w as [fn [cl ct] u p]; simpl; intros ->.
unfold appended; simpl. now rewrite app_nil_r.
Qed.

(** A run of well-formed records through [write_record]. *)
Lemma write_records_ok (rs : list Reader.LayoutRecord) (w : t) :
  closed (file w) = false ->
  Forall Reader.well_formed rs ->
  for_each (fun r => write_record (Reader.rectype r) (Reader.datatype r)
                                  (Reader.payload r)) rs w
  = (Ok tt, appended w (List.concat (map Reader.encode rs))).
Proof.
revert w; induction rs as [|r rs IH]; intros w Hopen Hwf.
- cbn [for_each map List.concat]. unfold ret. now rewrite appended_nil.
- inversion Hwf as [|r' rs' (Hk & Hd & Hlen) Hrest]; subst.
  cbn [for_each map List.concat]; unfold bind.
  rewrite write_record_ok by assumption.
  rewrite IH by (first [apply appended_open | assumption]).
  now rewrite appended_appended.
Qed.

Lemma write_record_too_long (w : t) (rectype datatype : Z) (data : list byte) :
  65535 < 4 + Z.of_nat (List.length data) ->
  write_record rectype datatype data w = (Raise StructError, w).
Proof.
intros Hlong.
unfold write_record, bind, lift, Struct.pack_H, Struct.pack_int.
destruct (Z.leb_spec (4 + Z.of_nat (List.length data)) 65535) as [H|_]; [lia|].
now rewrite andb_false_r.
Qed.

Lemma write_record_bad_tag (w : t) (rectype datatype : Z) (data : list byte) :
  closed (file w) = false ->
  4 + Z.of_nat (List.length data) <= 65535 ->
  ~ (0 <= rectype <= 255 /\ 0 <= datatype <= 255) ->
  write_record rectype datatype data w
  = (Raise StructError,
     appended w (Struct.big_endian 2 (4 + Z.of_nat (List.length data)))).
Proof.
intros Hopen Hfit Htags.
unfold write_record, bind, lift, Struct.pack_H.
rewrite pack_int_ok by lia.
rewrite file_write_ok by assumption.
unfold Struct.pack_B, Struct.pack_int.
destruct (Z.leb_spec 0 rectype), (Z.leb_spec rectype 255);
  cbn [andb rbind]; try reflexivity.
destruct (Z.leb_spec 0 datatype), (Z.leb_spec datatype 255);
  cbn [andb rbind]; try reflexivity.
exfalso; apply Htags; lia.
Qed.

Lemma write_record_closed (w : t) (rectype datatype : Z) (data : list byte) :
  closed (file w) = true ->
  4 + Z.of_nat (List.length data) <= 65535 ->
  write_record rectype datatype data w = (Raise ValueError, w).
Proof.
intros Hclosed Hlen.
unfold write_record, bind, lift, Struct.pack_H.
rewrite pack_int_ok by lia.
unfold file_write; now rewrite Hclosed.
Qed.

Lemma int32b_spec (v : Z) : int32b v = true <-> int32 v.
Proof. unfold int32b, int32. rewrite andb_true_iff, !Z.leb_le. tauto. Qed.

Lemma pack_all_out_of_range (n : nat) (lo hi : Z) (vs : list Z) :
  forallb (fun v => (lo <=? v) && (v <=? hi)) vs = false ->
  Struct.pack_all (Struct.pack_int n lo hi) vs = Raise StructError.
Proof.
unfold Struct.pack_all; intros Hbad.
assert (E : rmap (Struct.pack_int n lo hi) vs = Raise StructError).
{ induction vs as [|v vs IH]; [discriminate|].
  cbn [forallb] in Hbad; cbn [rmap]; unfold Struct.pack_int at 1.
  destruct ((lo <=? v) && (v <=? hi)); cbn [rbind]; [|reflexivity].
  now rewrite IH. }
now rewrite E.
Qed.

Lemma scale_points_length (u : F64.float) (points : list (F64.float * F64.float))
    (coords : list Z) :
  scale_points u points = Ok coords ->
  List.length coords = (2 * List.length points)%nat.
Proof.
revert coords; induction points as [|[x y] rest IH]; intros coords H.
- injection H as <-. reflexivity.
- cbn [scale_points] in H.
  destruct (scale u x) as [cx|]; [|discriminate].
  destruct (scale u y) as [cy|]; [|discriminate].
  destruct (scale_points u rest) as [cs|]; [|discriminate].
  cbn [rbind] in H; injection H as <-.
  cbn [List.length]. rewrite (IH cs eq_refl). lia.
Qed.

(** The three records that open a boundary element. *)
Lemma write_boundary_opening (w : t) (layer datatype : Z)
    (points : list (F64.float * F64.float)) :
  closed (file w) = false ->
  uint16 layer -> uint16 datatype ->
  write_boundary layer datatype points w
  = (coords <- lift (scale_points (unit w) points) ;;
     xy_data <- lift (Struct.pack_all Struct.pack_i coords) ;;
     write_record 0x10 0x03 xy_data ;;;
     write_record 0x11 0x00 [])%py
    (appended w (boundary_opening layer datatype)).
Proof.
intros Hopen Hlayer Hdt.
unfold write_boundary. unfold bind at 1.
rewrite write_record_ok by (simpl; first [assumption | lia]).
unfold bind at 1, lift at 1, Struct.pack_H.
rewrite (pack_int_ok 2 0 65535 layer) by exact Hlayer.
unfold bind at 1.
rewrite write_record_ok
  by (first [apply appended_open | rewrite ?length_big_endian; simpl; lia]).
unfold bind at 1, lift at 1.
rewrite (pack_int_ok 2 0 65535 datatype) by exact Hdt.
unfold bind at 1.
rewrite write_record_ok
  by (first [apply appended_open | rewrite ?length_big_endian; simpl; lia]).
rewrite !appended_appended.
unfold boundary_opening. now rewrite <- ?app_assoc.
Qed.

Lemma write_boundary_ok (w : t) (layer datatype : Z)
    (points : list (F64.float * F64.float)) (coords : list Z) :
  closed (file w) = false ->
  uint16 layer -> uint16 datatype ->
  scale_points (unit w) points = Ok coords ->
  writable (unit w) points = true ->
  write_boundary layer datatype points w
  = (Ok tt, appended w (boundary_records layer datatype coords)).
Proof.
intros Hopen Hlayer Hdt Hscale Hw.
rewrite write_boundary_opening by assumption.
unfold writable in Hw; rewrite Hscale in Hw.
apply andb_prop in Hw as [Hall Hlen]. apply Z.leb_le in Hlen.
assert (Hrange : Forall (fun v => - 2 ^ 31 <= v <= 2 ^ 31 - 1) coords).
{ apply Forall_forall; intros v Hv.
  apply (proj1 (forallb_forall _ _) Hall), int32b_spec in Hv. exact Hv. }
unfold bind, lift. cbn [unit appended]. rewrite Hscale.
unfold Struct.pack_i; rewrite (pack_all_ok 4 _ _ _ Hrange).
rewrite write_record_ok
  by (first [apply appended_open | rewrite ?length_concat_big_endian; lia]).
rewrite write_record_ok by (first [apply appended_open | simpl; lia]).
rewrite !appended_appended.
unfold boundary_records, boundary_opening. now rewrite <- ?app_assoc.
Qed.

End WriterFacts.

(** X1.  The stream is self-delimiting: after any sequence of
    well-formed records (tags that are bytes, a length that fits the
    prefix) has gone through [write_record] on a fresh encoder, a reader
    that follows the length prefixes splits the file into exactly those
    records, tags and payloads intact. *)
Theorem written_records_read_back (fname : string) (rs : list Reader.LayoutRecord) :
  Forall Reader.well_formed rs ->
  let run :=
    for_each (fun r => GDSWriter.write_record (Reader.rectype r) (Reader.datatype r)
                                              (Reader.payload r))
             rs (GDSWriter.init fname) in
  fst run = Ok tt
  /\ Reader.read_stream (GDSWriter.contents (GDSWriter.file (snd run))) = Some rs.
Proof.
intros Hwf run; unfold run.
rewrite write_records_ok by (first [reflexivity | assumption]).
split; [reflexivity|]. cbn [snd GDSWriter.appended GDSWriter.file GDSWriter.contents
                            GDSWriter.init app].
unfold Reader.read_stream.
apply read_records_encode; [|exact Hwf].
pose proof (length_stream rs); lia.
Qed.

(** A run of X1 on three records. *)
Lemma written_records_read_back_witness :
  let rs := [ Reader.mk_record 0x08 0x00 [];
              Reader.mk_record 0x0D 0x02 [x00; x01];
              Reader.mk_record 0x11 0x00 [] ] in
  let run :=
    for_each (fun r => GDSWriter.write_record (Reader.rectype r) (Reader.datatype r)
                                              (Reader.payload r))
             rs (GDSWriter.init "layout.gds") in
  fst run = Ok tt
  /\ Reader.read_stream (GDSWriter.contents (GDSWriter.file (snd run))) = Some rs.
Proof.
apply (written_records_read_back "layout.gds"
         [ Reader.mk_record 0x08 0x00 [];
           Reader.mk_record 0x0D 0x02 [x00; x01];
           Reader.mk_record 0x11 0x00 [] ]).
repeat constructor; simpl; lia.
Defined.

(** X2.  How [write_record] fails on an open file.  A payload too long
    for the 2-byte length raises [struct.error] before anything is
    written.  A record-kind or sub-kind tag outside [0..255] raises
    [struct.error] after the length prefix has been written: the file is
    left with two dangling bytes. *)
Theorem write_record_failures (w : GDSWriter.t) (rectype datatype : Z)
    (data : list byte) :
  GDSWriter.closed (GDSWriter.file w) = false ->
  (65535 < 4 + Z.of_nat (List.length data) ->
   GDSWriter.write_record rectype datatype data w = (Raise StructError, w))
  /\ (4 + Z.of_nat (List.length data) <= 65535 ->
      ~ (0 <= rectype <= 255 /\ 0 <= datatype <= 255) ->
      GDSWriter.write_record rectype datatype data w
      = (Raise StructError,
         GDSWriter.appended w
           (Struct.big_endian 2 (4 + Z.of_nat (List.length data))))).
Proof.
intros Hopen; split.
- apply write_record_too_long.
- now apply write_record_bad_tag.
Qed.

(** A run of X2: the tag 256 on an empty payload leaves the two length
    bytes behind. *)
Lemma write_record_failures_witness :
  GDSWriter.write_record 0x100 0x00 [] (GDSWriter.init "layout.gds")
  = (Raise StructError,
     GDSWriter.appended (GDSWriter.init "layout.gds") [x00; x04]).
Proof.
apply (proj2 (write_record_failures (GDSWriter.init "layout.gds") 0x100 0x00 []
                eq_refl)); simpl; lia.
Defined.

(** X3.  A closed encoder accepts nothing more: after [close], each of
    [write_header], [begin_structure], [end_structure], [write_boundary]
    and [close] itself raises [ValueError] (I/O on a closed file) and
    leaves the encoder and its file as they were. *)
Theorem closed_encoder_refuses (w : GDSWriter.t) (now : datetime)
    (name : string) (layer datatype : Z) (points : list (F64.float * F64.float)) :
  GDSWriter.closed (GDSWriter.file w) = true ->
  datetime_ok now = true ->
  GDSWriter.write_header now w = (Raise ValueError, w)
  /\ GDSWriter.begin_structure now name w = (Raise ValueError, w)
  /\ GDSWriter.end_structure w = (Raise ValueError, w)
  /\ GDSWriter.write_boundary layer datatype points w = (Raise ValueError, w)
  /\ GDSWriter.close w = (Raise ValueError, w).
Proof.
intros Hclosed Hnow.
pose proof (fun rt dt data => write_record_closed w rt dt data Hclosed) as Hrec.
repeat split.
- unfold GDSWriter.write_header, bind, lift, Struct.pack_H.
  rewrite pack_int_ok by lia. now rewrite Hrec by (simpl; lia).
- unfold GDSWriter.begin_structure, bind, lift, Struct.pack_H.
  rewrite (pack_all_ok 2 0 65535 _ (timestamp_pair_range now Hnow)).
  now rewrite Hrec by (rewrite length_concat_big_endian; simpl; lia).
- unfold GDSWriter.end_structure. now rewrite Hrec by (simpl; lia).
- unfold GDSWriter.write_boundary, bind. now rewrite Hrec by (simpl; lia).
- unfold GDSWriter.close, bind. now rewrite Hrec by (simpl; lia).
Qed.

(** A run of X3 on an encoder that was closed once. *)
Lemma closed_encoder_refuses_witness :
  let w := snd (GDSWriter.close (GDSWriter.init "layout.gds")) in
  let now := mk_datetime 2026 11 3 9 34 7 in
  GDSWriter.write_header now w = (Raise ValueError, w)
  /\ GDSWriter.begin_structure now "TOP" w = (Raise ValueError, w)
  /\ GDSWriter.end_structure w = (Raise ValueError, w)
  /\ GDSWriter.write_boundary 1 0 [(F64.lit 10 1, F64.lit 20 1)] w
     = (Raise ValueError, w)
  /\ GDSWriter.close w = (Raise ValueError, w).
Proof.
apply (closed_encoder_refuses
         (snd (GDSWriter.close (GDSWriter.init "layout.gds")))
         (mk_datetime 2026 11 3 9 34 7) "TOP" 1 0 [(F64.lit 10 1, F64.lit 20 1)]);
  reflexivity.
Defined.

Section BoundaryFacts.

Import GDSWriter.

Lemma boundary_records_element (layer datatype : Z) (coords : list Z) :
  boundary_records layer datatype coords
  = List.concat (map Reader.encode (boundary_element layer datatype coords)).
Proof.
unfold boundary_records, boundary_element, Reader.encode.
cbn [map List.concat Reader.rectype Reader.datatype Reader.payload].
now rewrite app_nil_r.
Qed.

Lemma boundary_element_well_formed (layer datatype : Z) (coords : list Z) :
  4 + 4 * Z.of_nat (List.length coords) <= 65535 ->
  Forall Reader.well_formed (boundary_element layer datatype coords).
Proof.
intros Hlen. unfold boundary_element.
repeat (apply Forall_cons; [unfold Reader.well_formed;
  cbn [Reader.rectype Reader.datatype Reader.payload];
  rewrite ?length_big_endian, ?length_concat_big_endian;
  cbn [List.length]; lia|]).
apply Forall_nil.
Qed.

Lemma read_coords_big_endian (coords : list Z) :
  Forall int32 coords ->
  Reader.read_coords (List.concat (map (Struct.big_endian 4) coords)) = coords.
Proof.
intros Hall. unfold Reader.read_coords.
rewrite chunks_big_endian
  by (rewrite length_concat_big_endian; lia).
rewrite map_map.
induction Hall as [|v vs Hv _ IH]; [reflexivity|].
cbn [map]. rewrite IH. f_equal. now apply signed32_big_endian.
Qed.

Lemma neg_div (x u : F64.float) : F64.div (F64.neg x) u = F64.neg (F64.div x u).
Proof.
unfold F64.div, F64.neg, SFdiv.
destruct x as [sx| sx| |sx mx ex], u as [su|su| |su mu eu]; cbn [SFopp];
  try reflexivity; try (now destruct sx, su).
destruct (SFdiv_core_binary F64.prec F64.emax (Z.pos mx) ex (Z.pos mu) eu)
  as [[mz ez] lz].
unfold binary_round_aux.
destruct (shr_fexp F64.prec F64.emax mz ez lz) as [mrs e'].
destruct (shr_fexp F64.prec F64.emax _ e' loc_Exact) as [mrs' e''].
destruct (shr_m mrs'); cbn [SFopp]; try (now destruct sx, su).
destruct (e'' <=? F64.emax - F64.prec); cbn [SFopp]; now destruct sx, su.
Qed.

Lemma to_int_neg (x : F64.float) :
  F64.to_int (F64.neg x) = rbind (F64.to_int x) (fun z => Ok (- z)).
Proof.
destruct x as [s|s| |s m e]; cbn [F64.neg SFopp F64.to_int rbind]; try reflexivity.
f_equal.
destruct (0 <=? e) eqn:He.
- destruct s; cbn [negb]; lia.
- apply Z.leb_gt in He.
  assert (Hd : 2 ^ (- e) <> 0) by (apply Z.pow_nonzero; lia).
  destruct s; cbn [negb]; change (Z.neg m) with (- Z.pos m);
    rewrite Z.quot_opp_l by assumption; lia.
Qed.

Lemma scale_neg (u v : F64.float) :
  scale u (F64.neg v) = rbind (scale u v) (fun z => Ok (- z)).
Proof.
unfold scale, F64.truediv.
destruct (F64.eqb u F64.zero); [reflexivity|].
cbn [rbind]. rewrite neg_div. apply to_int_neg.
Qed.

Lemma list_byte_of_string_app (s1 s2 : string) :
  list_byte_of_string (s1 ++ s2) = list_byte_of_string s1 ++ list_byte_of_string s2.
Proof.
unfold list_byte_of_string.
induction s1 as [|c s1 IH]; [reflexivity|].
cbn [String.append list_ascii_of_string map app]. now rewrite IH.
Qed.

Lemma length_bytes_of_string (s : string) :
  List.length (list_byte_of_string s) = String.length s.
Proof.
unfold list_byte_of_string.
induction s as [|c s IH]; [reflexivity|].
cbn [list_ascii_of_string map List.length String.length]. now rewrite IH.
Qed.

End BoundaryFacts.

(** X4.  A boundary element reads back as it was given.  When the
    coordinate block of [points] can be written, [write_boundary] on an
    open, empty file succeeds, and a reader of the file recovers the
    layer, the datatype and the scaled coordinates (negative ones
    included: the 4-byte fields are two's complement), two per point in
    point order.  The point list may be empty. *)
Theorem write_boundary_reads_back (w : GDSWriter.t) (layer datatype : Z)
    (points : list (F64.float * F64.float)) (coords : list Z) :
  GDSWriter.closed (GDSWriter.file w) = false ->
  GDSWriter.contents (GDSWriter.file w) = [] ->
  uint16 layer -> uint16 datatype ->
  GDSWriter.scale_points (GDSWriter.unit w) points = Ok coords ->
  writable (GDSWriter.unit w) points = true ->
  let run := GDSWriter.write_boundary layer datatype points w in
  fst run = Ok tt
  /\ match Reader.read_stream (GDSWriter.contents (GDSWriter.file (snd run))) with
     | Some rs => Reader.read_boundary rs
     | None => None
     end = Some (layer, datatype, coords)
  /\ List.length coords = (2 * List.length points)%nat.
Proof.
intros Hopen Hempty Hlayer Hdt Hscale Hw run; unfold run.
rewrite (write_boundary_ok w layer datatype points coords) by assumption.
split; [reflexivity|]. split; [|now apply scale_points_length with (u := GDSWriter.unit w)].
cbn [snd GDSWriter.appended GDSWriter.file GDSWriter.contents].
rewrite Hempty; cbn [app].
unfold writable in Hw; rewrite Hscale in Hw.
apply andb_prop in Hw as [Hall Hlen]. apply Z.leb_le in Hlen.
assert (Hrange : Forall int32 coords).
{ apply Forall_forall; intros v Hv.
  now apply (proj1 (forallb_forall _ _) Hall), int32b_spec in Hv. }
rewrite boundary_records_element.
unfold Reader.read_stream.
rewrite read_records_encode;
  [ | pose proof (length_stream (boundary_element layer datatype coords));
      cbn [boundary_element List.length] in *; lia
    | now apply boundary_element_well_formed ].
unfold boundary_element, Reader.read_boundary.
cbn [Reader.rectype Reader.payload Z.eqb Pos.eqb andb].
rewrite !unsigned_big_endian, read_coords_big_endian by assumption.
unfold uint16 in Hlayer, Hdt.
rewrite !Z.mod_small by (simpl; lia). reflexivity.
Qed.

(** A run of X4: a triangle with a negative coordinate. *)
Lemma write_boundary_reads_back_witness :
  let w := GDSWriter.init "layout.gds" in
  let points := [(F64.lit 0 1, F64.lit 0 1); (F64.lit 15 1, F64.neg (F64.lit 25 2));
                 (F64.lit 0 1, F64.lit 0 1)] in
  let run := GDSWriter.write_boundary 3 0 points w in
  fst run = Ok tt
  /\ match Reader.read_stream (GDSWriter.contents (GDSWriter.file (snd run))) with
     | Some rs => Reader.read_boundary rs
     | None => None
     end = Some (3, 0, [0; 0; 1500000; -250000; 0; 0])
  /\ List.length [0; 0; 1500000; -250000; 0; 0] = (2 * List.length points)%nat.
Proof.
apply (write_boundary_reads_back (GDSWriter.init "layout.gds") 3 0
         [(F64.lit 0 1, F64.lit 0 1); (F64.lit 15 1, F64.neg (F64.lit 25 2));
          (F64.lit 0 1, F64.lit 0 1)]
         [0; 0; 1500000; -250000; 0; 0]).
- reflexivity.
- reflexivity.
- unfold uint16; lia.
- unfold uint16; lia.
- vm_compute; reflexivity.
- vm_compute; reflexivity.
Defined.

(** X5.  A boundary element whose coordinate block cannot be written is
    left open.  On an open file, when a quotient does not convert (zero
    unit size, NaN, infinity), a coordinate does not fit 32 bits, or the
    block is too long for one record, [write_boundary] raises (the
    exception of the scaling loop, else [struct.error]) after the
    boundary, layer and datatype records were written: the file holds
    those three records and neither coordinates nor an end marker. *)
Theorem write_boundary_left_open (w : GDSWriter.t) (layer datatype : Z)
    (points : list (F64.float * F64.float)) :
  GDSWriter.closed (GDSWriter.file w) = false ->
  uint16 layer -> uint16 datatype ->
  writable (GDSWriter.unit w) points = false ->
  GDSWriter.write_boundary layer datatype points w
  = (Raise (boundary_failure (GDSWriter.unit w) points),
     GDSWriter.appended w (boundary_opening layer datatype)).
Proof.
intros Hopen Hlayer Hdt Hw.
rewrite write_boundary_opening by assumption.
unfold writable in Hw; unfold boundary_failure.
unfold bind, lift. cbn [GDSWriter.unit GDSWriter.appended].
destruct (GDSWriter.scale_points (GDSWriter.unit w) points) as [coords|e];
  [|reflexivity].
destruct (forallb int32b coords) eqn:Hall; cbn [andb] in Hw.
- apply Z.leb_gt in Hw.
  assert (Hrange : Forall (fun v => - 2 ^ 31 <= v <= 2 ^ 31 - 1) coords).
  { apply Forall_forall; intros v Hv.
    now apply (proj1 (forallb_forall _ _) Hall), int32b_spec in Hv. }
  unfold Struct.pack_i; rewrite (pack_all_ok 4 _ _ _ Hrange).
  now rewrite write_record_too_long by (rewrite length_concat_big_endian; lia).
- unfold Struct.pack_i.
  now rewrite (pack_all_out_of_range 4 _ _ coords Hall).
Qed.

(** A run of X5: the abscissa 3000.0 scales to 3000000000, beyond 32
    bits. *)
Lemma write_boundary_left_open_witness :
  GDSWriter.write_boundary 1 0 [(F64.lit 3000 0, F64.lit 0 1)]
                           (GDSWriter.init "layout.gds")
  = (Raise StructError,
     GDSWriter.appended (GDSWriter.init "layout.gds") (boundary_opening 1 0)).
Proof.
apply (write_boundary_left_open (GDSWriter.init "layout.gds") 1 0
         [(F64.lit 3000 0, F64.lit 0 1)]).
- reflexivity.
- unfold uint16; lia.
- unfold uint16; lia.
- vm_compute; reflexivity.
Defined.

(** X6.  The scaling to database units is odd: mirroring every point
    about the origin negates every coordinate, and fails exactly when
    the original fails, with the same exception.  ([int] truncates
    toward zero; a floor would break this.) *)
Theorem scale_points_mirrored (u : F64.float) (points : list (F64.float * F64.float)) :
  GDSWriter.scale_points u (mirrored points)
  = rbind (GDSWriter.scale_points u points) (fun coords => Ok (map Z.opp coords)).
Proof.
induction points as [|[x y] rest IH]; [reflexivity|].
unfold mirrored in *; cbn [map fst snd GDSWriter.scale_points].
rewrite !scale_neg, IH.
destruct (GDSWriter.scale u x) as [cx|]; [|reflexivity].
destruct (GDSWriter.scale u y) as [cy|]; [|reflexivity].
destruct (GDSWriter.scale_points u rest) as [cs|]; reflexivity.
Qed.

Section LibraryFacts.

Import GDSWriter.

Lemma write_header_ok (w : t) (now : datetime) :
  closed (file w) = false ->
  datetime_ok now = true ->
  write_header now w
  = (Ok tt, appended w (header_records now (precision w) (unit w))).
Proof.
intros Hopen Hnow.
unfold write_header, bind, lift, Struct.pack_H.
rewrite pack_int_ok by lia.
rewrite write_record_ok by (first [assumption | simpl; lia]).
rewrite (pack_all_ok 2 0 65535 _ (timestamp_pair_range now Hnow)).
rewrite write_record_ok
  by (first [apply appended_open | rewrite ?length_concat_big_endian; simpl; lia]).
rewrite write_record_ok by (first [apply appended_open | simpl; lia]).
rewrite write_record_ok
  by (first [apply appended_open
            | unfold Struct.pack_d; rewrite ?length_app, ?length_big_endian; simpl; lia
            | lia]).
rewrite !appended_appended.
unfold header_records. now rewrite <- ?app_assoc.
Qed.

Lemma begin_structure_run (w : t) (now : datetime) (name : string) :
  closed (file w) = false ->
  datetime_ok now = true ->
  5 + Z.of_nat (String.length name) <= 65535 ->
  begin_structure now name w
  = if forallb (fun b => Byte.to_N b <? 128)%N (list_byte_of_string name)
    then (Ok tt, appended w (structure_opening now (list_byte_of_string name)))
    else (Raise UnicodeEncodeError,
          appended w
            (record_bytes 0x05 0x02
               (List.concat (map (Struct.big_endian 2) (timestamp_pair now))))).
Proof.
intros Hopen Hnow Hlen.
unfold begin_structure, bind, lift, Struct.pack_H.
rewrite (pack_all_ok 2 0 65535 _ (timestamp_pair_range now Hnow)).
rewrite write_record_ok
  by (first [assumption | rewrite ?length_concat_big_endian; simpl; lia]).
unfold encode_ascii.
rewrite list_byte_of_string_app, forallb_app.
change (list_byte_of_string (String (ascii_of_byte x00) EmptyString)) with [x00].
cbn [forallb]. change (Byte.to_N x00 <? 128)%N with true. cbn [andb].
rewrite andb_true_r.
destruct (forallb _ (list_byte_of_string name)); [|reflexivity].
rewrite write_record_ok
  by (first [apply appended_open
            | rewrite ?length_app, ?length_bytes_of_string; cbn [List.length]; lia]).
rewrite appended_appended. unfold structure_opening. reflexivity.
Qed.

Lemma writable_scaled (u : F64.float) (points : list (F64.float * F64.float)) :
  writable u points = true ->
  scale_points u points = Ok (scaled u points)
  /\ 4 + 4 * Z.of_nat (List.length (scaled u points)) <= 65535.
Proof.
unfold writable, scaled.
destruct (scale_points u points) as [cs|]; [|discriminate].
intros H; apply andb_prop in H as [_ H]. apply Z.leb_le in H. now split.
Qed.

Lemma write_boundaries_ok (layer datatype : Z)
    (polys : list (list (F64.float * F64.float))) (w : t) :
  closed (file w) = false ->
  uint16 layer -> uint16 datatype ->
  forallb (writable (unit w)) polys = true ->
  for_each (write_boundary layer datatype) polys w
  = (Ok tt,
     appended w
       (List.concat
          (map Reader.encode
             (List.concat
                (map (fun points => boundary_element layer datatype
                                      (scaled (unit w) points)) polys))))).
Proof.
intros Hopen Hlayer Hdt. revert w Hopen.
induction polys as [|points polys IH]; intros w Hopen Hall.
- cbn [for_each map List.concat]. unfold ret. now rewrite appended_nil.
- cbn [forallb] in Hall. apply andb_prop in Hall as [Hw Hall].
  cbn [for_each map List.concat]; unfold bind.
  rewrite (write_boundary_ok w layer datatype points (scaled (unit w) points))
    by (first [assumption | apply writable_scaled; assumption]).
  rewrite IH by (first [apply appended_open | exact Hall]).
  rewrite appended_appended, map_app, concat_app, boundary_records_element.
  reflexivity.
Qed.

Lemma boundary_elements_well_formed (layer datatype : Z) (u : F64.float)
    (polys : list (list (F64.float * F64.float))) :
  forallb (writable u) polys = true ->
  Forall Reader.well_formed
    (List.concat (map (fun points => boundary_element layer datatype (scaled u points))
                      polys)).
Proof.
induction polys as [|points polys IH]; intros Hall; [constructor|].
cbn [forallb] in Hall. apply andb_prop in Hall as [Hw Hall].
cbn [map List.concat]. apply Forall_app; split; [|now apply IH].
apply boundary_element_well_formed. now apply writable_scaled.
Qed.

Lemma boundary_elements_kinds (layer datatype : Z) (u : F64.float)
    (polys : list (list (F64.float * F64.float))) :
  map Reader.rectype
    (List.concat (map (fun points => boundary_element layer datatype (scaled u points))
                      polys))
  = List.concat (repeat [0x08; 0x0D; 0x0E; 0x10; 0x11] (List.length polys)).
Proof.
induction polys as [|points polys IH]; [reflexivity|].
cbn [map List.concat List.length repeat]. rewrite map_app, IH. reflexivity.
Qed.

End LibraryFacts.

(** X7.  [begin_structure] on an open file.  For a name of ASCII
    characters it appends two records, the timestamp pair and the name
    followed by a zero byte.  For a name with a character beyond ASCII it
    raises [UnicodeEncodeError] after the timestamp record was written,
    which leaves a structure header without a name in the file.  (Names
    range over the code points below 256.) *)
Theorem begin_structure_records (w : GDSWriter.t) (now : datetime) (name : string) :
  GDSWriter.closed (GDSWriter.file w) = false ->
  datetime_ok now = true ->
  5 + Z.of_nat (String.length name) <= 65535 ->
  GDSWriter.begin_structure now name w
  = if forallb (fun b => Byte.to_N b <? 128)%N (list_byte_of_string name)
    then (Ok tt,
          GDSWriter.appended w (structure_opening now (list_byte_of_string name)))
    else (Raise UnicodeEncodeError,
          GDSWriter.appended w
            (GDSWriter.record_bytes 0x05 0x02
               (List.concat (map (Struct.big_endian 2) (GDSWriter.timestamp_pair now))))).
Proof.
exact (begin_structure_run w now name).
Qed.

(** A run of X7 on the name [TOP]. *)
Lemma begin_structure_records_witness :
  let w := GDSWriter.init "layout.gds" in
  let now := mk_datetime 2026 11 3 9 34 7 in
  GDSWriter.begin_structure now "TOP" w
  = (Ok tt, GDSWriter.appended w (structure_opening now [x54; x4f; x50])).
Proof.
apply (begin_structure_records (GDSWriter.init "layout.gds")
         (mk_datetime 2026 11 3 9 34 7) "TOP").
- reflexivity.
- reflexivity.
- simpl; lia.
Defined.

(** X8.  A whole library.  On an open, empty file, the calls
    [write_header], [begin_structure], one [write_boundary] per polygon,
    [end_structure], [close] succeed when the name is ASCII and every
    polygon's coordinate block can be written.  The file is then closed,
    and it reads back as the header's four records, the structure's two,
    five per polygon in order, the structure end and the library end:
    the record kinds follow the grammar of [library_kinds]. *)
Theorem write_library_stream (w : GDSWriter.t) (now : datetime) (name : string)
    (layer datatype : Z) (polys : list (list (F64.float * F64.float))) :
  GDSWriter.closed (GDSWriter.file w) = false ->
  GDSWriter.contents (GDSWriter.file w) = [] ->
  datetime_ok now = true ->
  forallb (fun b => Byte.to_N b <? 128)%N (list_byte_of_string name) = true ->
  5 + Z.of_nat (String.length name) <= 65535 ->
  uint16 layer -> uint16 datatype ->
  forallb (writable (GDSWriter.unit w)) polys = true ->
  let run := write_library now name layer datatype polys w in
  let records := library_records now name layer datatype
                   (GDSWriter.unit w) (GDSWriter.precision w) polys in
  fst run = Ok tt
  /\ GDSWriter.closed (GDSWriter.file (snd run)) = true
  /\ Reader.read_stream (GDSWriter.contents (GDSWriter.file (snd run))) = Some records
  /\ map Reader.rectype records = library_kinds (List.length polys).
Proof.
intros Hopen Hempty Hnow Hascii Hname Hlayer Hdt Hall run records.
assert (Hwf : Forall Reader.well_formed records).
{ unfold records, library_records.
  apply Forall_app; split; [|apply Forall_app; split].
  - repeat (apply Forall_cons; [unfold Reader.well_formed;
      cbn [Reader.rectype Reader.datatype Reader.payload];
      unfold Struct.pack_d;
      change (List.length GDSWriter.libname) with 14%nat;
      rewrite ?length_app, ?length_big_endian, ?length_concat_big_endian,
              ?length_bytes_of_string;
      cbn [List.length GDSWriter.timestamp_pair app]; lia|]).
    apply Forall_nil.
  - now apply boundary_elements_well_formed.
  - repeat constructor; simpl; lia. }
assert (Hrun : run = (Ok tt,
                      snd (GDSWriter.file_close
                             (GDSWriter.appended w
                                (List.concat (map Reader.encode records)))))).
{ unfold run, write_library.
  unfold bind at 1. rewrite write_header_ok by assumption.
  unfold bind at 1.
  rewrite begin_structure_run by (first [apply appended_open | assumption]).
  rewrite Hascii.
  unfold bind at 1.
  rewrite write_boundaries_ok
    by (first [apply appended_open | assumption]).
  unfold bind at 1. unfold GDSWriter.end_structure.
  rewrite write_record_ok by (first [apply appended_open | simpl; lia]).
  unfold GDSWriter.close, bind.
  rewrite write_record_ok by (first [apply appended_open | simpl; lia]).
  rewrite !appended_appended.
  unfold GDSWriter.file_close; cbn [snd]. f_equal. f_equal. f_equal.
  cbn [GDSWriter.appended GDSWriter.file GDSWriter.contents GDSWriter.unit].
  f_equal.
  unfold records, library_records, header_records, structure_opening, Reader.encode.
  rewrite !map_app, !concat_app.
  cbn [map List.concat Reader.rectype Reader.datatype Reader.payload].
  rewrite <- ?app_assoc, ?app_nil_r. reflexivity. }
rewrite Hrun. cbn [fst snd GDSWriter.file_close GDSWriter.file GDSWriter.closed
                   GDSWriter.contents GDSWriter.appended].
split; [reflexivity|]. split; [reflexivity|]. split.
- rewrite Hempty; cbn [app]. unfold Reader.read_stream.
  apply read_records_encode; [|exact Hwf].
  pose proof (length_stream records); lia.
- unfold records, library_records, library_kinds.
  rewrite !map_app, boundary_elements_kinds. reflexivity.
Qed.

(** A run of X8: a library with a triangle and an empty polygon. *)
Lemma write_library_stream_witness :
  let w := GDSWriter.init "layout.gds" in
  let now := mk_datetime 2026 11 3 9 34 7 in
  let polys := [ [(F64.lit 0 1, F64.lit 0 1); (F64.lit 15 1, F64.neg (F64.lit 25 2));
                  (F64.lit 0 1, F64.lit 0 1)]; [] ] in
  let run := write_library now "TOP" 1 0 polys w in
  let records := library_records now "TOP" 1 0
                   (GDSWriter.unit w) (GDSWriter.precision w) polys in
  fst run = Ok tt
  /\ GDSWriter.closed (GDSWriter.file (snd run)) = true
  /\ Reader.read_stream (GDSWriter.contents (GDSWriter.file (snd run))) = Some records
  /\ map Reader.rectype records = library_kinds (List.length polys).
Proof.
apply (write_library_stream (GDSWriter.init "layout.gds")
         (mk_datetime 2026 11 3 9 34 7) "TOP" 1 0
         [ [(F64.lit 0 1, F64.lit 0 1); (F64.lit 15 1, F64.neg (F64.lit 25 2));
            (F64.lit 0 1, F64.lit 0 1)]; [] ]).
- reflexivity.
- reflexivity.
- reflexivity.
- reflexivity.
- simpl; lia.
- unfold uint16; lia.
- unfold uint16; lia.
- vm_compute; reflexivity.
Defined.

Section Appending.

Import GDSWriter.

(** A computation that only appends to the file. *)
Let appends {A : Type} (c : M t A) : Prop := forall w, grows w (snd (c w)).

Lemma grows_refl (w : t) : grows w w.
Proof. repeat split. exists []. now rewrite app_nil_r. Qed.

Lemma grows_trans (w1 w2 w3 : t) : grows w1 w2 -> grows w2 w3 -> grows w1 w3.
Proof.
intros (Hf & Hu & Hp & b1 & H1) (Hf' & Hu' & Hp' & b2 & H2).
repeat split; try congruence.
exists (b1 ++ b2). now rewrite H2, H1, app_assoc.
Qed.

Lemma appends_lift {A : Type} (r : result A) : appends (lift r).
Proof. intros w. apply grows_refl. Qed.

Lemma appends_bind {A B : Type} (c : M t A) (k : A -> M t B) :
  appends c -> (forall a, appends (k a)) -> appends (bind c k).
Proof.
intros Hc Hk w. unfold bind.
specialize (Hc w). destruct (c w) as [[a|e] w1]; cbn [snd] in *.
- eapply grows_trans; [exact Hc|apply Hk].
- exact Hc.
Qed.

Lemma appends_file_write (data : list byte) : appends (file_write data).
Proof.
intros w. unfold file_write.
destruct (closed (file w)); cbn [snd]; [apply grows_refl|].
repeat split. now exists data.
Qed.

Lemma appends_file_close : appends file_close.
Proof.
intros w. unfold file_close; cbn [snd].
repeat split. exists []. cbn. now rewrite app_nil_r.
Qed.

Lemma appends_write_record (rectype datatype : Z) (data : list byte) :
  appends (write_record rectype datatype data).
Proof.
unfold write_record.
repeat first [ apply appends_bind; [|intros ?]
             | apply appends_lift
             | apply appends_file_write ].
Qed.

Ltac appends_step :=
  first [ apply appends_write_record
        | apply appends_file_close
        | apply appends_lift
        | apply appends_bind; [|intros ?]
        | let w := fresh "w" in
          intros w; cbv beta;
          match goal with
          | |- grows w (snd (?c w)) =>
              let H := fresh in assert (H : appends c); [|exact (H w)]
          end ].

Lemma appends_write_header (now : datetime) : appends (write_header now).
Proof. unfold write_header. repeat appends_step. Qed.

Lemma appends_begin_structure (now : datetime) (name : string) :
  appends (begin_structure now name).
Proof. unfold begin_structure. repeat appends_step. Qed.

Lemma appends_write_boundary (layer datatype : Z)
    (points : list (F64.float * F64.float)) :
  appends (write_boundary layer datatype points).
Proof. unfold write_boundary. repeat appends_step. Qed.

Lemma appends_close : appends close.
Proof. unfold close. repeat appends_step. Qed.

End Appending.

(** X9.  The encoder only ever appends.  Whatever method is called,
    with whatever arguments, and whether it returns or raises, the bytes
    already in the file stay where they are, new bytes go after them,
    and the file name, the unit size and the precision are untouched. *)
Theorem encoder_only_appends (w w' : GDSWriter.t) :
  method_call w w' -> grows w w'.
Proof.
intros [rt dt data r H|now r H|now name r H|r H|layer dt points r H|r H].
- pose proof (appends_write_record rt dt data w) as G. now rewrite H in G.
- pose proof (appends_write_header now w) as G. now rewrite H in G.
- pose proof (appends_begin_structure now name w) as G. now rewrite H in G.
- pose proof (appends_write_record 0x07 0x00 [] w) as G.
  unfold GDSWriter.end_structure in H. now rewrite H in G.
- pose proof (appends_write_boundary layer dt points w) as G. now rewrite H in G.
- pose proof (appends_close w) as G. now rewrite H in G.
Qed.

(** A run of X9: a [write_record] that raises on the tag 256. *)
Lemma encoder_only_appends_witness :
  grows (GDSWriter.init "layout.gds")
        (snd (GDSWriter.write_record 0x100 0x00 [] (GDSWriter.init "layout.gds"))).
Proof.
apply (encoder_only_appends (GDSWriter.init "layout.gds")
         (snd (GDSWriter.write_record 0x100 0x00 [] (GDSWriter.init "layout.gds")))).
apply (call_write_record _ _ 0x100 0x00 [] (Raise StructError)).
reflexivity.
Defined.

(* ================================================================== *)
(** * Binary64: a difference is zero only between equal floats         *)
(* ================================================================== *)

Section Subtraction.

Let emin : Z := SpecFloat.emin F64.prec F64.emax.
Let fexp : Z -> Z := SpecFloat.fexp F64.prec F64.emax.

Lemma fexp_ge_emin (k : Z) : emin <= fexp k.
Proof. unfold fexp, SpecFloat.fexp, emin. lia. Qed.

Lemma digits2_pos_bounds (p : positive) :
  2 ^ (Z.pos (digits2_pos p) - 1) <= Z.pos p < 2 ^ Z.pos (digits2_pos p).
Proof.
induction p as [p IH|p IH|]; cbn [digits2_pos].
- rewrite Pos2Z.inj_succ, Z.pow_succ_r by lia.
  replace (Z.succ (Z.pos (digits2_pos p)) - 1) with (Z.succ (Z.pos (digits2_pos p) - 1))
    by lia.
  rewrite Z.pow_succ_r by lia. lia.
- rewrite Pos2Z.inj_succ, Z.pow_succ_r by lia.
  replace (Z.succ (Z.pos (digits2_pos p)) - 1) with (Z.succ (Z.pos (digits2_pos p) - 1))
    by lia.
  rewrite Z.pow_succ_r by lia. lia.
- cbn. lia.
Qed.

Lemma shr_1_m (r : shr_record) :
  0 <= shr_m r -> shr_m (shr_1 r) = shr_m r / 2.
Proof.
destruct r as [m r s]; cbn [shr_m]; intros Hm.
destruct m as [|[p|p|]|p]; cbn [shr_1 shr_m]; try lia; try reflexivity.
- apply Z.div_unique with 1; lia.
- apply Z.div_unique with 0; lia.
Qed.

Lemma iter_shr_1_m (n : positive) (r : shr_record) :
  0 <= shr_m r -> shr_m (SpecFloat.iter_pos shr_1 n r) = shr_m r / 2 ^ Z.pos n.
Proof.
revert r; induction n as [n IH|n IH|]; intros r Hm; cbn [SpecFloat.iter_pos].
- assert (Hp : 0 < 2 ^ Z.pos n) by (apply Z.pow_pos_nonneg; lia).
  assert (H1 : 0 <= shr_m (shr_1 r)) by (rewrite shr_1_m by lia; apply Z.div_pos; lia).
  assert (H2 : 0 <= shr_m (SpecFloat.iter_pos shr_1 n (shr_1 r)))
    by (rewrite IH by lia; apply Z.div_pos; lia).
  rewrite IH, IH, shr_1_m by lia.
  rewrite !Z.div_div by lia.
  f_equal. rewrite Pos2Z.inj_xI.
  replace (2 * Z.pos n + 1) with (1 + Z.pos n + Z.pos n) by lia.
  rewrite !Z.pow_add_r by lia. change (2 ^ 1) with 2. lia.
- assert (Hp : 0 < 2 ^ Z.pos n) by (apply Z.pow_pos_nonneg; lia).
  assert (H2 : 0 <= shr_m (SpecFloat.iter_pos shr_1 n r))
    by (rewrite IH by lia; apply Z.div_pos; lia).
  rewrite IH, IH by lia.
  rewrite !Z.div_div by lia.
  f_equal. rewrite <- Z.pow_add_r by lia. f_equal. lia.
- rewrite shr_1_m by lia. reflexivity.
Qed.

Lemma shr_record_of_loc_m (m : Z) (l : location) : shr_m (shr_record_of_loc m l) = m.
Proof. now destruct l as [|[]]. Qed.

(** Rounding a positive mantissa at an exponent that is not below the
    smallest one keeps it positive: the shift drops fewer bits than the
    mantissa has. *)
Lemma shr_fexp_pos (m e : Z) (l : location) :
  0 < m -> emin <= e ->
  0 < shr_m (fst (shr_fexp F64.prec F64.emax m e l))
  /\ emin <= snd (shr_fexp F64.prec F64.emax m e l).
Proof.
intros Hm He. destruct m as [|p|p]; try lia.
unfold shr_fexp, shr. cbn [Zdigits2].
pose proof (digits2_pos_bounds p) as [Hlo Hhi].
set (d := Z.pos (digits2_pos p)) in *.
assert (Hn : SpecFloat.fexp F64.prec F64.emax (d + e) - e <= d - 1).
{ unfold emin, SpecFloat.fexp, SpecFloat.emin, F64.prec, F64.emax in *. lia. }
destruct (SpecFloat.fexp F64.prec F64.emax (d + e) - e) as [|q|q] eqn:En;
  cbn [fst snd]; rewrite ?shr_record_of_loc_m; try lia.
split; [|lia].
rewrite iter_shr_1_m by (rewrite shr_record_of_loc_m; lia).
rewrite shr_record_of_loc_m.
assert (Hq : 2 ^ Z.pos q <= 2 ^ (d - 1)) by (apply Z.pow_le_mono_r; lia).
assert (Hp : 0 < 2 ^ Z.pos q) by (apply Z.pow_pos_nonneg; lia).
apply Z.lt_le_trans with 1; [lia|].
apply Z.div_le_lower_bound; lia.
Qed.

Lemma round_nearest_even_pos (m : Z) (l : location) :
  0 < m -> 0 < round_nearest_even m l.
Proof. intros Hm. destruct l as [|[]]; cbn; try destruct (Z.even m); lia. Qed.

Lemma binary_round_aux_nonzero (s : bool) (m e : Z) (l : location) :
  0 < m -> emin <= e ->
  F64.eqb (binary_round_aux F64.prec F64.emax s m e l) F64.zero = false.
Proof.
intros Hm He. unfold binary_round_aux.
pose proof (shr_fexp_pos m e l Hm He) as [H1 H1'].
destruct (shr_fexp F64.prec F64.emax m e l) as [mrs e']; cbn [fst snd] in H1, H1'.
pose proof (shr_fexp_pos _ e' loc_Exact
              (round_nearest_even_pos _ (loc_of_shr_record mrs) H1) H1') as [H2 _].
destruct (shr_fexp F64.prec F64.emax _ e' loc_Exact) as [mrs' e'']; cbn [fst] in H2.
destruct (shr_m mrs') as [|q|q]; try lia.
destruct (e'' <=? F64.emax - F64.prec); now destruct s.
Qed.

Lemma binary_round_nonzero (s : bool) (m : positive) (e : Z) :
  emin <= e ->
  F64.eqb (binary_round F64.prec F64.emax s m e) F64.zero = false.
Proof.
intros He. unfold binary_round, shl_align.
pose proof (fexp_ge_emin (Z.pos (digits2_pos m) + e)) as Hf. unfold fexp in Hf.
destruct (SpecFloat.fexp F64.prec F64.emax (Z.pos (digits2_pos m) + e) - e);
  apply binary_round_aux_nonzero; lia.
Qed.

Lemma binary_normalize_nonzero (m e : Z) :
  m <> 0 -> emin <= e ->
  F64.eqb (binary_normalize F64.prec F64.emax m e false) F64.zero = false.
Proof.
intros Hm He. destruct m; [lia| |]; now apply binary_round_nonzero.
Qed.

Lemma iter_xO_value (m d : positive) : Z.pos (Pos.iter xO m d) = Z.pos m * 2 ^ Z.pos d.
Proof.
induction d as [|d IH] using Pos.peano_ind.
- cbn [Pos.iter]. change (2 ^ 1) with 2. lia.
- rewrite Pos.iter_succ, Pos2Z.inj_xO, IH, Pos2Z.inj_succ, Z.pow_succ_r by lia. lia.
Qed.

(** Aligning a mantissa to a smaller exponent multiplies it by the
    power of two between the exponents. *)
Lemma shl_align_value (m : positive) (e e' : Z) :
  e' <= e -> Z.pos (fst (shl_align m e e')) = Z.pos m * 2 ^ (e - e').
Proof.
intros He. unfold shl_align.
destruct (e' - e) as [|d|d] eqn:Ed; cbn [fst]; try lia.
- replace (e - e') with 0 by lia. lia.
- rewrite iter_xO_value. f_equal. f_equal. lia.
Qed.

Lemma valid_canonical (s : bool) (m : positive) (e : Z) :
  F64.valid (S754_finite s m e) = true ->
  SpecFloat.fexp F64.prec F64.emax (Z.pos (digits2_pos m) + e) = e.
Proof.
unfold F64.valid, valid_binary, bounded, canonical_mantissa.
intros H. apply andb_prop in H as [H _]. now apply Z.eqb_eq.
Qed.

(** Two canonical mantissas at different exponents denote different
    numbers. *)
Lemma canonical_distinct (mx my : positive) (ex ey : Z) :
  SpecFloat.fexp F64.prec F64.emax (Z.pos (digits2_pos mx) + ex) = ex ->
  SpecFloat.fexp F64.prec F64.emax (Z.pos (digits2_pos my) + ey) = ey ->
  ex < ey ->
  Z.pos mx <> Z.pos my * 2 ^ (ey - ex).
Proof.
intros Cx Cy Hlt E.
pose proof (digits2_pos_bounds mx) as [Hxl Hxh].
pose proof (digits2_pos_bounds my) as [Hyl Hyh].
set (dx := Z.pos (digits2_pos mx)) in *. set (dy := Z.pos (digits2_pos my)) in *.
assert (Hk : 0 < 2 ^ (ey - ex)) by (apply Z.pow_pos_nonneg; lia).
assert (Hd : dx = dy + (ey - ex)).
{ assert (H1 : 2 ^ (dx - 1) < 2 ^ (dy + (ey - ex))).
  { rewrite Z.pow_add_r by lia. nia. }
  assert (H2 : 2 ^ (dy - 1 + (ey - ex)) < 2 ^ dx).
  { rewrite Z.pow_add_r by lia. nia. }
  apply Z.pow_lt_mono_r_iff in H1; [|lia|lia].
  apply Z.pow_lt_mono_r_iff in H2; [|lia|lia].
  lia. }
unfold SpecFloat.fexp, SpecFloat.emin, F64.prec, F64.emax in Cx, Cy. lia.
Qed.

Lemma eqb_finite_true (sx sy : bool) (mx my : positive) (ex ey : Z) :
  F64.eqb (S754_finite sx mx ex) (S754_finite sy my ey) = true
  <-> sx = sy /\ mx = my /\ ex = ey.
Proof.
unfold F64.eqb, SFeqb, SFcompare. split.
- intros H.
  destruct sx, sy; try discriminate H;
    destruct (Z.compare_spec ex ey) as [He|He|He]; try discriminate H;
    (split; [reflexivity|split; [|exact He]]);
    apply Pos.compare_eq;
    change (Pos.compare mx my) with (Pos.compare_cont Eq mx my);
    now destruct (Pos.compare_cont Eq mx my).
- intros (-> & -> & ->). rewrite Z.compare_refl.
  change (Pos.compare_cont Eq my my) with (Pos.compare my my).
  rewrite Pos.compare_refl. now destruct sy.
Qed.

(** In binary64 a difference of finite numbers compares equal to zero
    exactly when the numbers compare equal: gradual underflow leaves no
    gap around zero. *)
Lemma sub_eqb_zero_iff (x y : F64.float) :
  F64.is_finite x = true -> F64.is_finite y = true ->
  F64.valid x = true -> F64.valid y = true ->
  F64.eqb (F64.sub x y) F64.zero = F64.eqb x y.
Proof.
intros Fx Fy Vx Vy.
destruct x as [sx|sx| |sx mx ex], y as [sy|sy| |sy my ey];
  try discriminate Fx; try discriminate Fy.
- now destruct sx, sy.
- now destruct sy.
- now destruct sx.
- destruct (F64.eqb (S754_finite sx mx ex) (S754_finite sy my ey)) eqn:E.
  + now apply sub_eqb_zero.
  + pose proof (valid_canonical _ _ _ Vx) as Cx.
    pose proof (valid_canonical _ _ _ Vy) as Cy.
    assert (Hex : emin <= ex) by (rewrite <- Cx; apply fexp_ge_emin).
    assert (Hey : emin <= ey) by (rewrite <- Cy; apply fexp_ge_emin).
    unfold F64.sub, SFsub.
    apply binary_normalize_nonzero; [|lia].
    rewrite !shl_align_value by lia.
    intros D. apply Bool.not_true_iff_false in E. apply E.
    apply eqb_finite_true.
    assert (Hpx : 0 < 2 ^ (ex - Z.min ex ey)) by (apply Z.pow_pos_nonneg; lia).
    assert (Hpy : 0 < 2 ^ (ey - Z.min ex ey)) by (apply Z.pow_pos_nonneg; lia).
    assert (Hs : sx = sy).
    { destruct sx, sy; cbn [cond_Zopp] in D; try reflexivity; exfalso; nia. }
    subst sy.
    assert (Hv : Z.pos mx * 2 ^ (ex - Z.min ex ey) = Z.pos my * 2 ^ (ey - Z.min ex ey)).
    { destruct sx; cbn [cond_Zopp] in D; lia. }
    destruct (Z.lt_trichotomy ex ey) as [Hlt|[Heq|Hgt]].
    * exfalso. rewrite Z.min_l in Hv by lia.
      replace (ex - ex) with 0 in Hv by lia. rewrite Z.pow_0_r, Z.mul_1_r in Hv.
      now apply (canonical_distinct mx my ex ey Cx Cy Hlt).
    * subst ey. rewrite Z.min_id in Hv.
      replace (ex - ex) with 0 in Hv by lia. rewrite Z.pow_0_r, !Z.mul_1_r in Hv.
      repeat split. congruence.
    * exfalso. rewrite Z.min_r in Hv by lia.
      replace (ey - ey) with 0 in Hv by lia. rewrite Z.pow_0_r, Z.mul_1_r in Hv.
      apply (canonical_distinct my mx ey ex Cy Cx); [lia|]. now symmetry.
Qed.

End Subtraction.

(** X15.  In binary64 the guard of [waveguide_path] tests the endpoints
    themselves.  For finite coordinates and any [math.hypot] with the
    zero law, the strip is a no-op when the endpoints compare equal, and
    otherwise one closed polygon of four or five points in the given
    colour is registered and returned, however close the endpoints are:
    the difference of two distinct doubles never rounds to zero. *)
Theorem waveguide_path_guard_binary64 (L : Libm) (x0 y0 x1 y1 width : F64.float)
    (c : @color F64.float) (st : @polygons F64.float) :
  hypot_zero_law L ->
  forallb finite_double [x0; y0; x1; y1] = true ->
  if F64.eqb x1 x0 && F64.eqb y1 y0
  then @waveguide_path _ (F64_Arith L) x0 y0 x1 y1 width c st = (Ok None, st)
  else exists pts,
         @waveguide_path _ (F64_Arith L) x0 y0 x1 y1 width c st
         = (Ok (Some pts), st ++ [(pts, c)])
         /\ @closed_points _ (F64_Arith L) pts
         /\ (4 <= List.length pts <= 5)%nat.
Proof.
intros HL Hfin. cbn [forallb] in Hfin. unfold finite_double in Hfin.
repeat match type of Hfin with
       | _ && _ = true => apply andb_prop in Hfin as [? Hfin]
       end.
repeat match goal with
       | H : _ && _ = true |- _ => apply andb_prop in H as [? ?]
       end.
assert (Hguard : @zero_length _ (F64_Arith L) x0 y0 x1 y1
                 = F64.eqb x1 x0 && F64.eqb y1 y0).
{ rewrite (zero_length_law L HL). now rewrite !sub_eqb_zero_iff by assumption. }
destruct (F64.eqb x1 x0 && F64.eqb y1 y0).
- now apply waveguide_path_degenerate.
- unfold zero_length in Hguard. unfold waveguide_path. rewrite Hguard.
  unfold bind; rewrite (@add_polygon_cons _ (F64_Arith L)), (@stored_fresh _ (F64_Arith L));
    unfold ret.
  eexists; split; [reflexivity|]. split; [apply closed_up_closed|].
  unfold closed_up. destruct (negb _); cbn [List.length app]; lia.
Qed.

(** A run of X15: a strip between the two smallest positive doubles,
    [5e-324] and [1e-323], is registered. *)
Lemma waveguide_path_guard_binary64_witness :
  let A := F64_Arith RefLibm.libm in
  let x0 := S754_finite false 1 (-1074) in
  let x1 := S754_finite false 2 (-1074) in
  exists pts,
    @waveguide_path _ A x0 F64.zero x1 F64.zero (F64.lit 45 2) (@wg_grey _ A) []
    = (Ok (Some pts), [] ++ [(pts, @wg_grey _ A)])
    /\ @closed_points _ A pts
    /\ (4 <= List.length pts <= 5)%nat.
Proof.
apply (waveguide_path_guard_binary64 RefLibm.libm
         (S754_finite false 1 (-1074)) F64.zero (S754_finite false 2 (-1074)) F64.zero
         (F64.lit 45 2) (@wg_grey _ (F64_Arith RefLibm.libm)) []).
- exact RefLibm_hypot_zero_law.
- reflexivity.
Defined.

(* ================================================================== *)
(** * Binary64: the error of one rounding                              *)
(* ================================================================== *)

Section ShiftRecords.

(** The record [r] is what [k] right shifts leave of the integer [M]:
    the quotient, the last bit shifted out, and whether a bit below it
    was set. *)
Let tracks (M k : Z) (r : shr_record) : Prop :=
  shr_m r = M / 2 ^ k
  /\ (k = 0 -> shr_r r = false /\ shr_s r = false)
  /\ (1 <= k -> shr_r r = Z.odd (M / 2 ^ (k - 1))
               /\ (shr_s r = false <-> M mod 2 ^ (k - 1) = 0)).

Lemma shr_1_r (r : shr_record) : 0 <= shr_m r -> shr_r (shr_1 r) = Z.odd (shr_m r).
Proof.
destruct r as [m r s]; cbn [shr_m]; intros Hm.
destruct m as [|[p|p|]|p]; cbn [shr_1 shr_r]; try reflexivity; lia.
Qed.

Lemma shr_1_s (r : shr_record) : shr_s (shr_1 r) = shr_r r || shr_s r.
Proof.
destruct r as [m r s].
destruct m as [|[p|p|]|[p|p|]]; reflexivity.
Qed.

Lemma tracks_shr_1 (M k : Z) (r : shr_record) :
  0 <= M -> 0 <= k -> tracks M k r -> tracks M (k + 1) (shr_1 r).
Proof.
intros HM Hk (Hm & H0 & H1).
assert (Hp : 0 < 2 ^ k) by (apply Z.pow_pos_nonneg; lia).
assert (Hmr : 0 <= shr_m r) by (rewrite Hm; apply Z.div_pos; lia).
split; [|split].
- rewrite shr_1_m, Hm by exact Hmr.
  rewrite Z.div_div by lia. now rewrite Z.pow_add_r by lia.
- intros E; lia.
- intros _. replace (k + 1 - 1) with k by lia.
  split; [now rewrite shr_1_r, Hm by exact Hmr|].
  rewrite shr_1_s.
  destruct (Z.eq_dec k 0) as [->|Hk0].
  + destruct (H0 eq_refl) as [-> ->]. cbn [orb].
    rewrite Z.pow_0_r, Z.mod_1_r. tauto.
  + destruct (H1 ltac:(lia)) as [Hr Hs].
    assert (Hq : 0 < 2 ^ (k - 1)) by (apply Z.pow_pos_nonneg; lia).
    assert (Hsplit : M mod 2 ^ k
                     = M mod 2 ^ (k - 1) + 2 ^ (k - 1) * ((M / 2 ^ (k - 1)) mod 2)).
    { replace (2 ^ k) with (2 ^ (k - 1) * 2).
      - apply Z.rem_mul_r; lia.
      - rewrite Z.mul_comm, <- (Z.pow_succ_r 2 (k - 1)) by lia. f_equal; lia. }
    pose proof (Z.mod_pos_bound M (2 ^ (k - 1)) Hq) as Hb.
    pose proof (Z.mod_pos_bound (M / 2 ^ (k - 1)) 2 ltac:(lia)) as Hb2.
    rewrite Hr. rewrite Zodd_mod. rewrite orb_false_iff.
    rewrite Hs. rewrite Hsplit.
    destruct (Z.eqb_spec ((M / 2 ^ (k - 1)) mod 2) 1) as [E|E].
    * rewrite E. split; [intros [D _]; discriminate D|nia].
    * assert (E0 : (M / 2 ^ (k - 1)) mod 2 = 0) by lia.
      rewrite E0. split; [intros [_ D]; lia|intros D; split; [reflexivity|lia]].
Qed.

Lemma tracks_iter (M : Z) (p : positive) (k : Z) (r : shr_record) :
  0 <= M -> 0 <= k -> tracks M k r ->
  tracks M (k + Z.pos p) (SpecFloat.iter_pos shr_1 p r).
Proof.
intros HM. revert k r; induction p as [p IH|p IH|]; intros k r Hk H;
  cbn [SpecFloat.iter_pos].
- replace (k + Z.pos p~1) with (k + 1 + Z.pos p + Z.pos p) by lia.
  apply IH; [lia|]. apply IH; [lia|]. now apply tracks_shr_1.
- replace (k + Z.pos p~0) with (k + Z.pos p + Z.pos p) by lia.
  apply IH; [lia|]. now apply IH.
- now apply tracks_shr_1.
Qed.

(** Rounding the shifted mantissa to nearest: the result is the quotient
    or the next integer, and within half a unit of the exact quotient. *)
Lemma round_shifted (M : Z) (p : positive) :
  0 <= M ->
  let r := SpecFloat.iter_pos shr_1 p (Build_shr_record M false false) in
  let m2 := round_nearest_even (shr_m r) (loc_of_shr_record r) in
  M / 2 ^ Z.pos p <= m2 <= M / 2 ^ Z.pos p + 1
  /\ 2 * Z.abs (m2 * 2 ^ Z.pos p - M) <= 2 ^ Z.pos p.
Proof.
intros HM r m2.
assert (T : tracks M (0 + Z.pos p) r).
{ apply tracks_iter; [exact HM|lia|].
  split; [cbn [shr_m]; now rewrite Z.pow_0_r, Z.div_1_r|].
  split; [now intros _|intros H; lia]. }
cbn [Z.add] in T. destruct T as (Hm & _ & H1).
destruct (H1 ltac:(lia)) as [Hr Hs]. clear H1.
set (n := Z.pos p) in *.
assert (Hh : 0 < 2 ^ (n - 1)) by (apply Z.pow_pos_nonneg; lia).
assert (Hn : 2 ^ n = 2 * 2 ^ (n - 1)).
{ rewrite <- (Z.pow_succ_r 2 (n - 1)) by lia. f_equal; lia. }
pose proof (Z.div_mod M (2 ^ (n - 1)) ltac:(lia)) as Hdm.
pose proof (Z.mod_pos_bound M (2 ^ (n - 1)) Hh) as Hb.
set (q := M / 2 ^ (n - 1)) in *. set (rem := M mod 2 ^ (n - 1)) in *.
assert (Hq : M / 2 ^ n = q / 2).
{ rewrite Hn. unfold q. rewrite Z.mul_comm. now rewrite <- Z.div_div by lia. }
pose proof (Z.div_mod q 2 ltac:(lia)) as Hq2.
pose proof (Z.mod_pos_bound q 2 ltac:(lia)) as Hb2.
rewrite Zodd_mod in Hr.
unfold m2. destruct r as [m1 rb sb]; cbn [shr_m shr_r shr_s] in *.
rewrite Hq in *. subst m1.
set (h := 2 ^ (n - 1)) in *. set (a := q / 2) in *. set (b := q mod 2) in *.
assert (HM' : M = 2 * h * a + h * b + rem) by (rewrite Hdm, Hq2 at 1; ring).
rewrite Hn. clear Hdm Hq2 Hq Hn.
destruct rb, sb; cbn [loc_of_shr_record round_nearest_even].
- (* above the midpoint *)
  symmetry in Hr. apply Z.eqb_eq in Hr.
  assert (rem <> 0) by (intros E; apply Hs in E; discriminate E).
  split; [lia|]. rewrite HM', Hr. 
  replace ((a + 1) * (2 * h) - (2 * h * a + h * 1 + rem)) with (h - rem) by ring. lia.
- (* the midpoint *)
  symmetry in Hr. apply Z.eqb_eq in Hr.
  assert (Hrem : rem = 0) by (now apply Hs).
  rewrite HM', Hr, Hrem.
  destruct (Z.even a); (split; [lia|]).
  + replace (a * (2 * h) - (2 * h * a + h * 1 + 0)) with (- h) by ring. lia.
  + replace ((a + 1) * (2 * h) - (2 * h * a + h * 1 + 0)) with h by ring. lia.
- (* below the midpoint *)
  symmetry in Hr. apply Z.eqb_neq in Hr.
  assert (Hb0 : b = 0) by lia.
  split; [lia|]. rewrite HM', Hb0.
  replace (a * (2 * h) - (2 * h * a + h * 0 + rem)) with (- rem) by ring. lia.
- (* exact *)
  symmetry in Hr. apply Z.eqb_neq in Hr.
  assert (Hb0 : b = 0) by lia.
  assert (Hrem : rem = 0) by (now apply Hs).
  split; [lia|]. rewrite HM', Hb0, Hrem.
  replace (a * (2 * h) - (2 * h * a + h * 0 + 0)) with 0 by ring. lia.
Qed.

End ShiftRecords.

Section RoundAux.

Lemma fexp_eq (x : Z) :
  SpecFloat.fexp F64.prec F64.emax x = Z.max (x - 53) (- 1074).
Proof. reflexivity. Qed.

Lemma powerRZ_2_pos (e : Z) : (0 < powerRZ 2 e)%R.
Proof. apply powerRZ_lt; lra. Qed.

Lemma powerRZ_2_succ (e : Z) : powerRZ 2 (e + 1) = (powerRZ 2 e * 2)%R.
Proof. rewrite powerRZ_add by lra. now rewrite powerRZ_1. Qed.

Lemma powerRZ_2_IZR (n : Z) : 0 <= n -> powerRZ 2 n = IZR (2 ^ n).
Proof.
intros Hn. rewrite <- (Z2Nat.id n Hn) at 1.
rewrite <- pow_powerRZ. rewrite pow_IZR. now rewrite Z2Nat.id.
Qed.

Lemma Zdigits2_pos_bounds (m : Z) :
  0 < m -> 2 ^ (Zdigits2 m - 1) <= m < 2 ^ Zdigits2 m /\ 0 < Zdigits2 m.
Proof.
intros Hm. destruct m as [|p|p]; try lia. cbn [Zdigits2].
split; [apply digits2_pos_bounds|lia].
Qed.

Lemma Zdigits2_below (m j : Z) : 0 < m -> 0 <= j -> m < 2 ^ j -> Zdigits2 m <= j.
Proof.
intros Hm Hj Hlt.
destruct (Zdigits2_pos_bounds m Hm) as [[Hlo _] Hd].
assert (H : 2 ^ (Zdigits2 m - 1) < 2 ^ j) by lia.
apply Z.pow_lt_mono_r_iff in H; lia.
Qed.

Lemma Zdigits2_pow (j : Z) : 0 <= j -> Zdigits2 (2 ^ j) = j + 1.
Proof.
intros Hj.
assert (Hp : 0 < 2 ^ j) by (apply Z.pow_pos_nonneg; lia).
destruct (Zdigits2_pos_bounds (2 ^ j) Hp) as [[Hlo Hhi] Hd].
apply Z.pow_le_mono_r_iff in Hlo; [|lia|lia].
apply Z.pow_lt_mono_r_iff in Hhi; [|lia|lia].
lia.
Qed.

(** A shift that drops no set bit keeps the number. *)
Lemma shr_fexp_exact (m e : Z) :
  0 <= m ->
  SpecFloat.fexp F64.prec F64.emax (Zdigits2 m + e) - e <= 0
  \/ (SpecFloat.fexp F64.prec F64.emax (Zdigits2 m + e) - e = 1 /\ Z.even m = true) ->
  let '(mrs, e') := shr_fexp F64.prec F64.emax m e loc_Exact in
  0 <= shr_m mrs
  /\ (IZR (shr_m mrs) * powerRZ 2 e' = IZR m * powerRZ 2 e)%R.
Proof.
intros Hm Hn. unfold shr_fexp, shr. cbn [shr_record_of_loc].
destruct (SpecFloat.fexp F64.prec F64.emax (Zdigits2 m + e) - e) as [|q|q] eqn:En.
- cbn [shr_m]. now split.
- destruct Hn as [Hn|[Hn Hev]]; [lia|].
  injection Hn as ->. cbn [SpecFloat.iter_pos].
  rewrite shr_1_m by (cbn [shr_m]; lia). cbn [shr_m].
  split; [apply Z.div_pos; lia|].
  rewrite powerRZ_2_succ.
  apply Z.even_spec in Hev as [h ->].
  replace (2 * h / 2) with h by (apply Z.div_unique with 0; lia).
  rewrite mult_IZR. ring.
- cbn [shr_m]. now split.
Qed.

Let signed (s : bool) (v : R) : R := if s then (- v)%R else v.

(** The value of one rounding.  A positive integer [M] at the exponent
    [E] is rounded at the exponent [E'] the format gives it, the larger
    of [E] and [fexp]: the result stands for [m2 * 2^E'], where [m2] is
    within half a unit of [M / 2^(E'-E)]. *)
Lemma binary_round_aux_shape (s : bool) (M E : Z) :
  0 < M ->
  F64.is_finite (binary_round_aux F64.prec F64.emax s M E loc_Exact) = true ->
  exists m2 : Z,
    0 <= m2
    /\ 2 * Z.abs (m2 * 2 ^ (Z.max E (SpecFloat.fexp F64.prec F64.emax (Zdigits2 M + E)) - E) - M)
       <= 2 ^ (Z.max E (SpecFloat.fexp F64.prec F64.emax (Zdigits2 M + E)) - E)
    /\ B2R (binary_round_aux F64.prec F64.emax s M E loc_Exact)
       = signed s (IZR m2 * powerRZ 2 (Z.max E (SpecFloat.fexp F64.prec F64.emax (Zdigits2 M + E)))).
Proof.
intros HM.
destruct (Zdigits2_pos_bounds M HM) as [[Hlo Hhi] Hd].
set (R := binary_round_aux F64.prec F64.emax s M E loc_Exact).
assert (HR : R = binary_round_aux F64.prec F64.emax s M E loc_Exact) by reflexivity.
clearbody R.
assert (finish : forall (m2 E1 : Z),
  0 <= m2 ->
  SpecFloat.fexp F64.prec F64.emax (Zdigits2 m2 + E1) - E1 <= 0
  \/ (SpecFloat.fexp F64.prec F64.emax (Zdigits2 m2 + E1) - E1 = 1 /\ Z.even m2 = true) ->
  R = (let '(mrs'', e'') := shr_fexp F64.prec F64.emax m2 E1 loc_Exact in
       match shr_m mrs'' with
       | 0 => S754_zero s
       | Z.pos m =>
           if e'' <=? F64.emax - F64.prec then S754_finite s m e''
           else S754_infinity s
       | Z.neg _ => S754_nan
       end) ->
  F64.is_finite R = true -> B2R R = signed s (IZR m2 * powerRZ 2 E1)).
{ intros m2 E1 Hm2 Hn2 ->.
  pose proof (shr_fexp_exact m2 E1 Hm2 Hn2) as Hx.
  destruct (shr_fexp F64.prec F64.emax m2 E1 loc_Exact) as [mrs'' e''].
  destruct Hx as [Hpos Hval]. rewrite <- Hval.
  destruct (shr_m mrs'') as [|m|m]; try lia.
  - intros _. cbn [B2R]. unfold signed. destruct s; lra.
  - destruct (e'' <=? F64.emax - F64.prec); [|discriminate].
    intros _. cbn [B2R]. unfold signed. destruct s; ring. }
unfold binary_round_aux in HR.
unfold shr_fexp at 1 in HR. unfold shr in HR.
rewrite fexp_eq in *.
destruct (Z.max (Zdigits2 M + E - 53) (- 1074) - E) as [|q|q] eqn:En.
1, 3: (* nothing to shift *)
  (cbn [shr_record_of_loc loc_of_shr_record shr_m round_nearest_even] in HR;
   assert (HE : Z.max E (Z.max (Zdigits2 M + E - 53) (- 1074)) = E) by lia;
   rewrite HE; intros Hfin; exists M;
   replace (E - E) with 0 by lia; rewrite Z.pow_0_r;
   split; [lia|]; split; [lia|];
   apply finish; [lia| |exact HR|exact Hfin];
   left; rewrite fexp_eq; lia).
(* [q] bits are shifted out *)
  assert (HE : Z.max E (Z.max (Zdigits2 M + E - 53) (- 1074)) = E + Z.pos q) by lia.
  rewrite HE. replace (E + Z.pos q - E) with (Z.pos q) by lia.
  pose proof (round_shifted M q ltac:(lia)) as Hround. cbn zeta in Hround.
  cbn [shr_record_of_loc] in HR.
  set (r1 := SpecFloat.iter_pos shr_1 q {| shr_m := M; shr_r := false; shr_s := false |})
    in *.
  set (m2 := round_nearest_even (shr_m r1) (loc_of_shr_record r1)) in *.
  destruct Hround as [[Hm2lo Hm2hi] Herr].
  assert (Hq : 0 < 2 ^ Z.pos q) by (apply Z.pow_pos_nonneg; lia).
  assert (Hm1 : 0 <= M / 2 ^ Z.pos q) by (apply Z.div_pos; lia).
  intros Hfin. exists m2. split; [lia|]. split; [exact Herr|].
  apply finish; [lia| |exact HR|exact Hfin].
  rewrite !fexp_eq.
  destruct (Z.eq_dec m2 0) as [->|Hm20]; [left; cbn [Zdigits2]; lia|].
  set (k := Zdigits2 M - Z.pos q).
  destruct (Z_le_gt_dec 1 k) as [Hk|Hk].
  + (* the quotient keeps [k] digits *)
    assert (Hm1k : M / 2 ^ Z.pos q < 2 ^ k).
    { apply Z.div_lt_upper_bound; [lia|].
      rewrite <- Z.pow_add_r by lia.
      replace (Z.pos q + k) with (Zdigits2 M) by lia. lia. }
    destruct (Z.eq_dec m2 (2 ^ k)) as [E2|N2].
    * rewrite E2, Zdigits2_pow by lia.
      destruct (Z_le_gt_dec (Z.max (k + 1 + (E + Z.pos q) - 53) (- 1074)
                             - (E + Z.pos q)) 0) as [L|G]; [now left|right].
      split; [lia|]. rewrite Z.even_pow by lia. reflexivity.
    * left. assert (Hd2 : Zdigits2 m2 <= k) by (apply Zdigits2_below; lia). lia.
  + (* the quotient is zero, the result one *)
    assert (Hm10 : M / 2 ^ Z.pos q = 0).
    { apply Z.div_small. split; [lia|].
      apply Z.lt_le_trans with (2 ^ Zdigits2 M); [lia|]. apply Z.pow_le_mono_r; lia. }
    assert (E2 : m2 = 1) by lia. rewrite E2. left.
    change (Zdigits2 1) with 1. lia.
Qed.

End RoundAux.

Section RoundingError.

Local Open Scope R_scope.

Lemma Rabs_signed (s : bool) (v w : R) :
  Rabs ((if s then - v else v) - (if s then - w else w)) = Rabs (v - w).
Proof.
destruct s; [|reflexivity].
replace (- v - - w) with (- (v - w)) by ring. apply Rabs_Ropp.
Qed.

(** One rounding changes a number by at most its [2^-53]th part, or by
    at most [2^-1075]. *)
Lemma binary_round_aux_error (s : bool) (M E : Z) :
  (0 < M)%Z ->
  F64.is_finite (binary_round_aux F64.prec F64.emax s M E loc_Exact) = true ->
  Rabs (B2R (binary_round_aux F64.prec F64.emax s M E loc_Exact)
        - (if s then - (IZR M * powerRZ 2 E) else IZR M * powerRZ 2 E))
  <= unit_roundoff * (IZR M * powerRZ 2 E) + half_least.
Proof.
intros HM Hfin.
destruct (binary_round_aux_shape s M E HM Hfin) as (m2 & Hm2 & Herr & ->).
rewrite Rabs_signed.
destruct (Zdigits2_pos_bounds M HM) as [[Hlo _] Hd].
rewrite fexp_eq in *.
set (E' := Z.max E (Z.max (Zdigits2 M + E - 53) (- 1074))) in *.
set (n := (E' - E)%Z) in *.
assert (Hn : (0 <= n)%Z) by (unfold n, E'; lia).
assert (HE' : powerRZ 2 E' = powerRZ 2 E * IZR (2 ^ n)).
{ replace E' with (E + n)%Z by (unfold n; lia).
  rewrite powerRZ_add by lra. now rewrite (powerRZ_2_IZR n Hn). }
pose proof (powerRZ_2_pos E) as HpE.
assert (Hexact : 0 <= IZR M * powerRZ 2 E).
{ apply Rmult_le_pos; [apply IZR_le; lia|lra]. }
assert (Hu : 0 < unit_roundoff) by apply powerRZ_2_pos.
assert (Hl : 0 < half_least) by apply powerRZ_2_pos.
replace (IZR m2 * powerRZ 2 E' - IZR M * powerRZ 2 E)
  with (powerRZ 2 E * IZR (m2 * 2 ^ n - M))
  by (rewrite HE', minus_IZR, mult_IZR; ring).
rewrite Rabs_mult, (Rabs_pos_eq (powerRZ 2 E)) by lra.
rewrite <- abs_IZR.
destruct (Z.eq_dec n 0) as [Hn0|Hn0].
- (* the number is a float already *)
  rewrite Hn0, Z.pow_0_r in Herr.
  assert (Hz : Z.abs (m2 * 2 ^ n - M) = 0%Z) by (rewrite Hn0, Z.pow_0_r; lia).
  rewrite Hz, Rmult_0_r.
  apply Rplus_le_le_0_compat; [apply Rmult_le_pos|]; lra.
- assert (Hhalf : powerRZ 2 E * IZR (Z.abs (m2 * 2 ^ n - M)) <= powerRZ 2 (E' - 1)).
  { replace (E' - 1)%Z with (E + (n - 1))%Z by (unfold n; lia).
    rewrite powerRZ_add by lra. rewrite (powerRZ_2_IZR (n - 1)) by lia.
    apply Rmult_le_compat_l; [lra|]. apply IZR_le.
    assert (H2 : (2 ^ n = 2 * 2 ^ (n - 1))%Z).
    { rewrite <- (Z.pow_succ_r 2 (n - 1)) by lia. f_equal; lia. }
    lia. }
  eapply Rle_trans; [exact Hhalf|].
  destruct (Z.eq_dec E' (- 1074)) as [Emin|Enorm].
  + (* a subnormal result *)
    rewrite Emin. change (powerRZ 2 (-1074 - 1)) with half_least.
    assert (0 <= unit_roundoff * (IZR M * powerRZ 2 E)) by (apply Rmult_le_pos; lra).
    lra.
  + (* a normal result *)
    assert (EE : E' = (Zdigits2 M + E - 53)%Z) by (unfold E', n in *; lia).
    rewrite EE.
    replace (Zdigits2 M + E - 53 - 1)%Z with ((Zdigits2 M - 1) + E + (- 53))%Z by lia.
    rewrite !powerRZ_add by lra.
    rewrite (powerRZ_2_IZR (Zdigits2 M - 1)) by lia.
    fold unit_roundoff.
    assert (HM' : IZR (2 ^ (Zdigits2 M - 1)) <= IZR M) by (apply IZR_le; exact Hlo).
    assert (Hx : IZR (2 ^ (Zdigits2 M - 1)) * powerRZ 2 E * unit_roundoff
                 <= unit_roundoff * (IZR M * powerRZ 2 E)).
    { rewrite (Rmult_comm unit_roundoff).
      apply Rmult_le_compat_r; [lra|]. apply Rmult_le_compat_r; lra. }
    lra.
Qed.

Lemma B2R_finite (s : bool) (m : positive) (e : Z) :
  B2R (S754_finite s m e)
  = (if s then - (IZR (Z.pos m) * powerRZ 2 e) else IZR (Z.pos m) * powerRZ 2 e).
Proof. cbn [B2R]. destruct s; ring. Qed.

(** The error of a product. *)
Lemma mul_error (x y : F64.float) :
  F64.is_finite x = true -> F64.is_finite y = true ->
  F64.is_finite (F64.mul x y) = true ->
  Rabs (B2R (F64.mul x y) - B2R x * B2R y)
  <= unit_roundoff * Rabs (B2R x * B2R y) + half_least.
Proof.
assert (Hu : 0 < unit_roundoff) by apply powerRZ_2_pos.
assert (Hl : 0 < half_least) by apply powerRZ_2_pos.
assert (Hzero : forall v : R, v = 0 -> Rabs (0 - v) <= unit_roundoff * Rabs v + half_least).
{ intros v ->. rewrite Rminus_0_r, Rabs_R0. lra. }
intros Fx Fy Fz.
destruct x as [sx|sx| |sx mx ex], y as [sy|sy| |sy my ey];
  try discriminate Fx; try discriminate Fy;
  try (cbn [F64.mul SFmul B2R]; apply Hzero; ring).
unfold F64.mul, SFmul in *.
pose proof (binary_round_aux_error (xorb sx sy) (Z.pos (mx * my)) (ex + ey)
              ltac:(lia) Fz) as H.
assert (Hval : B2R (S754_finite sx mx ex) * B2R (S754_finite sy my ey)
               = (if xorb sx sy then - (IZR (Z.pos (mx * my)) * powerRZ 2 (ex + ey))
                  else IZR (Z.pos (mx * my)) * powerRZ 2 (ex + ey))).
{ rewrite !B2R_finite, Pos2Z.inj_mul, mult_IZR, powerRZ_add by lra.
  destruct sx, sy; cbn [xorb]; ring. }
rewrite Hval.
assert (Habs : Rabs (if xorb sx sy then - (IZR (Z.pos (mx * my)) * powerRZ 2 (ex + ey))
                     else IZR (Z.pos (mx * my)) * powerRZ 2 (ex + ey))
               = IZR (Z.pos (mx * my)) * powerRZ 2 (ex + ey)).
{ assert (0 <= IZR (Z.pos (mx * my)) * powerRZ 2 (ex + ey)).
  { apply Rmult_le_pos; [apply IZR_le; lia|]. pose proof (powerRZ_2_pos (ex + ey)); lra. }
  destruct (xorb sx sy); [rewrite Rabs_Ropp|]; now apply Rabs_pos_eq. }
rewrite Habs. exact H.
Qed.

End RoundingError.

Section SumError.

Local Open Scope R_scope.

Lemma binary_round_error (s : bool) (m : positive) (e : Z) :
  F64.is_finite (binary_round F64.prec F64.emax s m e) = true ->
  Rabs (B2R (binary_round F64.prec F64.emax s m e)
        - (if s then - (IZR (Z.pos m) * powerRZ 2 e) else IZR (Z.pos m) * powerRZ 2 e))
  <= unit_roundoff * (IZR (Z.pos m) * powerRZ 2 e) + half_least.
Proof.
unfold binary_round, shl_align.
destruct (SpecFloat.fexp F64.prec F64.emax (Z.pos (digits2_pos m) + e) - e)%Z
  as [|d|d] eqn:Ed.
- apply binary_round_aux_error; lia.
- apply binary_round_aux_error; lia.
- intros Hfin.
  pose proof (binary_round_aux_error s (Z.pos (Pos.iter xO m d)) _ ltac:(lia) Hfin) as H.
  assert (Hval : IZR (Z.pos (Pos.iter xO m d))
                 * powerRZ 2 (SpecFloat.fexp F64.prec F64.emax (Z.pos (digits2_pos m) + e))
                 = IZR (Z.pos m) * powerRZ 2 e).
  { rewrite iter_xO_value, mult_IZR.
    rewrite <- (powerRZ_2_IZR (Z.pos d)) by lia.
    rewrite Rmult_assoc, <- powerRZ_add by lra. f_equal. f_equal. lia. }
  rewrite Hval in H. exact H.
Qed.

Lemma aligned_value (m : positive) (e ez : Z) :
  (ez <= e)%Z ->
  IZR (Z.pos m) * powerRZ 2 e = IZR (Z.pos m * 2 ^ (e - ez)) * powerRZ 2 ez.
Proof.
intros He. rewrite mult_IZR, <- (powerRZ_2_IZR (e - ez)) by lia.
rewrite Rmult_assoc, <- powerRZ_add by lra. f_equal. f_equal. lia.
Qed.

(** The error of a sum. *)
Lemma add_error (x y : F64.float) :
  F64.is_finite x = true -> F64.is_finite y = true ->
  F64.is_finite (F64.add x y) = true ->
  Rabs (B2R (F64.add x y) - (B2R x + B2R y))
  <= unit_roundoff * Rabs (B2R x + B2R y) + half_least.
Proof.
assert (Hu : 0 < unit_roundoff) by apply powerRZ_2_pos.
assert (Hl : 0 < half_least) by apply powerRZ_2_pos.
assert (Hsame : forall v w : R, v = w -> Rabs (v - w) <= unit_roundoff * Rabs w + half_least).
{ intros v w ->. rewrite Rminus_diag, Rabs_R0.
  pose proof (Rabs_pos w). apply Rplus_le_le_0_compat; [apply Rmult_le_pos|]; lra. }
intros Fx Fy Fz.
destruct x as [sx|sx| |sx mx ex], y as [sy|sy| |sy my ey];
  try discriminate Fx; try discriminate Fy.
- apply Hsame. destruct sx, sy; cbn [F64.add SFadd B2R]; lra.
- apply Hsame. cbn [F64.add SFadd B2R]. lra.
- apply Hsame. cbn [F64.add SFadd B2R]. lra.
- unfold F64.add, SFadd in *.
  set (ez := Z.min ex ey) in *.
  rewrite !shl_align_value in * by (unfold ez; lia).
  set (X := (Z.pos mx * 2 ^ (ex - ez))%Z) in *.
  set (Y := (Z.pos my * 2 ^ (ey - ez))%Z) in *.
  assert (HX : B2R (S754_finite sx mx ex) = IZR (cond_Zopp sx X) * powerRZ 2 ez).
  { rewrite B2R_finite, (aligned_value mx ex ez) by (unfold ez; lia). fold X.
    destruct sx; cbn [cond_Zopp]; rewrite ?opp_IZR; ring. }
  assert (HY : B2R (S754_finite sy my ey) = IZR (cond_Zopp sy Y) * powerRZ 2 ez).
  { rewrite B2R_finite, (aligned_value my ey ez) by (unfold ez; lia). fold Y.
    destruct sy; cbn [cond_Zopp]; rewrite ?opp_IZR; ring. }
  rewrite HX, HY, <- Rmult_plus_distr_r, <- plus_IZR.
  pose proof (powerRZ_2_pos ez) as Hp.
  unfold binary_normalize in *.
  destruct (cond_Zopp sx X + cond_Zopp sy Y)%Z as [|m|m].
  + apply Hsame. cbn [B2R]. ring.
  + pose proof (binary_round_error false m ez Fz) as H. cbn iota in H.
    rewrite (Rabs_pos_eq (IZR (Z.pos m) * powerRZ 2 ez))
      by (apply Rmult_le_pos; [apply IZR_le; lia|lra]).
    exact H.
  + pose proof (binary_round_error true m ez Fz) as H. cbn iota in H.
    change (Z.neg m) with (- Z.pos m)%Z. rewrite opp_IZR.
    replace (- IZR (Z.pos m) * powerRZ 2 ez) with (- (IZR (Z.pos m) * powerRZ 2 ez)) by ring.
    rewrite Rabs_Ropp.
    rewrite (Rabs_pos_eq (IZR (Z.pos m) * powerRZ 2 ez))
      by (apply Rmult_le_pos; [apply IZR_le; lia|lra]).
    exact H.
Qed.

End SumError.

(* ================================================================== *)
(** * Binary64: how far a ring vertex is from the centre               *)
(* ================================================================== *)

Section VertexDistance.

Local Open Scope R_scope.

(** A finite sum or product has finite operands. *)
Lemma add_finite (x y : F64.float) :
  F64.is_finite (F64.add x y) = true ->
  F64.is_finite x = true /\ F64.is_finite y = true.
Proof.
destruct x as [sx|sx| |sx mx ex], y as [sy|sy| |sy my ey];
  cbn [F64.add SFadd F64.is_finite]; try (now split); try discriminate;
  destruct sx, sy; cbn [F64.is_finite]; (now split) || discriminate.
Qed.

Lemma mul_finite (x y : F64.float) :
  F64.is_finite (F64.mul x y) = true ->
  F64.is_finite x = true /\ F64.is_finite y = true.
Proof.
destruct x as [sx|sx| |sx mx ex], y as [sy|sy| |sy my ey];
  cbn [F64.mul SFmul F64.is_finite]; try (now split); try discriminate.
Qed.

(** Moving a vector by [(e1, e2)] changes its length by at most
    [|e1| + |e2|]. *)
Lemma norm_le_moved (a1 a2 e1 e2 : R) :
  sqrt ((a1 + e1) * (a1 + e1) + (a2 + e2) * (a2 + e2))
  <= sqrt (a1 * a1 + a2 * a2) + (Rabs e1 + Rabs e2).
Proof.
set (A := sqrt (a1 * a1 + a2 * a2)).
assert (Hsq : 0 <= a1 * a1 + a2 * a2).
{ pose proof (Rle_0_sqr a1) as S1. pose proof (Rle_0_sqr a2) as S2.
  unfold Rsqr in S1, S2. lra. }
assert (HA : 0 <= A) by apply sqrt_pos.
assert (HAA : A * A = a1 * a1 + a2 * a2) by (apply sqrt_sqrt; exact Hsq).
pose proof (Rabs_pos e1) as He1. pose proof (Rabs_pos e2) as He2.
assert (Ha1 : Rabs a1 <= A).
{ apply Rsqr_incr_0_var; [|exact HA]. rewrite <- Rsqr_abs. unfold Rsqr.
  pose proof (Rle_0_sqr a2) as S2. unfold Rsqr in S2. lra. }
assert (Ha2 : Rabs a2 <= A).
{ apply Rsqr_incr_0_var; [|exact HA]. rewrite <- Rsqr_abs. unfold Rsqr.
  pose proof (Rle_0_sqr a1) as S1. unfold Rsqr in S1. lra. }
assert (P1 : a1 * e1 <= A * Rabs e1).
{ apply Rle_trans with (Rabs (a1 * e1)); [apply Rle_abs|].
  rewrite Rabs_mult. apply Rmult_le_compat_r; assumption. }
assert (P2 : a2 * e2 <= A * Rabs e2).
{ apply Rle_trans with (Rabs (a2 * e2)); [apply Rle_abs|].
  rewrite Rabs_mult. apply Rmult_le_compat_r; assumption. }
assert (Q1 : e1 * e1 = Rabs e1 * Rabs e1) by apply (Rsqr_abs e1).
assert (Q2 : e2 * e2 = Rabs e2 * Rabs e2) by apply (Rsqr_abs e2).
assert (Hpos : 0 <= (a1 + e1) * (a1 + e1) + (a2 + e2) * (a2 + e2)).
{ pose proof (Rle_0_sqr (a1 + e1)) as S1. pose proof (Rle_0_sqr (a2 + e2)) as S2.
  unfold Rsqr in S1, S2. lra. }
assert (HE : 0 <= Rabs e1 * Rabs e2) by (apply Rmult_le_pos; assumption).
apply Rsqr_incr_0_var; [|lra].
rewrite Rsqr_sqrt by exact Hpos. unfold Rsqr.
replace ((a1 + e1) * (a1 + e1) + (a2 + e2) * (a2 + e2))
  with (A * A + 2 * (a1 * e1) + 2 * (a2 * e2) + e1 * e1 + e2 * e2)
  by (rewrite HAA; ring).
replace ((A + (Rabs e1 + Rabs e2)) * (A + (Rabs e1 + Rabs e2)))
  with (A * A + 2 * (A * Rabs e1) + 2 * (A * Rabs e2)
        + Rabs e1 * Rabs e1 + Rabs e2 * Rabs e2 + 2 * (Rabs e1 * Rabs e2)) by ring.
lra.
Qed.

Lemma norm_moved (a1 a2 e1 e2 : R) :
  Rabs (sqrt ((a1 + e1) * (a1 + e1) + (a2 + e2) * (a2 + e2))
        - sqrt (a1 * a1 + a2 * a2))
  <= Rabs e1 + Rabs e2.
Proof.
pose proof (norm_le_moved a1 a2 e1 e2) as H1.
pose proof (norm_le_moved (a1 + e1) (a2 + e2) (- e1) (- e2)) as H2.
replace (a1 + e1 + - e1) with a1 in H2 by ring.
replace (a2 + e2 + - e2) with a2 in H2 by ring.
rewrite !Rabs_Ropp in H2.
apply Rabs_le. lra.
Qed.

(** One coordinate: the centre plus radius times cosine, in floats,
    against the same in real numbers. *)
Lemma coordinate_error (x rho c : F64.float) :
  F64.is_finite (F64.add x (F64.mul rho c)) = true ->
  Rabs (B2R (F64.add x (F64.mul rho c)) - B2R x - B2R rho * B2R c)
  <= unit_roundoff * Rabs (B2R x)
     + unit_roundoff * (2 + unit_roundoff) * (Rabs (B2R rho) * Rabs (B2R c))
     + (2 + unit_roundoff) * half_least.
Proof.
intros Hfin.
destruct (add_finite _ _ Hfin) as [Fx Fp].
destruct (mul_finite _ _ Fp) as [Frho Fc].
pose proof (mul_error rho c Frho Fc Fp) as Hm.
pose proof (add_error x (F64.mul rho c) Fx Fp Hfin) as Ha.
assert (Hu : 0 < unit_roundoff) by apply powerRZ_2_pos.
assert (Hl : 0 < half_least) by apply powerRZ_2_pos.
rewrite Rabs_mult in Hm.
set (X := B2R (F64.add x (F64.mul rho c))) in *.
set (P := B2R (F64.mul rho c)) in *.
set (v := B2R x) in *. set (r := B2R rho) in *. set (k := B2R c) in *.
set (rk := Rabs r * Rabs k) in *.
assert (Hrk : 0 <= rk) by (apply Rmult_le_pos; apply Rabs_pos).
assert (HP : Rabs P <= (1 + unit_roundoff) * rk + half_least).
{ replace P with ((P - r * k) + r * k) by ring.
  eapply Rle_trans; [apply Rabs_triang|]. rewrite (Rabs_mult r k). fold rk. lra. }
assert (Hs : Rabs (v + P) <= Rabs v + (1 + unit_roundoff) * rk + half_least).
{ eapply Rle_trans; [apply Rabs_triang|]. lra. }
replace (X - v - r * k) with ((X - (v + P)) + (P - r * k)) by ring.
eapply Rle_trans; [apply Rabs_triang|].
pose proof (Rabs_pos v).
assert (Hprod : unit_roundoff * Rabs (v + P)
                <= unit_roundoff * (Rabs v + (1 + unit_roundoff) * rk + half_least)).
{ apply Rmult_le_compat_l; lra. }
assert (Hsmall : unit_roundoff * half_least <= unit_roundoff * half_least) by lra.
nra.
Qed.

(** The distance of a vertex from the centre, as real numbers, against
    the radius times the length of the (cosine, sine) pair the C library
    returned. *)
Lemma ring_vertex_distance (L : Libm) (xc yc rho : F64.float) (i : Z) :
  let c := libm_cos L (@vertex_angle _ (F64_Arith L) 64 i) in
  let s := libm_sin L (@vertex_angle _ (F64_Arith L) 64 i) in
  let p := @ring_vertex _ (F64_Arith L) xc yc rho i in
  F64.is_finite (fst p) = true -> F64.is_finite (snd p) = true ->
  Rabs (real_distance p (xc, yc)
        - Rabs (B2R rho) * sqrt (B2R c * B2R c + B2R s * B2R s))
  <= vertex_tolerance (B2R xc) (B2R yc) (B2R rho) (B2R c) (B2R s).
Proof.
intros c s p Fx Fy.
unfold p, ring_vertex in *. cbn [fst snd fadd fmul math_cos math_sin F64_Arith] in *.
fold c s in Fx, Fy |- *.
pose proof (coordinate_error xc rho c Fx) as Hx.
pose proof (coordinate_error yc rho s Fy) as Hy.
unfold real_distance; cbn [fst snd].
set (X := B2R (F64.add xc (F64.mul rho c))) in *.
set (Y := B2R (F64.add yc (F64.mul rho s))) in *.
set (r := B2R rho) in *. set (kc := B2R c) in *. set (ks := B2R s) in *.
assert (Hnorm : Rabs r * sqrt (kc * kc + ks * ks)
                = sqrt (r * kc * (r * kc) + r * ks * (r * ks))).
{ replace (r * kc * (r * kc) + r * ks * (r * ks))
    with (Rsqr r * (kc * kc + ks * ks)) by (unfold Rsqr; ring).
  rewrite sqrt_mult_alt by apply Rle_0_sqr. now rewrite sqrt_Rsqr_abs. }
rewrite Hnorm.
replace (X - B2R xc) with (r * kc + (X - B2R xc - r * kc)) by ring.
replace (Y - B2R yc) with (r * ks + (Y - B2R yc - r * ks)) by ring.
eapply Rle_trans; [apply norm_moved|].
unfold vertex_tolerance.
assert (Hu : 0 < unit_roundoff) by apply powerRZ_2_pos.
assert (Hl : 0 < half_least) by apply powerRZ_2_pos.
lra.
Qed.

End VertexDistance.

(** C5, as the code has it.  For every centre, radius, width and colour
    the ring builder registers exactly two boundaries, the outer one in
    the caller's colour and then the inner one in white [(1, 1, 1)].
    Each is the 64-sided polygon of the 65 vertices at the angles
    [2*pi*i/64], vertex [i] being the centre plus the signed radius
    ([radius + width/2] outside, [radius - width/2] inside) times the
    cosine and the sine of the angle, all computed in the arithmetic of
    the interpreter; [add_polygon] appends a copy of vertex 0 when
    rounding leaves vertex 64 different from it.  This holds on every
    arithmetic, binary64 included.  In binary64 a vertex with finite
    coordinates lies at the distance [|rho|] from the centre, [rho]
    being the signed radius as the interpreter has it, up to the length
    of the (cosine, sine) pair of the C library and to the rounding of
    one product and one sum per coordinate, bounded by
    [vertex_tolerance]: the absolute value, since the inner radius is
    negative for a width above twice the radius.  In exact arithmetic
    every vertex is on the circle of radius [|rho|] about the centre. *)
Theorem ring_resonator_boundaries :
  (forall (F : Type) (ar : Arith F) (xc yc radius width : F)
          (c : @color F) (st : @polygons F),
      let rho_o := fadd radius (fdiv width (of_int 2)) in
      let rho_i := fsub radius (fdiv width (of_int 2)) in
      let vo := circle_points xc yc rho_o 64 in
      let vi := circle_points xc yc rho_i 64 in
      exists outer inner,
        ring_resonator_placeholder xc yc radius width c st
        = (Ok outer, st ++ [(outer, c); (inner, (of_int 1, of_int 1, of_int 1))])
        /\ ring_boundary xc yc rho_o vo outer
        /\ ring_boundary xc yc rho_i vi inner
        /\ List.length vo = 65%nat /\ List.length vi = 65%nat
        /\ (forall i, 0 <= i <= 64 ->
              nth_error vo (Z.to_nat i) = Some (ring_vertex xc yc rho_o i)
              /\ nth_error vi (Z.to_nat i) = Some (ring_vertex xc yc rho_i i))
        /\ closed_points outer /\ closed_points inner)
  /\ (forall (L : Libm) (xc yc rho : F64.float) (i : Z),
        0 <= i <= 64 ->
        let c := libm_cos L (@vertex_angle _ (F64_Arith L) 64 i) in
        let s := libm_sin L (@vertex_angle _ (F64_Arith L) 64 i) in
        let p := @ring_vertex _ (F64_Arith L) xc yc rho i in
        let norm := sqrt (B2R c * B2R c + B2R s * B2R s) in
        let tol := vertex_tolerance (B2R xc) (B2R yc) (B2R rho) (B2R c) (B2R s) in
        nth_error (@circle_points _ (F64_Arith L) xc yc rho 64) (Z.to_nat i) = Some p
        /\ (F64.is_finite (fst p) = true -> F64.is_finite (snd p) = true ->
            (Rabs (real_distance p (xc, yc) - Rabs (B2R rho) * norm) <= tol)%R
            /\ (forall eps : R,
                  (Rabs (norm - 1) <= eps)%R ->
                  (Rabs (real_distance p (xc, yc) - Rabs (B2R rho))
                   <= Rabs (B2R rho) * eps + tol)%R)))
  /\ (forall (xc yc radius width : R),
        let vo := circle_points xc yc (radius + width / 2)%R 64 in
        let vi := circle_points xc yc (radius - width / 2)%R 64 in
        Forall (on_circle xc yc (radius + width / 2)%R) vo
        /\ Forall (on_circle xc yc (radius - width / 2)%R) vi
        /\ Forall (fun p => distance xc yc p = Rabs (radius + width / 2)) vo
        /\ Forall (fun p => distance xc yc p = Rabs (radius - width / 2)) vi).
Proof.
split; [|split].
{ intros F ar xc yc radius width c st rho_o rho_i vo vi.
  destruct (ring_resonator_placeholder_run xc yc radius width c st)
    as (fo & ro & fi & ri & Eo & Ei & Hrun).
  exists (closed_up fo ro), (closed_up fi ri).
  split; [exact Hrun|].
  split; [now apply closed_up_ring_boundary|].
  split; [now apply closed_up_ring_boundary|].
  split; [apply length_circle_points|]. split; [apply length_circle_points|].
  split; [intros i Hi; split; now apply nth_error_ring_vertex|].
  split; apply closed_up_closed. }
{ intros L xc yc rho i Hi c s p norm tol.
  split; [now apply (@nth_error_ring_vertex _ (F64_Arith L))|].
  intros Fx Fy.
  pose proof (ring_vertex_distance L xc yc rho i Fx Fy) as H.
  cbn zeta in H. fold c s p norm tol in H.
  split; [exact H|].
  intros eps Heps.
  replace (real_distance p (xc, yc) - Rabs (B2R rho))%R
    with ((real_distance p (xc, yc) - Rabs (B2R rho) * norm)
          + Rabs (B2R rho) * (norm - 1))%R by ring.
  eapply Rle_trans; [apply Rabs_triang|].
  rewrite Rabs_mult, Rabs_Rabsolu.
  pose proof (Rabs_pos (B2R rho)) as Hr.
  assert (Rabs (B2R rho) * Rabs (norm - 1) <= Rabs (B2R rho) * eps)%R
    by (apply Rmult_le_compat_l; assumption).
  lra. }
intros xc yc radius width vo vi.
split; [apply circle_points_on_circle|]. split; [apply circle_points_on_circle|].
split.
- eapply Forall_impl; [|apply circle_points_on_circle].
  intros p; apply on_circle_distance.
- eapply Forall_impl; [|apply circle_points_on_circle].
  intros p; apply on_circle_distance.
Qed.

(** C5, as the claim words it, fails: the distance of the inner vertices
    is not [radius - width/2] when the width exceeds twice the radius.
    About the origin with radius 1 and width 4, vertex 0 of the inner
    boundary is [(-1.0, 0.0)], at distance 1 from the centre, by
    [math.hypot] and as real numbers, while [radius - width/2] is
    [-1.0].  Both boundaries are registered with 66 points here: the
    sine of the rounded [2*pi] is not zero, so vertex 64 differs from
    vertex 0 and [add_polygon] appends a copy of vertex 0. *)
Lemma ring_inner_distance_not_signed_radius :
  let A := F64_Arith RefLibm.libm in
  let zero := F64.of_int 0 in
  let radius := F64.of_int 1 in
  let width := F64.of_int 4 in
  let p := (F64.neg (F64.of_int 1), zero) in
  exists outer inner,
    @ring_resonator_placeholder _ A zero zero radius width (@white _ A) []
    = (Ok outer, [(outer, @white _ A); (inner, @white _ A)])
    /\ nth_error inner 0 = Some p
    /\ List.length outer = 66%nat /\ List.length inner = 66%nat
    /\ F64.sub radius (F64.div width (F64.of_int 2)) = F64.neg (F64.of_int 1)
    /\ libm_hypot RefLibm.libm (F64.sub (fst p) zero) (F64.sub (snd p) zero)
       = F64.of_int 1
    /\ F64.eqb (libm_hypot RefLibm.libm (F64.sub (fst p) zero) (F64.sub (snd p) zero))
               (F64.sub radius (F64.div width (F64.of_int 2))) = false
    /\ real_distance p (zero, zero) = 1%R
    /\ B2R (F64.sub radius (F64.div width (F64.of_int 2))) = (- 1)%R.
Proof.
intros A zero radius width p.
destruct (@ring_resonator_placeholder _ A zero zero radius width (@white _ A) [])
  as [r st] eqn:E.
vm_compute in E.
injection E as <- <-.
do 2 eexists. split; [reflexivity|]. split; [reflexivity|].
assert (Hone : (IZR 4503599627370496 * powerRZ 2 (- 52) = 1)%R).
{ change 4503599627370496 with (2 ^ 52).
  rewrite <- powerRZ_2_IZR by lia. rewrite <- powerRZ_add by lra.
  reflexivity. }
split; [reflexivity|]. split; [reflexivity|].
split; [vm_compute; reflexivity|].
split; [vm_compute; reflexivity|].
split; [vm_compute; reflexivity|].
split.
- unfold real_distance, p, zero; cbn [fst snd].
  change (F64.neg (F64.of_int 1)) with (S754_finite true 4503599627370496 (- 52)).
  change (F64.of_int 0) with (S754_zero false).
  rewrite B2R_finite. cbn [B2R]. rewrite Hone.
  replace ((- (1) - 0) * (- (1) - 0) + (0 - 0) * (0 - 0))%R with 1%R by ring.
  apply sqrt_1.
- change (F64.sub radius (F64.div width (F64.of_int 2)))
    with (S754_finite true 4503599627370496 (- 52)).
  rewrite B2R_finite. rewrite Hone. reflexivity.
Qed.

(** A run of C5 with the reference C library: vertex 5 of the outer
    boundary of channel 0, about [(150.0, -52.5)] at the radius 10.225. *)
Lemma ring_resonator_boundaries_witness :
  let L := RefLibm.libm in
  let xc := F64.of_int 150 in
  let yc := F64.neg (F64.lit 525 1) in
  let rho := F64.lit 10225 3 in
  let c := libm_cos L (@vertex_angle _ (F64_Arith L) 64 5) in
  let s := libm_sin L (@vertex_angle _ (F64_Arith L) 64 5) in
  let p := @ring_vertex _ (F64_Arith L) xc yc rho 5 in
  (Rabs (real_distance p (xc, yc)
         - Rabs (B2R rho) * sqrt (B2R c * B2R c + B2R s * B2R s))
   <= vertex_tolerance (B2R xc) (B2R yc) (B2R rho) (B2R c) (B2R s))%R.
Proof.
intros L xc yc rho c s p.
refine (proj1 (proj2 (proj1 (proj2 ring_resonator_boundaries) L xc yc rho 5 _) _ _)).
- lia.
- vm_compute; reflexivity.
- vm_compute; reflexivity.
Defined.
